(** * The progress-block editor of [new_problem.py]

    A shallow embedding of the markdown editor of [new_problem.py]
    ([extract_progress_block], [upsert_category_block],
    [add_problem_checkbox], [update_summary_counts],
    [replace_progress_block]) together with the part of Python's [str] and
    [re] that these functions call.

    A Python [str] is a sequence of Unicode code points; it is modelled as a
    list of code points.  Regular expressions are modelled by a small
    backtracking matcher that returns its matches in the order in which
    Python's engine tries them, so that [re.search], [re.sub] and
    [re.findall] are read off the first match. *)

From Stdlib Require Import List NArith Arith Bool Lia String Ascii DecimalString
  DecimalNat.
Import ListNotations.

Set Implicit Arguments.

Local Abbreviation length := Datatypes.length.

(** ** Text *)

Definition char := N.
Definition text := list char.

(** An ASCII literal as text. *)
Definition str (s : string) : text := map N_of_ascii (list_ascii_of_string s).
Arguments str s%_string.

Definition NL : char := 10%N.
Definition BACKSLASH : char := 92%N.
(** U+2014, the em dash of the entry line. *)
Definition EM_DASH : char := 8212%N.

(** [str.isspace], which is also [\s] of a [str] pattern and the set that
    [str.rstrip()] removes. *)
Definition is_space (c : char) : bool :=
  ((9 <=? c) && (c <=? 13) || (28 <=? c) && (c <=? 32)
   || (c =? 133) || (c =? 160) || (c =? 5760)
   || (8192 <=? c) && (c <=? 8202)
   || (c =? 8232) || (c =? 8233) || (c =? 8239) || (c =? 8287)
   || (c =? 12288))%N.

(** The decimal digits of Unicode 14 (category Nd), as inclusive ranges:
    [\d] of a [str] pattern. *)
Definition decimal_ranges : list (N * N) :=
  [(48, 57); (1632, 1641); (1776, 1785); (1984, 1993); (2406, 2415);
   (2534, 2543); (2662, 2671); (2790, 2799); (2918, 2927); (3046, 3055);
   (3174, 3183); (3302, 3311); (3430, 3439); (3558, 3567); (3664, 3673);
   (3792, 3801); (3872, 3881); (4160, 4169); (4240, 4249); (6112, 6121);
   (6160, 6169); (6470, 6479); (6608, 6617); (6784, 6793); (6800, 6809);
   (6992, 7001); (7088, 7097); (7232, 7241); (7248, 7257); (42528, 42537);
   (43216, 43225); (43264, 43273); (43472, 43481); (43504, 43513);
   (43600, 43609); (44016, 44025); (65296, 65305); (66720, 66729);
   (68912, 68921); (69734, 69743); (69872, 69881); (69942, 69951);
   (70096, 70105); (70384, 70393); (70736, 70745); (70864, 70873);
   (71248, 71257); (71360, 71369); (71472, 71481); (71904, 71913);
   (72016, 72025); (72784, 72793); (73040, 73049); (73120, 73129);
   (92768, 92777); (92864, 92873); (93008, 93017); (120782, 120831);
   (123200, 123209); (123632, 123641); (125264, 125273);
   (130032, 130041)]%N.

Definition is_decimal (c : char) : bool :=
  existsb (fun r => (fst r <=? c) && (c <=? snd r))%N decimal_ranges.

Definition any_char (_ : char) : bool := true.
Definition is_char (a c : char) : bool := (a =? c)%N.
Definition not_char (a c : char) : bool := negb (a =? c)%N.

(** [s.startswith(p)]. *)
Fixpoint starts_with (p s : text) : bool :=
  match p, s with
  | [], _ => true
  | _ :: _, [] => false
  | a :: p', b :: s' => (a =? b)%N && starts_with p' s'
  end.

(** [p in s]. *)
Fixpoint contains (p s : text) : bool :=
  starts_with p s || match s with [] => false | _ :: s' => contains p s' end.

(** [s.replace(old, new)]: every occurrence of [old], leftmost first and
    not overlapping.  [skip] counts the characters of an occurrence still to
    be passed over. *)
Fixpoint replace_aux (old new : text) (skip : nat) (s : text) : text :=
  match s with
  | [] => []
  | c :: t =>
      match skip with
      | S k => replace_aux old new k t
      | O => if starts_with old s
             then new ++ replace_aux old new (length old - 1) t
             else c :: replace_aux old new 0 t
      end
  end.

Definition replace (old new s : text) : text :=
  match old with
  | [] => new ++ flat_map (fun c => c :: new) s
  | _ :: _ => replace_aux old new 0 s
  end.

Fixpoint lstrip (s : text) : text :=
  match s with
  | c :: t => if is_space c then lstrip t else s
  | [] => []
  end.

(** [s.rstrip()]. *)
Definition rstrip (s : text) : text := rev (lstrip (rev s)).

(** [str(n)] of a non-negative [int]. *)
Definition decimal (n : nat) : text :=
  str (NilZero.string_of_uint (Nat.to_uint n)).

(** ** Exceptions *)

(** [TemplateError]: the [re.error] (or [IndexError]) that compiling a
    replacement template raises; [AttributeError]: [None.group]. *)
Inductive pyexn := TemplateError | AttributeError.

Inductive res (A : Type) :=
| Ok (a : A)
| Raise (e : pyexn).
Arguments Raise {A} e.

Definition bind {A B} (x : res A) (f : A -> res B) : res B :=
  match x with Ok a => f a | Raise e => Raise e end.

(** ** Regular expressions

    The fragment of [re] that the editor's patterns use.  Repetition is
    only ever applied to a character class. *)

Inductive re :=
| Eps
| Chr (p : char -> bool)                 (* a literal, a class or [.] *)
| Seq (a b : re)
| Alt (a b : re)                         (* [a|b] *)
| Rep (greedy : bool) (p : char -> bool) (min : nat)
                                         (* [p*], [p+], [p*?], [p+?] *)
| Bol                                    (* [^] under [re.MULTILINE] *)
| Eol                                    (* [$] under [re.MULTILINE] *)
| EndZ                                   (* [\Z] *)
| Look (a : re)                          (* [(?=a)] *)
| Grp (n : nat) (a : re).                (* the capturing group number n *)

(** [re.escape(t)] used as a pattern: the literal [t]. *)
Definition lits (t : text) : re :=
  fold_right (fun c r => Seq (Chr (is_char c)) r) Eps t.

Definition caps := list (nat * text).

(** One way to match at a position: the text consumed, the text left, and
    the groups set on the way. *)
Definition hit := (text * text * caps)%type.

(** The character before the position reached after consuming [c]. *)
Definition prev_after (prev : option char) (c : text) : option char :=
  fold_left (fun _ x => Some x) c prev.

(** All the ways to take a run of characters of class [p] off the front of
    [s], shortest first. *)
Fixpoint runs (p : char -> bool) (s : text) : list (text * text) :=
  ([], s) ::
  match s with
  | c :: t => if p c then map (fun a => (c :: fst a, snd a)) (runs p t) else []
  | [] => []
  end.

(** [m r prev s]: the matches of [r] at the front of [s], where [prev] is
    the character before [s] in the subject ([None] at its start), in the
    backtracking order of the engine: the first element is the match that
    [re] reports. *)
Fixpoint m (r : re) (prev : option char) (s : text) : list hit :=
  match r with
  | Eps => [([], s, [])]
  | Chr p =>
      match s with
      | c :: t => if p c then [([c], t, [])] else []
      | [] => []
      end
  | Seq a b =>
      flat_map (fun h1 : hit =>
        let '(c1, s1, k1) := h1 in
        map (fun h2 : hit =>
               let '(c2, s2, k2) := h2 in (c1 ++ c2, s2, k1 ++ k2))
            (m b (prev_after prev c1) s1))
        (m a prev s)
  | Alt a b => m a prev s ++ m b prev s
  | Rep greedy p min =>
      let l := filter (fun a => min <=? length (fst a)) (runs p s) in
      map (fun a => (fst a, snd a, [])) (if greedy then rev l else l)
  | Bol =>
      match prev with
      | None => [([], s, [])]
      | Some c => if (c =? NL)%N then [([], s, [])] else []
      end
  | Eol =>
      match s with
      | [] => [([], s, [])]
      | c :: _ => if (c =? NL)%N then [([], s, [])] else []
      end
  | EndZ => match s with [] => [([], s, [])] | _ :: _ => [] end
  | Look a => match m a prev s with [] => [] | _ :: _ => [([], s, [])] end
  | Grp n a =>
      map (fun h : hit => let '(c, s', k) := h in (c, s', k ++ [(n, c)]))
          (m a prev s)
  end.

(** [match.group(n)]; a group set twice keeps its last value, a group that
    did not take part is the empty string in a template. *)
Definition group (n : nat) (k : caps) : text :=
  match find (fun e => fst e =? n) (rev k) with
  | Some e => snd e
  | None => []
  end.

(** A match object: the text before the match, [group(0)], the text after
    it, and the groups.  [before] is [subject[:start]] and [after] is
    [subject[end:]]. *)
Record match_obj := MatchObj {
  before : text;
  whole : text;
  after : text;
  groups : caps
}.

(** [re.search]: the first position, from the left, at which the pattern
    matches. *)
Fixpoint search_from (r : re) (prev : option char) (pre_rev s : text)
  : option match_obj :=
  match m r prev s with
  | (c, s', k) :: _ => Some (MatchObj (rev pre_rev) c s' k)
  | [] =>
      match s with
      | [] => None
      | x :: t => search_from r (Some x) (x :: pre_rev) t
      end
  end.

Definition search (r : re) (s : text) : option match_obj :=
  search_from r None [] s.

(** The first match at the current position. *)
Definition match_here (r : re) (prev : option char) (s : text)
  : option (text * caps) :=
  match m r prev s with
  | (c, _, k) :: _ => Some (c, k)
  | [] => None
  end.

(** [re.sub(r, repl, s)] for a callable [repl]: every match, leftmost first
    and not overlapping, is replaced; an empty match is replaced and the
    scan moves on by one character.  [skip] counts the characters of the
    current match still to be passed over. *)
Fixpoint sub_aux (r : re) (repl : text -> caps -> text) (skip : nat)
    (prev : option char) (s : text) : text :=
  match skip with
  | S k =>
      match s with
      | [] => []
      | x :: t => sub_aux r repl k (Some x) t
      end
  | O =>
      match match_here r prev s with
      | Some (c, k) =>
          repl c k ++
          match s with
          | [] => []
          | x :: t =>
              match c with
              | [] => x :: sub_aux r repl 0 (Some x) t
              | _ :: c' => sub_aux r repl (length c') (Some x) t
              end
          end
      | None =>
          match s with
          | [] => []
          | x :: t => x :: sub_aux r repl 0 (Some x) t
          end
      end
  end.

Definition sub (r : re) (repl : text -> caps -> text) (s : text) : text :=
  sub_aux r repl 0 None s.

(** [len(re.findall(r, s))]. *)
Fixpoint count_aux (r : re) (skip : nat) (prev : option char) (s : text)
  : nat :=
  match skip with
  | S k =>
      match s with
      | [] => 0
      | x :: t => count_aux r k (Some x) t
      end
  | O =>
      match match_here r prev s with
      | Some (c, _) =>
          S match s with
            | [] => 0
            | x :: t =>
                match c with
                | [] => count_aux r 0 (Some x) t
                | _ :: c' => count_aux r (length c') (Some x) t
                end
            end
      | None =>
          match s with
          | [] => 0
          | x :: t => count_aux r 0 (Some x) t
          end
      end
  end.

Definition findall_len (r : re) (s : text) : nat := count_aux r 0 None s.

(** ** Replacement templates

    [re.sub] with a [str] replacement compiles it as a template
    ([re._parser.parse_template]) before any match is replaced. *)

Inductive titem :=
| TLit (c : char)
| TGrp (n : nat).

Definition is_octdigit (c : char) : bool := ((48 <=? c) && (c <=? 55))%N.
Definition is_asciidigit (c : char) : bool := ((48 <=? c) && (c <=? 57))%N.
Definition is_asciiletter (c : char) : bool :=
  ((65 <=? c) && (c <=? 90) || (97 <=? c) && (c <=? 122))%N.
Definition digit_val (c : char) : nat := N.to_nat (c - 48).

(** [int(name)] of ASCII digits, in base [b]. *)
Definition int_of (b : nat) (ds : text) : nat :=
  fold_left (fun acc d => acc * b + digit_val d) ds 0.

(** The text up to the first [c], and the text after it. *)
Fixpoint until (c : char) (s : text) : option (text * text) :=
  match s with
  | [] => None
  | x :: t =>
      if (x =? c)%N then Some ([], t)
      else match until c t with
           | Some (a, b) => Some (x :: a, b)
           | None => None
           end
  end.

(** *** [int] of a group name

    A group name that is no identifier is read with [int(name)]: white
    space around, an optional sign, then decimal digits of any script with
    single underscores between them; at most 4300 digits (the default limit
    of the interpreter on the digits of an integer string). *)

(** The white space that [int] skips: [str.isspace] without the four
    ASCII separators U+001C to U+001F. *)
Definition is_intspace (c : char) : bool :=
  is_space c && negb ((28 <=? c) && (c <=? 31))%N.

(** The value of a decimal digit: its place in its block of ten. *)
Definition decimal_val (c : char) : option nat :=
  match find (fun r => (fst r <=? c) && (c <=? snd r))%N decimal_ranges with
  | Some r => Some (N.to_nat ((c - fst r) mod 10))
  | None => None
  end.

(** The digits of an integer string: the value read so far, the number of
    digits read, whether the last character was a digit; the result is the
    value and the text after the digits. *)
Fixpoint int_digits (acc ndigits : nat) (after_digit : bool) (s : text)
  : option (nat * text) :=
  match s with
  | [] => if after_digit && (ndigits <=? 4300) then Some (acc, []) else None
  | c :: t =>
      match decimal_val c with
      | Some v => int_digits (10 * acc + v) (S ndigits) true t
      | None =>
          if (c =? 95)%N then
            if after_digit then int_digits acc ndigits false t else None
          else if after_digit && (ndigits <=? 4300) then Some (acc, s)
          else None
      end
  end.

Fixpoint skip_intspace (s : text) : text :=
  match s with
  | c :: t => if is_intspace c then skip_intspace t else s
  | [] => []
  end.

(** [int(name)] when it is not negative, as [parse_template] uses it;
    [None] stands for [ValueError] and for a negative number. *)
Definition group_index (name : text) : option nat :=
  let s1 := skip_intspace name in
  let '(neg, s2) :=
    match s1 with
    | c :: t =>
        if (c =? 43)%N then (false, t)
        else if (c =? 45)%N then (true, t)
        else (false, s1)
    | [] => (false, s1)
    end in
  match int_digits 0 0 false s2 with
  | Some (v, rest) =>
      if forallb is_intspace rest
      then if neg && (0 <? v) then None else Some v
      else None
  | None => None
  end.

(** The single-character escapes of a template. *)
Definition escape_code (c : char) : option char :=
  if (c =? 97)%N then Some 7%N          (* \a *)
  else if (c =? 98)%N then Some 8%N     (* \b *)
  else if (c =? 102)%N then Some 12%N   (* \f *)
  else if (c =? 110)%N then Some 10%N   (* \n *)
  else if (c =? 114)%N then Some 13%N   (* \r *)
  else if (c =? 116)%N then Some 9%N    (* \t *)
  else if (c =? 118)%N then Some 11%N   (* \v *)
  else if (c =? 92)%N then Some 92%N    (* \\ *)
  else None.

(** [parse_template]: [None] when the template is rejected.  [ngroups] is
    the number of groups of the pattern, none of them named, so that a group
    name in [\g<...>] that is an identifier is unknown; an identifier starts
    with a letter or an underscore, which [int] rejects as well, and every
    other name is read with [int] ([group_index]). *)
Fixpoint parse_template (fuel ngroups : nat) (s : text)
  : option (list titem) :=
  let addgroup (index : nat) (t : text) :=
    match fuel with
    | O => None
    | S f =>
        if ngroups <? index then None
        else option_map (cons (TGrp index)) (parse_template f ngroups t)
    end in
  let lappend (l : text) (t : text) :=
    match fuel with
    | O => None
    | S f => option_map (app (map TLit l)) (parse_template f ngroups t)
    end in
  match s with
  | [] => Some []
  | c :: t =>
      if negb (c =? BACKSLASH)%N then lappend [c] t
      else
        match t with
        | [] => None                                 (* bad escape (end) *)
        | e :: t1 =>
            if (e =? 103)%N then                     (* \g<name> *)
              match t1 with
              | lt :: t2 =>
                  if (lt =? 60)%N then
                    match until 62%N t2 with
                    | Some (name, t3) =>
                        match name with
                        | [] => None                 (* missing group name *)
                        | _ :: _ =>
                            match group_index name with
                            | Some index => addgroup index t3
                            | None => None           (* unknown or bad name *)
                            end
                        end
                    | None => None                   (* unterminated name *)
                    end
                  else None                          (* missing < *)
              | [] => None
              end
            else if (e =? 48)%N then                 (* \0, \0d, \0dd *)
              match t1 with
              | d1 :: t2 =>
                  if is_octdigit d1 then
                    match t2 with
                    | d2 :: t3 =>
                        if is_octdigit d2
                        then lappend [N.of_nat (int_of 8 [d1; d2] mod 256)] t3
                        else lappend [N.of_nat (int_of 8 [d1] mod 256)] t2
                    | [] => lappend [N.of_nat (int_of 8 [d1] mod 256)] t2
                    end
                  else lappend [0%N] t1
              | [] => lappend [0%N] t1
              end
            else if is_asciidigit e then             (* \d, \dd, \ddd *)
              match t1 with
              | d1 :: t2 =>
                  if is_asciidigit d1 then
                    match t2 with
                    | d2 :: t3 =>
                        if is_octdigit e && is_octdigit d1 && is_octdigit d2
                        then
                          if 255 <? int_of 8 [e; d1; d2] then None
                          else lappend [N.of_nat (int_of 8 [e; d1; d2])] t3
                        else addgroup (int_of 10 [e; d1]) t2
                    | [] => addgroup (int_of 10 [e; d1]) t2
                    end
                  else addgroup (int_of 10 [e]) t1
              | [] => addgroup (int_of 10 [e]) t1
              end
            else
              match escape_code e with
              | Some x => lappend [x] t1
              | None =>
                  if is_asciiletter e then None      (* bad escape *)
                  else lappend [c; e] t1
              end
        end
  end.

(** [match.expand]. *)
Definition expand (items : list titem) (c : text) (k : caps) : text :=
  flat_map (fun i =>
              match i with
              | TLit x => [x]
              | TGrp 0 => c
              | TGrp n => group n k
              end) items.

(** [re.sub(r, template, s)] for a [str] template. *)
Definition sub_template (r : re) (ngroups : nat) (template s : text)
  : res text :=
  match parse_template (length template) ngroups template with
  | None => Raise TemplateError
  | Some items => Ok (sub r (expand items) s)
  end.

(** ** The editor *)

Definition PROGRESS_START : text := str "<!-- PROGRESS:START -->".
Definition PROGRESS_END : text := str "<!-- PROGRESS:END -->".

Definition PLACEHOLDER : text := str "(none yet)".

(** The pattern of [extract_progress_block] and [replace_progress_block]:
    the escaped start marker, group 1 [.*?] under [re.DOTALL], the escaped
    end marker. *)
Definition progress_re : re :=
  Seq (lits PROGRESS_START)
      (Seq (Grp 1 (Rep false any_char 0)) (lits PROGRESS_END)).

(** The lookahead that ends a section: a heading [^## ] under
    [re.MULTILINE], or [\Z]. *)
Definition section_end : re :=
  Look (Alt (Seq Bol (lits (str "## "))) EndZ).

(** The pattern of [upsert_category_block], under [re.MULTILINE] and
    [re.DOTALL]: [^## ], the escaped title, [\s*], group 1 [.+?], the
    lookahead. *)
Definition category_re (category_title : text) : re :=
  Seq Bol
      (Seq (lits (str "## " ++ category_title))
           (Seq (Rep true is_space 0)
                (Seq (Grp 1 (Rep false any_char 1)) section_end))).

(** The pattern of [add_problem_checkbox], under [re.MULTILINE] and
    [re.DOTALL]: group 1 is [^## ], the escaped title and [\s*]; group 2 is
    [.+?]; then the lookahead. *)
Definition section_re (category_title : text) : re :=
  Seq (Grp 1 (Seq Bol
                  (Seq (lits (str "## " ++ category_title))
                       (Rep true is_space 0))))
      (Seq (Grp 2 (Rep false any_char 1)) section_end).

(** The pattern of a not-done entry line of [problem_name], under
    [re.MULTILINE]: [^], the literal [- [ ] [name](], one or more
    characters other than the closing parenthesis, the closing parenthesis,
    a space, an em dash, a space, a backquote, one or more characters
    other than a backquote, a backquote, [$]. *)
Definition entry_re (problem_name : text) : re :=
  Seq Bol
      (Seq (lits (str "- [ ] [" ++ problem_name ++ str "]("))
           (Seq (Rep true (not_char 41%N) 1)
                (Seq (lits (str ") " ++ EM_DASH :: str " `"))
                     (Seq (Rep true (not_char 96%N) 1)
                          (Seq (lits (str "`")) Eol))))).

(** A checkbox at the start of a line, [- [ ]] or [- [x]]. *)
Definition checkbox_re : re :=
  Seq Bol
      (Seq (lits (str "- ["))
           (Seq (Alt (lits (str " ")) (lits (str "x"))) (lits (str "]")))).

(** A ticked checkbox at the start of a line, [- [x]]. *)
Definition done_re : re := Seq Bol (lits (str "- [x]")).

(** The pattern of the summary line, under [re.MULTILINE]: [^]; group 1 is
    [## Progress Summary], [\s*], a newline and [- Total: ]; then [\d+],
    [ done / ], [\d+], [ planned] and [$]. *)
Definition summary_re : re :=
  Seq Bol
      (Seq (Grp 1 (Seq (lits (str "## Progress Summary"))
                       (Seq (Rep true is_space 0)
                            (lits (NL :: str "- Total: ")))))
           (Seq (Rep true is_decimal 1)
                (Seq (lits (str " done / "))
                     (Seq (Rep true is_decimal 1)
                          (Seq (lits (str " planned")) Eol))))).

Definition new_section (category_title : text) : text :=
  [NL; NL] ++ str "## " ++ category_title ++ [NL]
    ++ PLACEHOLDER ++ [NL; NL].

Definition upsert_category_block (progress_block category_title : text)
  : text :=
  let pattern := category_re category_title in
  match search pattern progress_block with
  | Some _ => progress_block
  | None => rstrip progress_block ++ new_section category_title
  end.

(** The entry line: [- ], the checkbox, [ [name](link) ], an em dash and
    the path between backquotes. *)
Definition entry_line (problem_name link path_str : text) (done : bool)
  : text :=
  let checkbox := if done then str "[x]" else str "[ ]" in
  str "- " ++ checkbox ++ str " [" ++ problem_name ++ str "](" ++ link
    ++ str ") " ++ EM_DASH :: str " `" ++ path_str ++ str "`".

(** The new body of the section, lines 79 to 96 of the source. *)
Definition new_section_body (section_body problem_name link path_str : text)
    (done : bool) : text :=
  let line := entry_line problem_name link path_str done in
  if contains PLACEHOLDER section_body then
    replace PLACEHOLDER line section_body
  else
    match search (lits (str "[" ++ problem_name ++ str "](")) section_body with
    | Some _ =>
        if done then
          sub (entry_re problem_name)
              (fun m0 _ => replace (str "[ ]") (str "[x]") m0)
              section_body
        else section_body
    | None => rstrip section_body ++ [NL] ++ line ++ [NL]
    end.

Definition add_problem_checkbox
    (progress_block category_title problem_name link path_str : text)
    (done : bool) : res text :=
  let pattern := section_re category_title in
  let '(progress_block, match_) :=
    match search pattern progress_block with
    | Some mt => (progress_block, Some mt)
    | None =>
        let progress_block :=
          upsert_category_block progress_block category_title in
        (progress_block, search pattern progress_block)
    end in
  match match_ with
  | None => Raise AttributeError
  | Some mt =>
      let section_start := group 1 (groups mt) in
      let section_body := group 2 (groups mt) in
      let new_body :=
        new_section_body section_body problem_name link path_str done in
      Ok (before mt ++ section_start ++ new_body ++ after mt)
  end.

Definition default_block : text :=
  PROGRESS_START ++ [NL] ++ str "## Arrays" ++ [NL] ++ PLACEHOLDER
    ++ [NL; NL] ++ PROGRESS_END.

Definition extract_progress_block (readme : text) : text :=
  match search progress_re readme with
  | None => default_block
  | Some mt => group 1 (groups mt)
  end.

Definition update_summary_counts (readme : text) : res text :=
  let progress := extract_progress_block readme in
  let total := findall_len checkbox_re progress in
  let done := findall_len done_re progress in
  sub_template summary_re 1
    (str "\g<1>" ++ decimal done ++ str " done / 150 planned") readme.

Definition replace_progress_block (readme new_block : text) : res text :=
  match search progress_re readme with
  | Some _ =>
      sub_template progress_re 1
        (PROGRESS_START ++ new_block ++ PROGRESS_END) readme
  | None =>
      Ok (rstrip readme ++ [NL; NL] ++ PROGRESS_START ++ new_block
            ++ PROGRESS_END ++ [NL])
  end.

(** ** Specification-side notions

    These are not taken from the source: they say, without regular
    expressions, what the claims talk about. *)

(** The text before and after the first occurrence of [p] in [s]. *)
Fixpoint find_first (p s : text) : option (text * text) :=
  if starts_with p s then Some ([], skipn (length p) s)
  else match s with
       | [] => None
       | c :: t =>
           match find_first p t with
           | Some (a, b) => Some (c :: a, b)
           | None => None
           end
       end.

(** The text strictly between the first start marker and the first end
    marker after it, if there are such markers. *)
Definition between_markers (readme : text) : option text :=
  match find_first PROGRESS_START readme with
  | Some (_, rest) =>
      match find_first PROGRESS_END rest with
      | Some (r, _) => Some r
      | None => None
      end
  | None => None
  end.

(** The lines of a text: the pieces between its newlines. *)
Fixpoint lines (s : text) : list text :=
  match s with
  | [] => [[]]
  | c :: t =>
      if (c =? NL)%N then [] :: lines t
      else match lines t with
           | l :: ls => (c :: l) :: ls
           | [] => [[c]]
           end
  end.

Definition DONE_BOX : text := str "- [x]".

(** The number of lines that begin with [- [x]]. *)
Definition count_done_lines (s : text) : nat :=
  length (filter (starts_with DONE_BOX) (lines s)).

(** The number that a text of the digits [0] to [9] writes in base ten;
    [acc] is the number written by the digits already read. *)
Fixpoint number_acc (acc : nat) (s : text) : option nat :=
  match s with
  | [] => Some acc
  | c :: t =>
      if ((48 <=? c) && (c <=? 57))%N
      then number_acc (10 * acc + N.to_nat (c - 48)) t
      else None
  end.

(** The number that a text reads as: it has to be one ASCII digit or
    more. *)
Definition number_of (s : text) : option nat :=
  match s with
  | [] => None
  | _ :: _ => number_acc 0 s
  end.

(** [at_bol prev]: the position after [prev] is the start of a line. *)
Definition at_bol (prev : option char) : bool :=
  match prev with
  | None => true
  | Some c => (c =? NL)%N
  end.

(** [at_eol s]: the position in front of [s] is the end of a line. *)
Definition at_eol (s : text) : bool :=
  match s with
  | [] => true
  | c :: _ => (c =? NL)%N
  end.

(** The matches of [.*?] followed by the literal [e] that a given run of
    [.*?] leads to. *)
Definition until_hits (e : text) (ab : text * text) : list hit :=
  if starts_with e (snd ab)
  then [(fst ab ++ e, skipn (length e) (snd ab), [(1, fst ab)])]
  else [].

(** One more character in front of a match and of its groups. *)
Definition push (c : char) (h : hit) : hit :=
  let '(c0, s0, k0) := h in
  (c :: c0, s0, map (fun ng => (fst ng, c :: snd ng)) k0).

(** The heading (with the whitespace after it) and the body of the section
    that the section pattern finds for a title. *)
Definition section_of (title block : text) : option (text * text) :=
  match search (section_re title) block with
  | Some mt => Some (group 1 (groups mt), group 2 (groups mt))
  | None => None
  end.

(** The block in which [add_problem_checkbox] edits a section: its argument
    when the section pattern matches there, else what
    [upsert_category_block] makes of it. *)
Definition searched_block (block title : text) : text :=
  match search (section_re title) block with
  | Some _ => block
  | None => rstrip block ++ new_section title
  end.

(** ** Sample documents *)

(** A README with one summary line whose planned count is 200. *)
Definition readme_planned_200 : text :=
  str "## Progress Summary" ++ [NL] ++ str "- Total: 0 done / 200 planned"
    ++ [NL].

(** A block that ends in two blank lines. *)
Definition block_blank_lines : text :=
  str "## Arrays" ++ [NL] ++ str "x" ++ [NL; NL; NL].

(** The default [## Arrays] section. *)
Definition block_arrays : text :=
  str "## Arrays" ++ [NL] ++ str "(none yet)" ++ [NL; NL].

(** A block whose only section is [## Graphs]. *)
Definition block_graphs : text :=
  [NL] ++ str "## Graphs" ++ [NL] ++ str "(none yet)" ++ [NL; NL].

(** A block with a not-done entry whose link has a closing parenthesis, as
    [add_problem_checkbox] writes it. *)
Definition block_heap : text :=
  str "## Heap" ++ [NL] ++ str "- [ ] [Heap](http://w/Heap_(ds)) "
    ++ [EM_DASH] ++ str " `heap/heap.py`" ++ [NL; NL].

(** A README that is one marked region. *)
Definition readme_old : text :=
  PROGRESS_START ++ str "old" ++ PROGRESS_END.

(** ** The summary line *)

(** The text of a summary line: the heading, the whitespace after it, and
    the line [- Total: d done / p planned]. *)
Definition summary_line (ws d p : text) : text :=
  str "## Progress Summary" ++ ws ++ NL :: str "- Total: " ++ d
    ++ str " done / " ++ p ++ str " planned".

(** [summary_rewrite n s s']: [s'] is [s] with the two numbers of some of its
    summary lines replaced, the first by [n], the second by 150, and
    nothing else changed. *)
Inductive summary_rewrite (n : text) : text -> text -> Prop :=
| sr_nil : summary_rewrite n [] []
| sr_keep c s s' :
    summary_rewrite n s s' -> summary_rewrite n (c :: s) (c :: s')
| sr_line ws d p s s' :
    forallb is_space ws = true ->
    forallb is_decimal d = true -> d <> [] ->
    forallb is_decimal p = true -> p <> [] ->
    summary_rewrite n s s' ->
    summary_rewrite n (summary_line ws d p ++ s)
      (summary_line ws n (str "150") ++ s').

(** [summary_at bol s]: a summary line starts at the front of [s], where
    [bol] tells whether [s] starts a line: the heading, whitespace, and the
    line [- Total: d done / p planned] with two numbers of one decimal digit
    or more, up to the end of a line. *)
Definition summary_at (bol : bool) (s : text) : Prop :=
  bol = true /\
  exists ws d p rest,
    s = summary_line ws d p ++ rest /\
    forallb is_space ws = true /\
    forallb is_decimal d = true /\ d <> [] /\
    forallb is_decimal p = true /\ p <> [] /\
    at_eol rest = true.

(** [summary_update n bol s s']: [s'] is [s] with, in every summary line
    met from left to right, the first number replaced by [n] and the second
    by 150, and nothing else changed.  A character is kept only where no
    summary line starts. *)
Inductive summary_update (n : text) : bool -> text -> text -> Prop :=
| su_nil bol : summary_update n bol [] []
| su_keep bol c s s' :
    ~ summary_at bol (c :: s) ->
    summary_update n (c =? NL)%N s s' ->
    summary_update n bol (c :: s) (c :: s')
| su_line ws d p s s' :
    forallb is_space ws = true ->
    forallb is_decimal d = true -> d <> [] ->
    forallb is_decimal p = true -> p <> [] ->
    at_eol s = true ->
    summary_update n false s s' ->
    summary_update n true (summary_line ws d p ++ s)
      (summary_line ws n (str "150") ++ s').

(** The number that [update_summary_counts] writes: the number of lines
    that begin with [- [x]] in the text between the markers, and 0 for a
    document without markers. *)
Definition done_count (readme : text) : nat :=
  match between_markers readme with
  | Some r => count_done_lines r
  | None => 0
  end.

(** A text without a backslash: as a template it stands for itself. *)
Definition no_backslash (t : text) : bool :=
  forallb (fun c => negb (c =? BACKSLASH)%N) t.

(** The number of positions of [s] that start a line and where [- [x]]
    follows; [bol] tells whether [s] itself starts a line. *)
Fixpoint cnt (bol : bool) (s : text) : nat :=
  (if bol && starts_with DONE_BOX s then 1 else 0)
  + match s with
    | [] => 0
    | c :: t => cnt (c =? NL)%N t
    end.

(** A README with a summary line and one done entry between the markers. *)
Definition readme_one_done : text :=
  str "## Progress Summary" ++ [NL] ++ str "- Total: 0 done / 150 planned"
    ++ [NL; NL] ++ PROGRESS_START ++ [NL] ++ str "## Arrays" ++ [NL]
    ++ str "- [x] [Two Sum](http://x) " ++ [EM_DASH]
    ++ str " `arrays/two_sum.py`" ++ [NL; NL] ++ PROGRESS_END ++ [NL].

Definition region_one_done : text :=
  [NL] ++ str "## Arrays" ++ [NL]
    ++ str "- [x] [Two Sum](http://x) " ++ [EM_DASH]
    ++ str " `arrays/two_sum.py`" ++ [NL; NL].

(** [no_cross y]: no [- [x]] that starts before [y] can end inside [y]. *)
Definition no_cross (y : text) : bool :=
  negb (starts_with (str " [x]") y) && negb (starts_with (str "[x]") y)
  && negb (starts_with (str "x]") y) && negb (starts_with (str "]") y).

(** Whether the position after [x] starts a line, when [x] itself starts
    at a position for which [b] tells it. *)
Fixpoint bol_after (b : bool) (x : text) : bool :=
  match x with
  | [] => b
  | c :: t => bol_after (c =? NL)%N t
  end.

(** [add_problem_checkbox] with [done = false], for one category and
    name, called once for each link and path label of [calls]. *)
Fixpoint add_all (category_title problem_name : text)
    (calls : list (text * text)) (progress_block : text) : res text :=
  match calls with
  | [] => Ok progress_block
  | (link, path_str) :: rest =>
      bind (add_problem_checkbox progress_block category_title
              problem_name link path_str false)
           (add_all category_title problem_name rest)
  end.

(** A block with a done entry for [Two Sum] under [## Arrays]. *)
Definition block_two_sum_done : text :=
  str "## Arrays" ++ [NL] ++ str "- [x] [Two Sum](http://x) "
    ++ [EM_DASH] ++ str " `arrays/two_sum.py`" ++ [NL; NL].

(** [digit_edit s s']: [s'] is [s] with some non-empty runs of decimal
    digits replaced by other such runs. *)
Inductive digit_edit : text -> text -> Prop :=
| de_nil : digit_edit [] []
| de_keep c s s' : digit_edit s s' -> digit_edit (c :: s) (c :: s')
| de_run d d' s s' :
    forallb is_decimal d = true -> d <> [] ->
    forallb is_decimal d' = true -> d' <> [] ->
    digit_edit s s' -> digit_edit (d ++ s) (d' ++ s').

(** A text without decimal digits. *)
Definition no_digit (p : text) : bool :=
  forallb (fun c => negb (is_decimal c)) p.

(** ** The README update of [main]

    Lines 168 to 183 of the source, without the file access: the block is
    taken out of the README, the category and the entry are put in, the
    block is put back and the summary is recomputed.  [category_title] is
    the title that [main] derives from the category argument. *)
Definition update_readme
    (readme category_title problem_name problem_link path_str : text)
    (mark_done : bool) : res text :=
  let progress_block := extract_progress_block readme in
  let progress_block := upsert_category_block progress_block category_title in
  bind (add_problem_checkbox progress_block category_title problem_name
          problem_link path_str mark_done)
       (fun progress_block =>
          bind (replace_progress_block readme progress_block)
               update_summary_counts).

(** The README that [ensure_readme] writes when there is none; U+2013 is
    the dash of its title. *)
Definition default_readme : text :=
  str "# NeetCode 150 " ++ [8211%N] ++ str " My Progress" ++ [NL; NL]
    ++ str "Goal: 5 problems/week" ++ [NL; NL]
    ++ str "## Progress Summary" ++ [NL]
    ++ str "- Total: 0 done / 150 planned" ++ [NL; NL]
    ++ str "---" ++ [NL; NL]
    ++ PROGRESS_START ++ [NL]
    ++ str "## Arrays" ++ [NL] ++ str "(none yet)" ++ [NL; NL]
    ++ str "## Two Pointers" ++ [NL] ++ str "(none yet)" ++ [NL; NL]
    ++ str "## Sliding Window" ++ [NL] ++ str "(none yet)" ++ [NL; NL]
    ++ str "## Stack" ++ [NL] ++ str "(none yet)" ++ [NL; NL]
    ++ str "## Binary Search" ++ [NL] ++ str "(none yet)" ++ [NL; NL]
    ++ PROGRESS_END ++ [NL].

(** The head of [default_readme] with a given count of done problems. *)
Definition readme_head (done : text) : text :=
  str "# NeetCode 150 " ++ [8211%N] ++ str " My Progress" ++ [NL; NL]
    ++ str "Goal: 5 problems/week" ++ [NL; NL]
    ++ str "## Progress Summary" ++ [NL]
    ++ str "- Total: " ++ done ++ str " done / 150 planned" ++ [NL; NL]
    ++ str "---" ++ [NL; NL].

(** The sections of [default_readme] after [## Arrays]. *)
Definition other_sections : text :=
  str "## Two Pointers" ++ [NL] ++ str "(none yet)" ++ [NL; NL]
    ++ str "## Sliding Window" ++ [NL] ++ str "(none yet)" ++ [NL; NL]
    ++ str "## Stack" ++ [NL] ++ str "(none yet)" ++ [NL; NL]
    ++ str "## Binary Search" ++ [NL] ++ str "(none yet)" ++ [NL; NL].

(** [tick_edit s s']: [s'] is [s] with some of its empty checkboxes [[ ]]
    ticked to [[x]], and nothing else changed. *)
Inductive tick_edit : text -> text -> Prop :=
| te_nil : tick_edit [] []
| te_keep c s s' : tick_edit s s' -> tick_edit (c :: s) (c :: s')
| te_tick s s' :
    tick_edit s s' -> tick_edit (str "[ ]" ++ s) (str "[x]" ++ s').

(** [tick_safe q]: ticking a checkbox cannot touch an occurrence of [q];
    that is, [[ ]] occurs neither in [q] nor at its end with the closing
    bracket still to come. *)
Definition tick_safe (q : text) : bool :=
  negb (contains (str "[ ]") (q ++ str "]")).

(** ** The file name of a problem *)

(** [s.strip()]. *)
Definition strip (s : text) : text := lstrip (rstrip s).

Section Slugify.

(** [str.lower], the lower-casing of the Unicode database, is not spelled
    out: [slugify] is modelled for any such mapping. *)
Variable lower : text -> text.

Definition slugify (name : text) : text :=
  replace (str "'") []
    (replace (str "-") (str "_")
       (replace (str " ") (str "_") (lower (strip name)))).

End Slugify.

(** [without x s]: the character [x] does not occur in [s]. *)
Definition without (x : char) (s : text) : bool :=
  forallb (fun c => negb (c =? x)%N) s.

(** ** Entry lines *)

(** What an entry line has after its checkbox. *)
Definition entry_tail (name link path : text) : text :=
  str " [" ++ name ++ str "](" ++ link ++ str ") " ++ EM_DASH :: str " `"
    ++ path ++ str "`".

(** A block with a done entry and, after it, a not-done one. *)
Definition block_two_entries : text :=
  str "## Arrays" ++ [NL]
    ++ entry_line (str "3Sum") (str "http://y") (str "arrays/3sum.py") true
    ++ [NL]
    ++ entry_line (str "Two Sum") (str "http://x") (str "arrays/two_sum.py")
         false
    ++ [NL; NL].

(** A README with two marked regions. *)
Definition readme_two_regions : text :=
  PROGRESS_START ++ str "one" ++ PROGRESS_END ++ [NL]
    ++ PROGRESS_START ++ str "two" ++ PROGRESS_END ++ [NL].



(** A block with an empty section [## A] in front of a section [## B]. *)
Definition block_empty_section : text :=
  str "## A" ++ [NL; NL] ++ str "## B" ++ [NL] ++ str "(none yet)" ++ [NL].

(** * Proofs *)

(** ** Text *)

Lemma starts_with_app (p s : text) : starts_with p (p ++ s) = true.
Proof.
  induction p as [|a p IH]; simpl; [reflexivity|].
  now rewrite N.eqb_refl, IH.
Qed.

Lemma starts_with_split (p s : text) :
  starts_with p s = true -> s = p ++ skipn (length p) s.
Proof.
  revert s; induction p as [|a p IH]; intros [|b s] H; simpl in *;
    try reflexivity; try discriminate.
  apply andb_prop in H as [E H]. apply N.eqb_eq in E. subst b.
  f_equal. now apply IH.
Qed.

Lemma starts_with_iff (p s : text) :
  starts_with p s = true <-> exists t, s = p ++ t.
Proof.
  split.
  - intros H. eexists. now apply starts_with_split.
  - intros [t ->]. apply starts_with_app.
Qed.

Lemma skipn_length_app (p s : text) : skipn (length p) (p ++ s) = s.
Proof. induction p; simpl; auto. Qed.

Lemma prev_after_app (prev : option char) (a b : text) :
  prev_after prev (a ++ b) = prev_after (prev_after prev a) b.
Proof. unfold prev_after. apply fold_left_app. Qed.

Lemma prev_after_cons (prev : option char) (x : char) (a : text) :
  prev_after prev (x :: a) = prev_after (Some x) a.
Proof. reflexivity. Qed.

Lemma prev_after_last (prev : option char) (a : text) (x : char) :
  prev_after prev (a ++ [x]) = Some x.
Proof. now rewrite prev_after_app. Qed.

(** ** The matcher *)

Lemma runs_sound (p : char -> bool) (s a b : text) :
  In (a, b) (runs p s) -> s = a ++ b /\ forallb p a = true.
Proof.
  revert a b; induction s as [|c t IH]; intros a b H; simpl in H.
  - destruct H as [H|[]]. inversion H. now subst.
  - destruct H as [H|H].
    + inversion H. now subst.
    + destruct (p c) eqn:E; [|contradiction].
      apply in_map_iff in H as [[a' b'] [H1 H2]]. simpl in H1.
      inversion H1; subst. apply IH in H2 as [-> H2]. simpl.
      now rewrite E, H2.
Qed.

(** A match consumes a prefix of the subject. *)
Lemma m_sound (r : re) :
  forall prev s c s' k, In (c, s', k) (m r prev s) -> s = c ++ s'.
Proof.
  induction r as [|p|a IHa b IHb|a IHa b IHb|g p n| | | |a IHa|n a IHa];
    intros prev s c s' k H; simpl in H.
  - destruct H as [H|[]]. now inversion H.
  - destruct s as [|x t]; [contradiction|].
    destruct (p x); [|contradiction].
    destruct H as [H|[]]. now inversion H.
  - apply in_flat_map in H as [[[c1 s1] k1] [H1 H2]].
    apply in_map_iff in H2 as [[[c2 s2] k2] [E H2]].
    inversion E; subst. apply IHa in H1. apply IHb in H2. subst.
    now rewrite app_assoc.
  - apply in_app_or in H as [H|H]; eauto.
  - apply in_map_iff in H as [[a b] [E H]]. simpl in E. inversion E; subst.
    destruct g.
    + apply in_rev, filter_In in H as [H _]. now apply runs_sound in H.
    + apply filter_In in H as [H _]. now apply runs_sound in H.
  - destruct prev as [x|].
    + destruct (x =? NL)%N; [|contradiction].
      destruct H as [H|[]]. now inversion H.
    + destruct H as [H|[]]. now inversion H.
  - destruct s as [|x t].
    + destruct H as [H|[]]. now inversion H.
    + destruct (x =? NL)%N; [|contradiction].
      destruct H as [H|[]]. now inversion H.
  - destruct s as [|x t]; [|contradiction].
    destruct H as [H|[]]. now inversion H.
  - destruct (m a prev s); [contradiction|].
    destruct H as [H|[]]. now inversion H.
  - apply in_map_iff in H as [[[c0 s0] k0] [E H]].
    inversion E; subst. eauto.
Qed.

Lemma m_lits (p : text) (prev : option char) (s : text) :
  m (lits p) prev s =
  if starts_with p s then [(p, skipn (length p) s, [])] else [].
Proof.
  revert prev s; induction p as [|a p IH]; intros prev s.
  - reflexivity.
  - change (lits (a :: p)) with (Seq (Chr (is_char a)) (lits p)).
    destruct s as [|x t]; [reflexivity|].
    simpl. unfold is_char. destruct (a =? x)%N eqn:E; [|reflexivity].
    apply N.eqb_eq in E. subst x. simpl. rewrite IH.
    destruct (starts_with p t); reflexivity.
Qed.

(** ** [re.search] *)

Lemma search_from_some (r : re) :
  forall s prev pre mt,
    search_from r prev pre s = Some mt ->
    exists a tl,
      s = a ++ whole mt ++ after mt /\
      before mt = rev pre ++ a /\
      m r (prev_after prev a) (whole mt ++ after mt)
        = (whole mt, after mt, groups mt) :: tl /\
      (forall a1 a2, a = a1 ++ a2 -> a2 <> [] ->
         m r (prev_after prev a1) (a2 ++ whole mt ++ after mt) = []).
Proof.
  induction s as [|x t IH]; intros prev pre mt H; simpl in H.
  - destruct (m r prev []) as [|[[c s'] k] tl] eqn:E; [discriminate|].
    inversion H; subst; clear H. simpl.
    assert (In (c, s', k) (m r prev [])) as Hin by (rewrite E; now left).
    apply m_sound in Hin. exists [], tl. simpl. rewrite <- Hin.
    split; [reflexivity|]. split; [now rewrite app_nil_r|].
    split; [exact E|]. intros a1 a2 Ha. now destruct a1, a2.
  - destruct (m r prev (x :: t)) as [|[[c s'] k] tl] eqn:E.
    + apply IH in H as (a & tl & H1 & H2 & H3 & H4).
      exists (x :: a), tl. simpl. split; [now rewrite H1 at 1|].
      split; [rewrite H2; simpl; now rewrite <- app_assoc|].
      split; [exact H3|].
      intros [|y a1] a2 Ha Hne; simpl in Ha.
      * subst a2. simpl. rewrite <- H1. exact E.
      * inversion Ha; subst. simpl. now apply H4.
    + inversion H; subst; clear H. simpl.
      assert (In (c, s', k) (m r prev (x :: t))) as Hin
        by (rewrite E; now left).
      apply m_sound in Hin. exists [], tl. simpl. rewrite <- Hin.
      split; [reflexivity|]. split; [now rewrite app_nil_r|].
      split; [exact E|]. intros a1 a2 Ha. now destruct a1, a2.
Qed.

Lemma search_from_none (r : re) :
  forall s prev pre,
    search_from r prev pre s = None ->
    forall a b, s = a ++ b -> m r (prev_after prev a) b = [].
Proof.
  induction s as [|x t IH]; intros prev pre H a b E; simpl in H.
  - destruct (m r prev []) as [|[[c s'] k] tl] eqn:E1; [|discriminate].
    destruct a; [|discriminate]. simpl in E. now subst b.
  - destruct (m r prev (x :: t)) as [|[[c s'] k] tl] eqn:E1; [|discriminate].
    destruct a as [|y a]; simpl in E.
    + now subst b.
    + inversion E; subst. simpl. eapply IH; eauto.
Qed.

(** A match object splits the subject. *)
Lemma search_split (r : re) (s : text) (mt : match_obj) :
  search r s = Some mt -> s = before mt ++ whole mt ++ after mt.
Proof.
  intros H. apply search_from_some in H as (a & tl & H1 & H2 & _).
  simpl in H2. now rewrite H2.
Qed.

Lemma search_found (r : re) (s a b : text) :
  s = a ++ b -> m r (prev_after None a) b <> [] -> search r s <> None.
Proof.
  intros E H N. apply H. eapply search_from_none; eauto.
Qed.

Lemma app_eq_app_le {A} (a a0 x y : list A) :
  a ++ x = a0 ++ y -> length a <= length a0 ->
  exists d, a0 = a ++ d /\ x = d ++ y.
Proof.
  revert a0; induction a as [|c a IH]; intros a0 E L.
  - exists a0. now split.
  - destruct a0 as [|c0 a0]; [simpl in L; lia|].
    simpl in E. inversion E; subst.
    destruct (IH a0 H1) as [d [-> ->]]; [simpl in L; lia|].
    exists d. now split.
Qed.

(** ** First occurrences *)

Lemma find_first_some (p : text) :
  forall s a b,
    find_first p s = Some (a, b) ->
    s = a ++ p ++ b /\
    (forall a' b', s = a' ++ p ++ b' -> length a <= length a').
Proof.
  induction s as [|c t IH]; intros a b H.
  - simpl in H. destruct (starts_with p []) eqn:E; [|discriminate].
    inversion H; subst. split.
    + simpl. now apply starts_with_split.
    + intros; simpl; lia.
  - cbn [find_first] in H. destruct (starts_with p (c :: t)) eqn:E.
    + inversion H; subst. split.
      * simpl. now apply starts_with_split.
      * intros; simpl; lia.
    + destruct (find_first p t) as [[a0 b0]|] eqn:F; [|discriminate].
      inversion H; subst. destruct (IH _ _ eq_refl) as [E1 E2]. split.
      * simpl. now rewrite E1 at 1.
      * intros [|x a'] b' Ha.
        -- simpl in Ha. rewrite Ha, starts_with_app in E. discriminate.
        -- simpl in Ha. inversion Ha; subst. simpl.
           apply le_n_S. eapply E2. eassumption.
Qed.

Lemma find_first_none (p : text) :
  forall s, find_first p s = None -> forall a b, s <> a ++ p ++ b.
Proof.
  induction s as [|c t IH]; intros H a b E.
  - simpl in H. destruct (starts_with p []) eqn:S; [discriminate|].
    destruct a; simpl in E.
    + rewrite E, starts_with_app in S. discriminate.
    + discriminate.
  - cbn [find_first] in H. destruct (starts_with p (c :: t)) eqn:S;
      [discriminate|].
    destruct (find_first p t) as [[a0 b0]|] eqn:F; [discriminate|].
    destruct a as [|x a]; simpl in E.
    + rewrite E, starts_with_app in S. discriminate.
    + inversion E; subst. eapply IH; eauto.
Qed.

Lemma find_first_none_suffix (p a s : text) :
  find_first p (a ++ s) = None -> find_first p s = None.
Proof.
  intros H. destruct (find_first p s) as [[u v]|] eqn:F; [|reflexivity].
  apply find_first_some in F as [F _].
  exfalso. eapply (find_first_none _ H (a ++ u) v).
  rewrite F. now rewrite <- app_assoc.
Qed.

(** ** The marker pattern *)

Lemma filter_all {A} (f : A -> bool) (l : list A) :
  (forall x, f x = true) -> filter f l = l.
Proof.
  intros H. induction l as [|x l IH]; simpl; [reflexivity|].
  now rewrite H, IH.
Qed.

Lemma m_lazy_until (e : text) (prev : option char) (s : text) :
  m (Seq (Grp 1 (Rep false any_char 0)) (lits e)) prev s
  = flat_map (until_hits e) (runs any_char s).
Proof.
  cbn [m]. rewrite filter_all by reflexivity.
  induction (runs any_char s) as [|[a b] l IH]; [reflexivity|].
  cbn [map flat_map fst snd]. rewrite IH. f_equal.
  rewrite m_lits. unfold until_hits. cbn [fst snd].
  destruct (starts_with e b); [|reflexivity].
  cbn [map]. now rewrite !app_nil_r.
Qed.

Lemma until_hits_push (e : text) (c : char) (l : list (text * text)) :
  flat_map (until_hits e) (map (fun a => (c :: fst a, snd a)) l)
  = map (push c) (flat_map (until_hits e) l).
Proof.
  induction l as [|[a b] l IH]; [reflexivity|].
  cbn [map flat_map]. rewrite IH, map_app. f_equal.
  unfold until_hits. cbn [fst snd].
  destruct (starts_with e b); reflexivity.
Qed.

Lemma hd_error_map {A B} (f : A -> B) (l : list A) :
  hd_error (map f l) = option_map f (hd_error l).
Proof. now destruct l. Qed.

(** The first match of [.*?] followed by [e] stops at the first [e]. *)
Lemma hd_until (e : text) :
  forall s,
    hd_error (flat_map (until_hits e) (runs any_char s))
    = match find_first e s with
      | Some (r, b) => Some (r ++ e, b, [(1, r)])
      | None => None
      end.
Proof.
  induction s as [|c t IH].
  - cbn [runs flat_map find_first]. unfold until_hits. cbn [fst snd].
    destruct (starts_with e []); reflexivity.
  - cbn [runs find_first]. unfold any_char at 1. cbn [flat_map].
    unfold until_hits at 1. cbn [fst snd].
    destruct (starts_with e (c :: t)); [reflexivity|].
    cbn [app]. rewrite until_hits_push, hd_error_map, IH.
    destruct (find_first e t) as [[r b]|]; reflexivity.
Qed.

Lemma m_progress_re (prev : option char) (s : text) :
  m progress_re prev s
  = if starts_with PROGRESS_START s
    then map (fun h : hit => let '(c, s', k) := h in
                             (PROGRESS_START ++ c, s', k))
             (flat_map (until_hits PROGRESS_END)
                (runs any_char (skipn (length PROGRESS_START) s)))
    else [].
Proof.
  unfold progress_re. cbn [m]. rewrite m_lits.
  destruct (starts_with PROGRESS_START s); [|reflexivity].
  cbn [flat_map]. rewrite app_nil_r.
  change (flat_map _ (map _ (map _ (filter _ (runs any_char ?x)))))
    with (m (Seq (Grp 1 (Rep false any_char 0)) (lits PROGRESS_END))
            (prev_after prev PROGRESS_START) x).
  rewrite m_lazy_until. apply map_ext. now intros [[c s'] k].
Qed.

Lemma search_from_progress_re :
  forall s prev pre,
    search_from progress_re prev pre s
    = match find_first PROGRESS_START s with
      | Some (a, rest) =>
          match find_first PROGRESS_END rest with
          | Some (r, b) =>
              Some (MatchObj (rev pre ++ a)
                      (PROGRESS_START ++ r ++ PROGRESS_END) b [(1, r)])
          | None => None
          end
      | None => None
      end.
Proof.
  induction s as [|x t IH]; intros prev pre.
  - reflexivity.
  - cbn [search_from find_first]. rewrite m_progress_re.
    destruct (starts_with PROGRESS_START (x :: t)) eqn:E.
    + set (rest := skipn (length PROGRESS_START) (x :: t)).
      pose proof (hd_until PROGRESS_END rest) as Hd.
      destruct (flat_map (until_hits PROGRESS_END) (runs any_char rest))
        as [|h tl].
      * cbn [map]. rewrite IH.
        destruct (find_first PROGRESS_END rest) as [[r b]|] eqn:F;
          [discriminate|].
        destruct (find_first PROGRESS_START t) as [[a rest']|] eqn:G;
          [|reflexivity].
        apply find_first_some in G as [G _].
        apply starts_with_split in E. fold rest in E.
        assert (rest = skipn (length PROGRESS_START) (x :: a ++ PROGRESS_START)
                         ++ rest') as R.
        { unfold rest. rewrite G.
          change (x :: a ++ PROGRESS_START ++ rest')
            with ((x :: a) ++ PROGRESS_START ++ rest').
          rewrite app_assoc, skipn_app.
          replace (length PROGRESS_START - length ((x :: a) ++ PROGRESS_START))
            with 0; [reflexivity|].
          rewrite length_app. cbn [length].
          generalize (length PROGRESS_START). intros; lia. }
        rewrite R in F. apply find_first_none_suffix in F. now rewrite F.
      * cbn [map hd_error] in *.
        destruct (find_first PROGRESS_END rest) as [[r b]|] eqn:F;
          [|discriminate].
        inversion Hd; subst. now rewrite app_nil_r.
    + rewrite IH.
      destruct (find_first PROGRESS_START t) as [[a rest]|]; [|reflexivity].
      destruct (find_first PROGRESS_END rest) as [[r b]|]; [|reflexivity].
      cbn [rev]. now rewrite <- app_assoc.
Qed.

(** [re.search] with the marker pattern finds the first start marker and
    the first end marker after it. *)
Lemma search_progress_re (s : text) :
  search progress_re s
  = match find_first PROGRESS_START s with
    | Some (a, rest) =>
        match find_first PROGRESS_END rest with
        | Some (r, b) =>
            Some (MatchObj a (PROGRESS_START ++ r ++ PROGRESS_END) b
                    [(1, r)])
        | None => None
        end
    | None => None
    end.
Proof. unfold search. now rewrite search_from_progress_re. Qed.

Lemma extract_between (readme : text) :
  extract_progress_block readme
  = match between_markers readme with
    | Some r => r
    | None => default_block
    end.
Proof.
  unfold extract_progress_block, between_markers.
  rewrite search_progress_re.
  destruct (find_first PROGRESS_START readme) as [[a rest]|]; [|reflexivity].
  destruct (find_first PROGRESS_END rest) as [[r b]|]; reflexivity.
Qed.

(** C10. Without the markers, [extract_progress_block] returns a default
    text made of the start marker line, one [## Arrays] section with
    the placeholder, and the end marker; with the markers it returns the text
    strictly between the first start marker and the first end marker after
    it, the markers excluded. *)
Theorem extract_progress_block_spec (readme : text) :
  (exists a r b,
      readme = a ++ PROGRESS_START ++ r ++ PROGRESS_END ++ b /\
      (forall a' b', readme = a' ++ PROGRESS_START ++ b' ->
                     length a <= length a') /\
      (forall r' b', r ++ PROGRESS_END ++ b = r' ++ PROGRESS_END ++ b' ->
                     length r <= length r') /\
      extract_progress_block readme = r)
  \/
  ((forall a r b,
      readme <> a ++ PROGRESS_START ++ r ++ PROGRESS_END ++ b) /\
   extract_progress_block readme
   = str "<!-- PROGRESS:START -->" ++ [NL] ++ str "## Arrays" ++ [NL]
       ++ str "(none yet)" ++ [NL; NL] ++ str "<!-- PROGRESS:END -->").
Proof.
  rewrite extract_between. unfold between_markers.
  destruct (find_first PROGRESS_START readme) as [[a rest]|] eqn:F.
  - destruct (find_first PROGRESS_END rest) as [[r b]|] eqn:G.
    + left. apply find_first_some in F as [F1 F2].
      apply find_first_some in G as [G1 G2].
      exists a, r, b. rewrite F1, G1. repeat split; auto.
      * intros a' b' E. apply (F2 a' b'). now rewrite F1, G1.
      * intros r' b' E. apply (G2 r' b'). now rewrite G1.
    + right. split; [|reflexivity].
      intros a0 r0 b0 E.
      apply find_first_some in F as [F1 F2].
      pose proof (F2 a0 (r0 ++ PROGRESS_END ++ b0) E) as L.
      assert (exists u, rest = u ++ r0 ++ PROGRESS_END ++ b0) as [u U].
      { rewrite F1 in E.
        destruct (app_eq_app_le _ _ _ _ E L) as [d [-> E2]].
        exists (skipn (length PROGRESS_START) (d ++ PROGRESS_START)).
        apply (f_equal (skipn (length PROGRESS_START))) in E2.
        rewrite skipn_length_app in E2. rewrite E2.
        rewrite app_assoc, skipn_app.
        replace (length PROGRESS_START - length (d ++ PROGRESS_START))
          with 0 by (rewrite length_app; lia).
        reflexivity. }
      rewrite U in G. apply find_first_none_suffix in G.
      eapply (find_first_none _ G r0 b0). reflexivity.
  - right. split; [|reflexivity].
    intros a r b E. eapply (find_first_none _ F a). exact E.
Qed.

(** ** Reading a match of a compound pattern *)

Lemma in_m_seq (a b : re) (prev : option char) (s c s' : text) (k : caps) :
  In (c, s', k) (m (Seq a b) prev s) <->
  exists c1 s1 k1 c2 k2,
    In (c1, s1, k1) (m a prev s) /\
    In (c2, s', k2) (m b (prev_after prev c1) s1) /\
    c = c1 ++ c2 /\ k = k1 ++ k2.
Proof.
  cbn [m]. rewrite in_flat_map. split.
  - intros [[[c1 s1] k1] [H1 H2]].
    apply in_map_iff in H2 as [[[c2 s2] k2] [E H2]].
    inversion E; subst. now exists c1, s1, k1, c2, k2.
  - intros (c1 & s1 & k1 & c2 & k2 & H1 & H2 & -> & ->).
    exists (c1, s1, k1). split; [assumption|].
    apply in_map_iff. now exists (c2, s', k2).
Qed.

Lemma in_m_grp (n : nat) (a : re) (prev : option char) (s c s' : text)
    (k : caps) :
  In (c, s', k) (m (Grp n a) prev s) <->
  exists k0, In (c, s', k0) (m a prev s) /\ k = k0 ++ [(n, c)].
Proof.
  cbn [m]. rewrite in_map_iff. split.
  - intros [[[c0 s0] k0] [E H]]. inversion E; subst. now exists k0.
  - intros (k0 & H & ->). now exists (c, s', k0).
Qed.

Lemma runs_complete (p : char -> bool) (a b : text) :
  forallb p a = true -> In (a, b) (runs p (a ++ b)).
Proof.
  induction a as [|x a IH]; intros H.
  - destruct b; now left.
  - simpl in H. apply andb_prop in H as [Hx H]. simpl. right.
    rewrite Hx. apply in_map_iff. exists (a, b). split; [reflexivity|].
    now apply IH.
Qed.

Lemma in_m_rep (g : bool) (p : char -> bool) (n : nat) (prev : option char)
    (s c s' : text) (k : caps) :
  In (c, s', k) (m (Rep g p n) prev s) <->
  s = c ++ s' /\ forallb p c = true /\ n <= length c /\ k = [].
Proof.
  cbn [m]. rewrite in_map_iff. split.
  - intros [[a b] [E H]]. cbn [fst snd] in E. inversion E; subst.
    assert (In (c, s') (filter (fun a => n <=? length (fst a)) (runs p s)))
      as H' by (destruct g; [now apply in_rev|assumption]).
    apply filter_In in H' as [H1 H2]. apply runs_sound in H1 as [-> H1].
    cbn [fst] in H2. apply Nat.leb_le in H2. auto.
  - intros (-> & H1 & H2 & ->). exists (c, s'). split; [reflexivity|].
    assert (In (c, s')
              (filter (fun a => n <=? length (fst a)) (runs p (c ++ s'))))
      as H'.
    { apply filter_In. split; [now apply runs_complete|].
      now apply Nat.leb_le. }
    destruct g; [now apply in_rev in H'|assumption].
Qed.

Lemma in_hit_single (s c s' : text) (k : caps) (P : Prop) :
  P -> (In (c, s', k) [(([] : text), s, ([] : caps))] <->
        c = [] /\ s' = s /\ k = [] /\ P).
Proof.
  intros HP. cbn [In]. split.
  - intros [E|[]]. inversion E. auto.
  - intros (-> & -> & -> & _). now left.
Qed.

Lemma in_hit_none (s c s' : text) (k : caps) (P : Prop) :
  ~ P -> (In (c, s', k) [] <-> c = [] /\ s' = s /\ k = [] /\ P).
Proof. intros HP. cbn [In]. tauto. Qed.

Lemma forallb_any (a : text) : forallb any_char a = true.
Proof. now induction a. Qed.

Lemma in_m_bol (prev : option char) (s c s' : text) (k : caps) :
  In (c, s', k) (m Bol prev s) <->
  c = [] /\ s' = s /\ k = [] /\ at_bol prev = true.
Proof.
  cbn [m]. unfold at_bol.
  destruct prev as [x|]; [destruct (x =? NL)%N|].
  - now apply in_hit_single.
  - now apply in_hit_none.
  - now apply in_hit_single.
Qed.

Lemma in_m_endz (prev : option char) (s c s' : text) (k : caps) :
  In (c, s', k) (m EndZ prev s) <->
  c = [] /\ s' = s /\ k = [] /\ s = [].
Proof.
  cbn [m]. destruct s.
  - now apply in_hit_single.
  - now apply in_hit_none.
Qed.

Lemma in_m_eol (prev : option char) (s c s' : text) (k : caps) :
  In (c, s', k) (m Eol prev s) <->
  c = [] /\ s' = s /\ k = [] /\ (s = [] \/ exists t, s = NL :: t).
Proof.
  cbn [m]. destruct s as [|x t].
  - apply in_hit_single. now left.
  - destruct (x =? NL)%N eqn:E.
    + apply N.eqb_eq in E. subst x. apply in_hit_single. right. now exists t.
    + apply in_hit_none. intros [H|[t' H]]; [discriminate|].
      inversion H; subst. now rewrite N.eqb_refl in E.
Qed.

Lemma in_m_look (a : re) (prev : option char) (s c s' : text) (k : caps) :
  In (c, s', k) (m (Look a) prev s) <->
  c = [] /\ s' = s /\ k = [] /\ m a prev s <> [].
Proof.
  cbn [m]. destruct (m a prev s).
  - apply in_hit_none. congruence.
  - apply in_hit_single. discriminate.
Qed.

Lemma in_m_alt (a b : re) (prev : option char) (s : text) (h : hit) :
  In h (m (Alt a b) prev s) <-> In h (m a prev s) \/ In h (m b prev s).
Proof. cbn [m]. apply in_app_iff. Qed.

Lemma in_m_lits (p : text) (prev : option char) (s c s' : text) (k : caps) :
  In (c, s', k) (m (lits p) prev s) <-> c = p /\ s = p ++ s' /\ k = [].
Proof.
  rewrite m_lits. destruct (starts_with p s) eqn:E; cbn [In]; split.
  - intros [H|[]]. inversion H; subst. repeat split.
    now apply starts_with_split.
  - intros (-> & -> & ->). left. now rewrite skipn_length_app.
  - tauto.
  - intros (-> & -> & ->). rewrite starts_with_app in E. discriminate.
Qed.

Lemma not_nil_in {A} (l : list A) : l <> [] <-> exists x, In x l.
Proof.
  destruct l as [|x l]; split.
  - congruence.
  - intros [x []].
  - intros _. exists x. now left.
  - discriminate.
Qed.

(** The lookahead that ends a section holds at the end of the text and in
    front of a heading at the start of a line. *)
Lemma section_end_iff (prev : option char) (s c s' : text) (k : caps) :
  In (c, s', k) (m section_end prev s) <->
  c = [] /\ s' = s /\ k = [] /\
  (at_bol prev = true /\ starts_with (str "## ") s = true \/ s = []).
Proof.
  unfold section_end. rewrite in_m_look, not_nil_in.
  split; intros (-> & -> & -> & H); repeat split; trivial.
  - destruct H as [[[c1 s1] k1] H]. apply in_m_alt in H as [H|H].
    + left. apply in_m_seq in H as (a1 & a2 & a3 & a4 & a5 & H1 & H2 & _).
      apply in_m_bol in H1 as (-> & -> & -> & H1).
      apply in_m_lits in H2 as (-> & H2 & ->).
      split; [assumption|]. rewrite H2. apply starts_with_app.
    + right. now apply in_m_endz in H as (_ & _ & _ & ->).
  - destruct H as [[H1 H2]|H].
    + apply starts_with_split in H2.
      exists (str "## ", skipn (length (str "## ")) s, []).
      apply in_m_alt. left.
      apply in_m_seq. exists [], s, [], (str "## "), [].
      repeat split; trivial.
      * now apply in_m_bol.
      * now apply in_m_lits.
    + subst s. exists ([], [], []). apply in_m_alt. right.
      now apply in_m_endz.
Qed.

(** ** The section pattern *)

(** A match of the section pattern: the heading with the whitespace after
    it, then a non-empty body that ends at the end of the text or in front
    of the next heading line. *)
Lemma in_m_section_re (T : text) (prev : option char) (s c s' : text)
    (k : caps) :
  In (c, s', k) (m (section_re T) prev s) <->
  exists ws body,
    c = (str "## " ++ T ++ ws) ++ body /\
    s = c ++ s' /\
    k = [(1, str "## " ++ T ++ ws); (2, body)] /\
    at_bol prev = true /\
    forallb is_space ws = true /\
    body <> [] /\
    (at_bol (prev_after prev c) = true /\ starts_with (str "## ") s' = true
     \/ s' = []).
Proof.
  unfold section_re. rewrite in_m_seq. split.
  - intros (c1 & s1 & k1 & c2 & k2 & H1 & H2 & -> & ->).
    apply in_m_grp in H1 as (k0 & H1 & ->).
    apply in_m_seq in H1 as (x1 & x2 & x3 & x4 & x5 & B & H1 & -> & ->).
    apply in_m_bol in B as (-> & -> & -> & B).
    apply in_m_seq in H1 as (y1 & y2 & y3 & ws & y5 & L & R & -> & ->).
    apply in_m_lits in L as (-> & L & ->).
    apply in_m_rep in R as (R1 & R2 & _ & ->).
    apply in_m_seq in H2 as (body & z2 & z3 & z4 & z5 & G & E & -> & ->).
    apply in_m_grp in G as (g0 & G & ->).
    apply in_m_rep in G as (G1 & _ & G2 & ->).
    apply section_end_iff in E as (-> & -> & -> & E).
    exists ws, body. cbn [app] in *. rewrite !app_nil_r.
    rewrite <- !prev_after_app in E. subst s s1 y2.
    rewrite <- !app_assoc in *.
    repeat (split; [solve [trivial]|]).
    split; [|exact E].
    destruct body; [simpl in G2; lia|discriminate].
  - intros (ws & body & -> & E & -> & B & W & N & Z).
    rewrite <- !app_assoc in E.
    exists (str "## " ++ T ++ ws), (body ++ s'),
      [(1, str "## " ++ T ++ ws)], body, [(2, body)].
    split.
    { apply in_m_grp. exists []. split; [|reflexivity].
      apply in_m_seq.
      exists [], s, [], (str "## " ++ T ++ ws), [].
      split; [now apply in_m_bol|]. split; [|now split].
      apply in_m_seq.
      exists (str "## " ++ T), (ws ++ body ++ s'), [], ws, [].
      split; [apply in_m_lits; now rewrite <- !app_assoc|].
      split; [|split; [now rewrite <- !app_assoc|reflexivity]].
      apply in_m_rep. split; [reflexivity|]. split; [assumption|].
      split; [lia|reflexivity]. }
    split; [|now split].
    apply in_m_seq. exists body, s', [(2, body)], [], [].
    split.
    { apply in_m_grp. exists []. split; [|reflexivity].
      apply in_m_rep. split; [reflexivity|]. split; [apply forallb_any|].
      split; [|reflexivity]. destruct body; [congruence|simpl; lia]. }
    split; [|split; [now rewrite app_nil_r|reflexivity]].
    apply section_end_iff. split; [reflexivity|]. split; [reflexivity|].
    split; [reflexivity|]. now rewrite <- !prev_after_app.
Qed.

(** What [re.search] with the section pattern returns. *)
Lemma search_section_re (T b : text) (mt : match_obj) :
  search (section_re T) b = Some mt ->
  exists ws body,
    b = before mt ++ (str "## " ++ T ++ ws) ++ body ++ after mt /\
    group 1 (groups mt) = str "## " ++ T ++ ws /\
    group 2 (groups mt) = body /\
    at_bol (prev_after None (before mt)) = true /\
    forallb is_space ws = true /\
    body <> [] /\
    (at_bol (prev_after None (before mt ++ (str "## " ++ T ++ ws) ++ body))
       = true /\ starts_with (str "## ") (after mt) = true
     \/ after mt = []).
Proof.
  intros H. pose proof (search_split _ _ H) as S.
  apply search_from_some in H as (a & tl & H1 & H2 & H3 & _).
  cbn [rev app] in H2. subst a.
  assert (In (whole mt, after mt, groups mt)
            (m (section_re T) (prev_after None (before mt))
               (whole mt ++ after mt))) as Hin by (rewrite H3; now left).
  apply in_m_section_re in Hin as (ws & body & W & _ & K & B & Ws & N & Z).
  exists ws, body. rewrite K.
  split; [rewrite S, W; now rewrite <- !app_assoc|].
  repeat split; trivial.
  rewrite prev_after_app, <- W. exact Z.
Qed.

(** After [upsert_category_block] the section pattern matches. *)
Lemma search_new_section (T x : text) :
  search (section_re T) (x ++ new_section T) <> None.
Proof.
  apply search_found with (a := x ++ [NL; NL])
    (b := str "## " ++ T ++ [NL] ++ PLACEHOLDER ++ [NL; NL]).
  - unfold new_section. now rewrite <- !app_assoc.
  - apply not_nil_in.
    exists ((str "## " ++ T ++ []) ++ [NL] ++ PLACEHOLDER ++ [NL; NL],
            [], [(1, str "## " ++ T ++ []); (2, [NL] ++ PLACEHOLDER ++ [NL; NL])]).
    apply in_m_section_re. exists [], ([NL] ++ PLACEHOLDER ++ [NL; NL]).
    repeat split; trivial.
    + now rewrite !app_nil_r, <- !app_assoc.
    + now rewrite prev_after_app.
    + discriminate.
    + now right.
Qed.

(** The pattern of [upsert_category_block] matches wherever the pattern of
    [add_problem_checkbox] does: they differ in their groups only. *)
Lemma category_re_section_re (T : text) (prev : option char) (s : text) :
  m (category_re T) prev s <> [] -> m (section_re T) prev s <> [].
Proof.
  rewrite !not_nil_in. intros [[[c s'] k] H]. unfold category_re in H.
  apply in_m_seq in H as (x1 & x2 & x3 & x4 & x5 & B & H & -> & ->).
  apply in_m_bol in B as (-> & -> & -> & B).
  apply in_m_seq in H as (y1 & y2 & y3 & y4 & y5 & L & H & -> & ->).
  apply in_m_lits in L as (-> & L & ->).
  apply in_m_seq in H as (ws & z2 & z3 & z4 & z5 & R & H & -> & ->).
  apply in_m_rep in R as (R1 & R2 & _ & ->).
  apply in_m_seq in H as (body & u2 & u3 & u4 & u5 & G & E & -> & ->).
  apply in_m_grp in G as (g0 & G & ->).
  apply in_m_rep in G as (G1 & _ & G2 & ->).
  apply section_end_iff in E as (-> & -> & -> & E).
  cbn [app] in E. rewrite <- !prev_after_app in E.
  exists ((str "## " ++ T ++ ws) ++ body, u2,
          [(1, str "## " ++ T ++ ws); (2, body)]).
  apply in_m_section_re. exists ws, body.
  split; [reflexivity|].
  split; [subst; now rewrite <- !app_assoc|].
  split; [reflexivity|]. split; [assumption|]. split; [assumption|].
  split; [destruct body; [simpl in G2; lia|discriminate]|].
  now rewrite <- !app_assoc in *.
Qed.

Lemma search_category_section (T b : text) :
  search (section_re T) b = None -> search (category_re T) b = None.
Proof.
  intros H. destruct (search (category_re T) b) as [mt|] eqn:E;
    [|reflexivity].
  exfalso. pose proof (search_split _ _ E) as S.
  apply search_from_some in E as (a & tl & H1 & H2 & H3 & _).
  apply (@search_found (section_re T) b a (whole mt ++ after mt) H1);
    [|exact H].
  apply category_re_section_re. rewrite H3. discriminate.
Qed.

(** The block in which [add_problem_checkbox] looks for the section: the
    block it is given if the section pattern matches there, and else that
    block without its trailing whitespace, followed by a new section. *)
Lemma add_problem_checkbox_eq (b T name link path : text) (done : bool) :
  exists mt,
    search (section_re T)
      (match search (section_re T) b with
       | Some _ => b
       | None => upsert_category_block b T
       end) = Some mt /\
    add_problem_checkbox b T name link path done
    = Ok (before mt ++ group 1 (groups mt)
            ++ new_section_body (group 2 (groups mt)) name link path done
            ++ after mt).
Proof.
  unfold add_problem_checkbox.
  destruct (search (section_re T) b) as [mt|] eqn:E.
  - exists mt. now split.
  - destruct (search (section_re T) (upsert_category_block b T))
      as [mt|] eqn:E2.
    + exists mt. now split.
    + exfalso. unfold upsert_category_block in E2.
      rewrite (search_category_section _ _ E) in E2.
      now apply search_new_section in E2.
Qed.

(** ** [add_problem_checkbox]: what is left untouched *)

(** A block that ends in two blank lines, and a problem added under a
    category that has no section yet: the body of the existing [## Arrays]
    section loses a blank line ([upsert_category_block] strips the block
    before it appends), and the input is not even a prefix of the output. *)
Lemma add_problem_checkbox_strips_blank_lines :
  add_problem_checkbox block_blank_lines (str "Stack") (str "n") (str "l")
    (str "p") false
  = Ok (str "## Arrays" ++ [NL] ++ str "x" ++ [NL; NL]
          ++ str "## Stack" ++ [NL] ++ str "- [ ] [n](l) " ++ [EM_DASH]
          ++ str " `p`" ++ [NL; NL])
  /\ section_of (str "Arrays") block_blank_lines
     = Some (str "## Arrays" ++ [NL], str "x" ++ [NL; NL; NL])
  /\ section_of (str "Arrays")
       (str "## Arrays" ++ [NL] ++ str "x" ++ [NL; NL]
          ++ str "## Stack" ++ [NL] ++ str "- [ ] [n](l) " ++ [EM_DASH]
          ++ str " `p`" ++ [NL; NL])
     = Some (str "## Arrays" ++ [NL], str "x" ++ [NL; NL])
  /\ str "x" ++ [NL; NL; NL] <> str "x" ++ [NL; NL].
Proof.
  split; [vm_compute; reflexivity|].
  split; [vm_compute; reflexivity|].
  split; [vm_compute; reflexivity|].
  discriminate.
Qed.

(** [add_problem_checkbox] never raises and changes nothing but the body
    of the section that its pattern finds for the title: the block it edits
    is its argument when the section pattern matches there, and otherwise
    its argument without trailing whitespace followed by a new section; that
    block splits into the text before the section, the heading that starts
    with [## ] and the title, the body, and the text after the section, and
    the result is the same four pieces with a new body. *)
Theorem add_problem_checkbox_frame (b T name link path : text)
    (done : bool) :
  exists pre head body post,
    searched_block b T = pre ++ head ++ body ++ post /\
    starts_with (str "## " ++ T) head = true /\
    section_of T (searched_block b T) = Some (head, body) /\
    add_problem_checkbox b T name link path done
    = Ok (pre ++ head ++ new_section_body body name link path done ++ post).
Proof.
  destruct (add_problem_checkbox_eq b T name link path done) as [mt [S E]].
  assert (searched_block b T
          = match search (section_re T) b with
            | Some _ => b
            | None => upsert_category_block b T
            end) as B.
  { unfold searched_block, upsert_category_block.
    destruct (search (section_re T) b) eqn:F; [reflexivity|].
    now rewrite (search_category_section _ _ F). }
  rewrite <- B in S.
  destruct (search_section_re _ _ S) as (ws & body & D & G1 & G2 & _).
  exists (before mt), (str "## " ++ T ++ ws), body, (after mt).
  split; [now rewrite <- !app_assoc in *|].
  split; [rewrite app_assoc; apply starts_with_app|].
  split; [unfold section_of; now rewrite S, G1, G2|].
  now rewrite E, G1, G2.
Qed.

(** ** The editor on sample documents *)

(** The first run on the default README: the entry takes the place of the
    placeholder of [## Arrays] and the summary stays at 0. *)
Example update_readme_first :
  update_readme default_readme (str "Arrays") (str "Two Sum")
    (str "http://x") (str "arrays/two_sum.py") false
  = Ok (readme_head (str "0") ++ PROGRESS_START ++ [NL]
          ++ str "## Arrays" ++ [NL] ++ str "- [ ] [Two Sum](http://x) "
          ++ [EM_DASH] ++ str " `arrays/two_sum.py`" ++ [NL; NL]
          ++ other_sections ++ PROGRESS_END ++ [NL]).
Proof. vm_compute; reflexivity. Qed.

(** The same problem again, now done: the flag is ticked and the summary
    counts 1. *)
Example update_readme_done :
  update_readme
    (readme_head (str "0") ++ PROGRESS_START ++ [NL]
       ++ str "## Arrays" ++ [NL] ++ str "- [ ] [Two Sum](http://x) "
       ++ [EM_DASH] ++ str " `arrays/two_sum.py`" ++ [NL; NL]
       ++ other_sections ++ PROGRESS_END ++ [NL])
    (str "Arrays") (str "Two Sum") (str "http://x")
    (str "arrays/two_sum.py") true
  = Ok (readme_head (str "1") ++ PROGRESS_START ++ [NL]
          ++ str "## Arrays" ++ [NL] ++ str "- [x] [Two Sum](http://x) "
          ++ [EM_DASH] ++ str " `arrays/two_sum.py`" ++ [NL; NL]
          ++ other_sections ++ PROGRESS_END ++ [NL]).
Proof. vm_compute; reflexivity. Qed.

(** A category without a section: the section is appended at the end of
    the block and filled at once. *)
Example update_readme_new_category :
  update_readme default_readme (str "Graphs") (str "Clone Graph")
    (str "http://g") (str "graphs/clone_graph.py") false
  = Ok (readme_head (str "0") ++ PROGRESS_START ++ [NL]
          ++ str "## Arrays" ++ [NL] ++ str "(none yet)" ++ [NL; NL]
          ++ other_sections
          ++ str "## Graphs" ++ [NL] ++ str "- [ ] [Clone Graph](http://g) "
          ++ [EM_DASH] ++ str " `graphs/clone_graph.py`" ++ [NL; NL]
          ++ PROGRESS_END ++ [NL]).
Proof. vm_compute; reflexivity. Qed.

(** A document without markers: the block is appended between new
    markers. *)
Example replace_progress_block_no_markers :
  replace_progress_block (str "# Notes" ++ [NL]) block_arrays
  = Ok (str "# Notes" ++ [NL; NL] ++ PROGRESS_START ++ block_arrays
          ++ PROGRESS_END ++ [NL]).
Proof. vm_compute; reflexivity. Qed.

(** C2.  Adding the problem named [(none yet)] to the default section twice
    does not give what adding it once gives: the second call takes the name
    inside the entry line for the placeholder and nests a second entry in
    it. *)
Lemma add_problem_checkbox_twice_differs :
  add_problem_checkbox block_arrays (str "Arrays") (str "(none yet)")
    (str "l") (str "p") false
  = Ok (str "## Arrays" ++ [NL] ++ str "- [ ] [(none yet)](l) "
          ++ [EM_DASH] ++ str " `p`" ++ [NL; NL])
  /\ add_problem_checkbox
       (str "## Arrays" ++ [NL] ++ str "- [ ] [(none yet)](l) "
          ++ [EM_DASH] ++ str " `p`" ++ [NL; NL])
       (str "Arrays") (str "(none yet)") (str "l") (str "p") false
     = Ok (str "## Arrays" ++ [NL] ++ str "- [ ] [- [ ] [(none yet)](l) "
             ++ [EM_DASH] ++ str " `p`](l) " ++ [EM_DASH] ++ str " `p`"
             ++ [NL; NL]).
Proof. split; vm_compute; reflexivity. Qed.

(** C5.  [upsert_category_block] leaves a block alone that has a
    [## Graphs] section and no [## Graph] heading when it is asked for the
    title [Graph]: the title matches as a prefix of the heading. *)
Lemma upsert_category_block_prefix_match :
  upsert_category_block block_graphs (str "Graph") = block_graphs
  /\ lines block_graphs
     = [[]; str "## Graphs"; str "(none yet)"; []; []].
Proof. split; vm_compute; reflexivity. Qed.

(** C7.  The section has a not-done entry for [Heap] and no placeholder;
    [add_problem_checkbox] with [done = true] returns the block as it was,
    the entry still not done, because the link has a closing parenthesis. *)
Lemma add_problem_checkbox_done_not_rewritten :
  section_of (str "Heap") block_heap
  = Some (str "## Heap" ++ [NL],
          str "- [ ] [Heap](http://w/Heap_(ds)) " ++ [EM_DASH]
            ++ str " `heap/heap.py`" ++ [NL; NL])
  /\ add_problem_checkbox (str "## Heap" ++ [NL] ++ PLACEHOLDER ++ [NL; NL])
       (str "Heap") (str "Heap") (str "http://w/Heap_(ds)")
       (str "heap/heap.py") false
     = Ok block_heap
  /\ add_problem_checkbox block_heap (str "Heap") (str "Heap")
       (str "http://w/Heap_(ds)") (str "heap/heap.py") true
     = Ok block_heap.
Proof. repeat split; vm_compute; reflexivity. Qed.

(** C8.  [replace_progress_block] with a new block that holds a backslash
    followed by [n] puts a newline between the markers, not the block it
    was given. *)
Lemma replace_progress_block_expands_escapes :
  replace_progress_block readme_old (str "a\nb")
  = Ok (PROGRESS_START ++ str "a" ++ [NL] ++ str "b" ++ PROGRESS_END)
  /\ str "a\nb" = [97; 92; 110; 98]%N.
Proof. split; vm_compute; reflexivity. Qed.

(** C9.  [replace_progress_block] raises when the new block holds a
    backslash followed by a letter that is no escape. *)
Lemma replace_progress_block_raises :
  replace_progress_block readme_old (str "C:\path") = Raise TemplateError.
Proof. vm_compute; reflexivity. Qed.

(** C6, as stated, fails: the planned count 200 of the summary line is
    not kept, it becomes 150. *)
Lemma update_summary_counts_resets_planned :
  update_summary_counts readme_planned_200
  = Ok (str "## Progress Summary" ++ [NL]
          ++ str "- Total: 0 done / 150 planned" ++ [NL]).
Proof. vm_compute; reflexivity. Qed.

(** ** [re.sub] *)

Lemma sub_aux_skip (r : re) (repl : text -> caps -> text) :
  forall c prev s,
    sub_aux r repl (length c) prev (c ++ s)
    = sub_aux r repl 0 (prev_after prev c) s.
Proof.
  induction c as [|x c IH]; intros prev s; [reflexivity|].
  cbn [length app sub_aux]. now rewrite IH.
Qed.

Lemma sub_aux_ext (r : re) (f g : text -> caps -> text) :
  (forall c k, f c k = g c k) ->
  forall s n prev, sub_aux r f n prev s = sub_aux r g n prev s.
Proof.
  intros E. induction s as [|x t IH]; intros n prev.
  - destruct n; cbn [sub_aux]; [|reflexivity].
    destruct (match_here r prev []) as [[c k]|]; [|reflexivity].
    now rewrite E.
  - destruct n; cbn [sub_aux]; [|apply IH].
    destruct (match_here r prev (x :: t)) as [[c k]|].
    + rewrite E. destruct c; now rewrite IH.
    + now rewrite IH.
Qed.

(** What [re.sub] does, step by step: it keeps a character, or replaces a
    non-empty match and goes on after it. *)
Lemma sub_aux_rel (r : re) (repl : text -> caps -> text)
    (P : text -> text -> Prop) :
  P [] [] ->
  (forall c s s', P s s' -> P (c :: s) (c :: s')) ->
  (forall prev s c s1 k s1',
      In (c, s1, k) (m r prev s) -> P s1 s1' ->
      P (c ++ s1) (repl c k ++ s1')) ->
  (forall prev s s1 k, ~ In ([], s1, k) (m r prev s)) ->
  forall s prev, P s (sub_aux r repl 0 prev s).
Proof.
  intros Pnil Pkeep Phit Hne s.
  induction s as [s IH] using (induction_ltof1 _ (@length char)).
  unfold ltof in IH. intros prev.
  assert (forall c s1 k tl, m r prev s = (c, s1, k) :: tl ->
            exists x c', c = x :: c' /\ s = x :: c' ++ s1 /\
                         In (c, s1, k) (m r prev s)) as Hhit.
  { intros c s1 k tl E.
    assert (In (c, s1, k) (m r prev s)) as Hin by (rewrite E; now left).
    pose proof Hin as S. apply m_sound in S.
    destruct c as [|x c]; [exfalso; eapply Hne; exact Hin|].
    now exists x, c. }
  destruct s as [|x t]; cbn [sub_aux]; unfold match_here.
  - destruct (m r prev []) as [|[[c s1] k] tl] eqn:E; [exact Pnil|].
    destruct (Hhit _ _ _ _ eq_refl) as (y & c' & _ & F & _). discriminate.
  - destruct (m r prev (x :: t)) as [|[[c s1] k] tl] eqn:E.
    + apply Pkeep, IH. simpl; lia.
    + destruct (Hhit _ _ _ _ eq_refl) as (y & c' & -> & F & Hin).
      inversion F; subst y t. rewrite sub_aux_skip.
      apply (Phit prev (x :: c' ++ s1) (x :: c') s1 k);
        [rewrite E; now left|].
      apply IH. cbn [length]. rewrite length_app. lia.
Qed.

(** ** The summary pattern *)

Ltac norm_app :=
  repeat first [rewrite <- app_assoc | progress cbn [app]].

Lemma in_m_summary_re (prev : option char) (s c s' : text) (k : caps) :
  In (c, s', k) (m summary_re prev s) <->
  exists ws d p,
    c = summary_line ws d p /\
    s = c ++ s' /\
    k = [(1, str "## Progress Summary" ++ ws ++ NL :: str "- Total: ")] /\
    at_bol prev = true /\
    forallb is_space ws = true /\
    forallb is_decimal d = true /\ d <> [] /\
    forallb is_decimal p = true /\ p <> [] /\
    (s' = [] \/ exists t, s' = NL :: t).
Proof.
  unfold summary_re, summary_line. rewrite in_m_seq. split.
  - intros (x1 & x2 & x3 & x4 & x5 & B & H & -> & ->).
    apply in_m_bol in B as (-> & -> & -> & B).
    apply in_m_seq in H as (g1 & y2 & y3 & y4 & y5 & G & H & -> & ->).
    apply in_m_grp in G as (g0 & G & ->).
    apply in_m_seq in G as (h1 & h2 & h3 & h4 & h5 & L1 & G & -> & ->).
    apply in_m_lits in L1 as (-> & L1 & ->).
    apply in_m_seq in G as (ws & i2 & i3 & i4 & i5 & W & L2 & -> & ->).
    apply in_m_rep in W as (W1 & W2 & _ & ->).
    apply in_m_lits in L2 as (-> & L2 & ->).
    apply in_m_seq in H as (d & j2 & j3 & j4 & j5 & D & H & -> & ->).
    apply in_m_rep in D as (D1 & D2 & D3 & ->).
    apply in_m_seq in H as (l1 & l2 & l3 & l4 & l5 & L3 & H & -> & ->).
    apply in_m_lits in L3 as (-> & L3 & ->).
    apply in_m_seq in H as (p & n2 & n3 & n4 & n5 & P & H & -> & ->).
    apply in_m_rep in P as (P1 & P2 & P3 & ->).
    apply in_m_seq in H as (o1 & o2 & o3 & o4 & o5 & L4 & E & -> & ->).
    apply in_m_lits in L4 as (-> & L4 & ->).
    apply in_m_eol in E as (-> & -> & -> & E).
    exists ws, d, p. subst. norm_app. rewrite !app_nil_r.
    repeat (split; [solve [trivial]|]).
    split; [destruct d; [simpl in D3; lia|discriminate]|].
    split; [assumption|].
    split; [destruct p; [simpl in P3; lia|discriminate]|].
    exact E.
  - intros (ws & d & p & -> & E & -> & B & W & D & Dn & P & Pn & Z).
    revert E. norm_app. intros E.
    exists [], s, [],
      (str "## Progress Summary" ++ ws ++ NL :: str "- Total: " ++ d
         ++ str " done / " ++ p ++ str " planned"),
      [(1, str "## Progress Summary" ++ ws ++ NL :: str "- Total: ")].
    split; [now apply in_m_bol|]. split; [|now split].
    apply in_m_seq.
    exists (str "## Progress Summary" ++ ws ++ NL :: str "- Total: "),
      (d ++ str " done / " ++ p ++ str " planned" ++ s'),
      [(1, str "## Progress Summary" ++ ws ++ NL :: str "- Total: ")],
      (d ++ str " done / " ++ p ++ str " planned"), [].
    split.
    { apply in_m_grp. exists []. split; [|reflexivity].
      apply in_m_seq.
      exists (str "## Progress Summary"),
        (ws ++ NL :: str "- Total: " ++ d ++ str " done / " ++ p
           ++ str " planned" ++ s'), [],
        (ws ++ NL :: str "- Total: "), [].
      split; [apply in_m_lits; repeat split; exact E|].
      split; [|now split].
      apply in_m_seq.
      exists ws, (NL :: str "- Total: " ++ d ++ str " done / " ++ p
                    ++ str " planned" ++ s'), [],
        (NL :: str "- Total: "), [].
      split; [apply in_m_rep; repeat split; trivial; lia|].
      split; [|now split].
      apply in_m_lits. repeat split. }
    split; [|split; [now norm_app|reflexivity]].
    apply in_m_seq.
    exists d, (str " done / " ++ p ++ str " planned" ++ s'), [],
      (str " done / " ++ p ++ str " planned"), [].
    split.
    { apply in_m_rep. repeat split; trivial.
      destruct d; [congruence|simpl; lia]. }
    split; [|now split].
    apply in_m_seq.
    exists (str " done / "), (p ++ str " planned" ++ s'), [],
      (p ++ str " planned"), [].
    split; [apply in_m_lits; repeat split|]. split; [|now split].
    apply in_m_seq.
    exists p, (str " planned" ++ s'), [], (str " planned"), [].
    split.
    { apply in_m_rep. repeat split; trivial.
      destruct p; [congruence|simpl; lia]. }
    split; [|now split].
    apply in_m_seq. exists (str " planned"), s', [], [], [].
    split; [apply in_m_lits; repeat split|].
    split; [now apply in_m_eol|]. now split.
Qed.

(** ** Templates *)

Lemma parse_template_literal (n : nat) :
  forall t fuel,
    length t <= fuel -> no_backslash t = true ->
    parse_template fuel n t = Some (map TLit t).
Proof.
  induction t as [|c t IH]; intros fuel L H.
  - now destruct fuel.
  - destruct fuel as [|f]; [simpl in L; lia|].
    unfold no_backslash in H. cbn [forallb] in H.
    apply andb_prop in H as [Hc H].
    cbn [parse_template]. rewrite Hc.
    rewrite IH; [reflexivity| simpl in L; lia | exact H].
Qed.

Lemma expand_literal (t c : text) (k : caps) :
  expand (map TLit t) c k = t.
Proof.
  unfold expand. induction t as [|x t IH]; [reflexivity|].
  cbn [map flat_map app]. now rewrite IH.
Qed.

Lemma no_backslash_app (a b : text) :
  no_backslash (a ++ b) = no_backslash a && no_backslash b.
Proof. apply forallb_app. Qed.

Lemma no_backslash_uint (u : Decimal.uint) :
  no_backslash (str (NilEmpty.string_of_uint u)) = true.
Proof. induction u; simpl; auto. Qed.

Lemma no_backslash_decimal (n : nat) : no_backslash (decimal n) = true.
Proof.
  unfold decimal, NilZero.string_of_uint.
  destruct (Nat.to_uint n) eqn:E; try apply no_backslash_uint.
  reflexivity.
Qed.

(** The template of [update_summary_counts] is group 1 followed by literal
    text. *)
Lemma parse_summary_template (rest : text) :
  no_backslash rest = true ->
  parse_template (length (str "\g<1>" ++ rest)) 1 (str "\g<1>" ++ rest)
  = Some (TGrp 1 :: map TLit rest).
Proof.
  intros H.
  change (str "\g<1>" ++ rest)
    with (92 :: 103 :: 60 :: 49 :: 62 :: rest)%N.
  cbn [length].
  change (parse_template (S (S (S (S (S (length rest))))))
            1 (92 :: 103 :: 60 :: 49 :: 62 :: rest)%N)
    with (option_map (cons (TGrp 1))
            (parse_template (S (S (S (S (length rest))))) 1 rest)).
  rewrite parse_template_literal; [reflexivity|lia|exact H].
Qed.

Lemma update_summary_counts_eq (readme : text) :
  update_summary_counts readme
  = Ok (sub summary_re
          (fun _ k =>
             group 1 k
               ++ decimal (findall_len done_re
                             (extract_progress_block readme))
               ++ str " done / 150 planned")
          readme).
Proof.
  unfold update_summary_counts, sub_template.
  rewrite parse_summary_template.
  - f_equal. unfold sub. apply sub_aux_ext. intros c k.
    unfold expand. cbn [flat_map]. f_equal.
    apply (expand_literal _ c k).
  - rewrite no_backslash_app, no_backslash_decimal. reflexivity.
Qed.

Lemma sub_summary_rewrite (n : text) (prev : option char) (s : text) :
  summary_rewrite n s
    (sub_aux summary_re
       (fun _ k => group 1 k ++ n ++ str " done / 150 planned") 0 prev s).
Proof.
  revert s prev. apply sub_aux_rel.
  - constructor.
  - intros c s s'. apply sr_keep.
  - intros prev s c s1 k s1' H R.
    apply in_m_summary_re in H
      as (ws & d & p & -> & _ & -> & _ & W & D & Dn & P & Pn & _).
    replace ((group 1
                [(1, str "## Progress Summary" ++ ws ++ NL :: str "- Total: ")]
              ++ n ++ str " done / 150 planned") ++ s1')
      with (summary_line ws n (str "150") ++ s1').
    + now apply sr_line.
    + unfold summary_line, group. cbn [rev app find fst snd Nat.eqb].
      now norm_app.
  - intros prev s s1 k H.
    apply in_m_summary_re in H as (ws & d & p & H & _).
    discriminate.
Qed.

(** What [update_summary_counts] does to the text is [summary_rewrite]. *)
Lemma update_summary_counts_rewrite (readme : text) :
  exists out,
    update_summary_counts readme = Ok out /\
    summary_rewrite
      (decimal (findall_len done_re (extract_progress_block readme)))
      readme out.
Proof.
  eexists. split; [apply update_summary_counts_eq|].
  apply sub_summary_rewrite.
Qed.

(** ** Counting the done lines *)

Lemma m_done_re (prev : option char) (s : text) :
  m done_re prev s
  = if at_bol prev && starts_with DONE_BOX s
    then [(DONE_BOX, skipn (length DONE_BOX) s, [])]
    else [].
Proof.
  unfold done_re. cbn [m]. fold DONE_BOX.
  assert (forall p, m (lits DONE_BOX) p s
                    = if starts_with DONE_BOX s
                      then [(DONE_BOX, skipn (length DONE_BOX) s, [])]
                      else []) as L by (intros; apply m_lits).
  unfold at_bol.
  destruct prev as [x|]; [destruct (x =? NL)%N|]; cbn [flat_map andb];
    try reflexivity; rewrite L; destruct (starts_with DONE_BOX s);
    reflexivity.
Qed.

Lemma count_aux_skip (r : re) :
  forall c prev s,
    count_aux r (length c) prev (c ++ s)
    = count_aux r 0 (prev_after prev c) s.
Proof.
  induction c as [|x c IH]; intros prev s; [reflexivity|].
  cbn [length app count_aux]. now rewrite IH.
Qed.

Lemma cnt_after_box (s : text) :
  cnt false (str " [x]" ++ s) = cnt false s.
Proof. reflexivity. Qed.

(** [len(re.findall(...))] with the pattern of a ticked checkbox counts the
    line starts where [- [x]] follows. *)
Lemma count_aux_done_re :
  forall s prev, count_aux done_re 0 prev s = cnt (at_bol prev) s.
Proof.
  induction s as [s IH] using (induction_ltof1 _ (@length char)).
  unfold ltof in IH. intros prev.
  destruct s as [|x t].
  - cbn [count_aux cnt]. unfold match_here. rewrite m_done_re.
    rewrite andb_false_r. reflexivity.
  - cbn [count_aux cnt]. unfold match_here. rewrite m_done_re.
    destruct (at_bol prev && starts_with DONE_BOX (x :: t)) eqn:E.
    + apply andb_prop in E as [_ E]. apply starts_with_iff in E as [u E].
      change DONE_BOX with (45 :: str " [x]")%N in E. cbn [app] in E.
      inversion E; subst x t.
      change (S (count_aux done_re (length (str " [x]")) (Some 45%N)
                   (str " [x]" ++ u))
              = 1 + cnt false (str " [x]" ++ u)).
      rewrite count_aux_skip, IH, cnt_after_box; [reflexivity|].
      simpl. lia.
    + rewrite IH by (simpl; lia). reflexivity.
Qed.

Lemma starts_with_first_line (p : text) :
  forallb (fun c => negb (c =? NL)%N) p = true ->
  forall s, starts_with p s = starts_with p (hd [] (lines s)).
Proof.
  induction p as [|a p IH]; intros H s; [reflexivity|].
  cbn [forallb] in H. apply andb_prop in H as [Ha H].
  destruct s as [|c t]; [reflexivity|].
  cbn [lines]. destruct (c =? NL)%N eqn:E.
  - apply N.eqb_eq in E. subst c. cbn [hd starts_with].
    apply negb_true_iff in Ha. now rewrite Ha.
  - specialize (IH H t). destruct (lines t) as [|l ls]; cbn [hd] in *.
    + cbn [starts_with]. rewrite IH. now destruct p.
    + cbn [starts_with]. now rewrite IH.
Qed.

Lemma cnt_lines :
  forall s b,
    cnt b s
    = (if b && starts_with DONE_BOX (hd [] (lines s)) then 1 else 0)
      + length (filter (starts_with DONE_BOX) (tl (lines s))).
Proof.
  induction s as [|c t IH]; intros b.
  - cbn [cnt lines hd tl filter length]. reflexivity.
  - cbn [cnt]. rewrite IH.
    rewrite (starts_with_first_line DONE_BOX eq_refl (c :: t)).
    cbn [lines]. destruct (c =? NL)%N; cbn [hd tl].
    + rewrite andb_false_r. cbn [andb].
      destruct (lines t) as [|l ls]; cbn [hd tl filter]; [reflexivity|].
      destruct (starts_with DONE_BOX l); reflexivity.
    + cbn [andb]. destruct (lines t) as [|l ls]; reflexivity.
Qed.

(** The count that [update_summary_counts] writes is the number of lines
    of the block that begin with [- [x]]. *)
Lemma findall_len_done_re (s : text) :
  findall_len done_re s = count_done_lines s.
Proof.
  unfold findall_len, count_done_lines. rewrite count_aux_done_re.
  cbn [at_bol]. rewrite cnt_lines. cbn [andb].
  destruct (lines s) as [|l ls]; cbn [hd tl filter]; [reflexivity|].
  destruct (starts_with DONE_BOX l); reflexivity.
Qed.

(** ** [update_summary_counts] *)

(** [re.sub] up to the end of the match that [re.search] finds. *)
Lemma sub_aux_search (r : re) (repl : text -> caps -> text) :
  forall s prev pre mt,
    search_from r prev pre s = Some mt ->
    whole mt <> [] ->
    exists a,
      before mt = rev pre ++ a /\
      sub_aux r repl 0 prev s
      = a ++ repl (whole mt) (groups mt)
          ++ sub_aux r repl 0 (prev_after prev (a ++ whole mt)) (after mt).
Proof.
  induction s as [|x t IH]; intros prev pre mt H N.
  - cbn [search_from] in H.
    destruct (m r prev []) as [|[[c s'] k] tl] eqn:E; [discriminate|].
    inversion H; subst mt. cbn [whole] in N.
    assert (In (c, s', k) (m r prev [])) as Hin by (rewrite E; now left).
    apply m_sound in Hin. destruct c; [congruence|discriminate].
  - cbn [search_from] in H. cbn [sub_aux]. unfold match_here.
    destruct (m r prev (x :: t)) as [|[[c s'] k] tl] eqn:E.
    + destruct (IH _ _ _ H N) as (a & Ha & Hs).
      exists (x :: a). split.
      * rewrite Ha. cbn [rev]. now rewrite <- app_assoc.
      * rewrite Hs. reflexivity.
    + inversion H; subst mt. cbn [whole before after groups] in *.
      assert (In (c, s', k) (m r prev (x :: t))) as Hin
        by (rewrite E; now left).
      apply m_sound in Hin. destruct c as [|y c]; [congruence|].
      cbn [app] in Hin. inversion Hin; subst y t.
      exists []. split; [now rewrite app_nil_r|].
      cbn [app]. now rewrite sub_aux_skip.
Qed.

(** *** Where a summary line can start *)

Lemma forallb_impl {A} (P Q : A -> bool) (l : list A) :
  (forall x, P x = true -> Q x = true) ->
  forallb P l = true -> forallb Q l = true.
Proof.
  intros I. induction l as [|x l IH]; [reflexivity|].
  cbn [forallb]. intros H. apply andb_prop in H as [Hx H].
  now rewrite (I _ Hx), IH.
Qed.

Lemma space_not_hash (c : char) :
  is_space c = true -> not_char 35%N c = true.
Proof.
  intros H. unfold not_char. destruct (35 =? c)%N eqn:E; [|reflexivity].
  apply N.eqb_eq in E. subst c. discriminate.
Qed.

Lemma decimal_not_hash (c : char) :
  is_decimal c = true -> not_char 35%N c = true.
Proof.
  intros H. unfold not_char. destruct (35 =? c)%N eqn:E; [|reflexivity].
  apply N.eqb_eq in E. subst c. discriminate.
Qed.

(** A summary line starts with two hash signs and has no other. *)
Lemma summary_line_hash (ws d p : text) :
  forallb is_space ws = true ->
  forallb is_decimal d = true ->
  forallb is_decimal p = true ->
  exists ct,
    summary_line ws d p = 35%N :: 35%N :: 32%N :: ct /\
    forallb (not_char 35%N) ct = true.
Proof.
  intros W D P.
  exists (str "Progress Summary" ++ ws ++ NL :: str "- Total: " ++ d
            ++ str " done / " ++ p ++ str " planned").
  split; [reflexivity|].
  rewrite forallb_app. apply andb_true_intro. split; [reflexivity|].
  rewrite forallb_app. apply andb_true_intro.
  split; [now apply (forallb_impl _ _ _ space_not_hash)|].
  change (NL :: str "- Total: " ++ d ++ str " done / " ++ p
            ++ str " planned")
    with ((NL :: str "- Total: ") ++ d ++ str " done / " ++ p
            ++ str " planned").
  rewrite !forallb_app.
  rewrite (forallb_impl _ _ _ decimal_not_hash D).
  rewrite (forallb_impl _ _ _ decimal_not_hash P).
  reflexivity.
Qed.

(** A summary line that starts before a heading ends before it. *)
Lemma summary_line_before_heading (ws d p s1 pre tail : text) :
  forallb is_space ws = true ->
  forallb is_decimal d = true ->
  forallb is_decimal p = true ->
  summary_line ws d p ++ s1 = pre ++ 35%N :: 35%N :: tail ->
  pre <> [] ->
  exists t2, pre = summary_line ws d p ++ t2.
Proof.
  intros W D P E N.
  destruct (@summary_line_hash ws d p W D P) as (ct & C & F).
  set (c := summary_line ws d p) in *.
  destruct (Nat.le_gt_cases (length c) (length pre)) as [L|L].
  - destruct (app_eq_app_le c pre s1 (35%N :: 35%N :: tail) E L)
      as [t2 [-> _]].
    now exists t2.
  - exfalso. symmetry in E.
    destruct (app_eq_app_le pre c (35%N :: 35%N :: tail) s1 E)
      as [u [Ec Eu]]; [lia|].
    rewrite C in Ec, L. clear C E.
    destruct pre as [|x pre]; [congruence|].
    destruct pre as [|y pre].
    { cbn [app] in Ec. inversion Ec; subst.
      cbn [app] in Eu. inversion Eu. }
    destruct pre as [|z pre].
    { cbn [app] in Ec. inversion Ec; subst.
      cbn [app] in Eu. inversion Eu. }
    cbn [app] in Ec. inversion Ec; subst.
    destruct u as [|a u].
    + rewrite app_nil_r in L. cbn [length] in L. lia.
    + cbn [app] in Eu. inversion Eu; subst.
      rewrite forallb_app in F. apply andb_prop in F as [_ F].
      discriminate.
Qed.

Lemma app_cons_assoc {A} (a : list A) (x : A) (r : list A) :
  a ++ x :: r = (a ++ [x]) ++ r.
Proof. now rewrite <- app_assoc. Qed.

(** A run of one class before a character outside it is determined. *)
Lemma run_unique (P : char -> bool) :
  forall a a' x x' r r',
    forallb P a = true -> forallb P a' = true ->
    P x = false -> P x' = false ->
    a ++ x :: r = a' ++ x' :: r' ->
    a = a' /\ x :: r = x' :: r'.
Proof.
  induction a as [|c a IH]; intros a' x x' r r' A A' X X' E.
  - destruct a' as [|c' a']; [now split|].
    cbn [app forallb] in *. inversion E; subst.
    apply andb_prop in A' as [A' _]. congruence.
  - destruct a' as [|c' a'].
    + cbn [app forallb] in *. inversion E; subst.
      apply andb_prop in A as [A _]. congruence.
    + cbn [app forallb] in *. inversion E; subst.
      apply andb_prop in A as [_ A]. apply andb_prop in A' as [_ A'].
      destruct (IH a' x x' r r' A A' X X' H1) as [-> R]. now split.
Qed.

(** The parts of a summary line are determined by the text it starts. *)
Lemma summary_line_unique (ws d p s ws' d' p' s' : text) :
  forallb is_space ws = true -> forallb is_space ws' = true ->
  forallb is_decimal d = true -> forallb is_decimal d' = true ->
  forallb is_decimal p = true -> forallb is_decimal p' = true ->
  summary_line ws d p ++ s = summary_line ws' d' p' ++ s' ->
  ws = ws' /\ d = d' /\ p = p' /\ s = s'.
Proof.
  intros W W' D D' P P' E. unfold summary_line in E.
  revert E. norm_app. intros E. apply app_inv_head in E.
  change (ws ++ NL :: str "- Total: " ++ d ++ str " done / " ++ p
            ++ str " planned" ++ s)
    with (ws ++ NL :: 45%N :: str " Total: " ++ d ++ str " done / " ++ p
            ++ str " planned" ++ s) in E.
  change (ws' ++ NL :: str "- Total: " ++ d' ++ str " done / " ++ p'
            ++ str " planned" ++ s')
    with (ws' ++ NL :: 45%N :: str " Total: " ++ d' ++ str " done / " ++ p'
            ++ str " planned" ++ s') in E.
  rewrite (app_cons_assoc ws NL), (app_cons_assoc ws' NL) in E.
  apply (run_unique is_space) in E as [E1 E2]; try reflexivity;
    try (rewrite forallb_app; apply andb_true_intro; now split).
  apply app_inj_tail in E1 as [-> _].
  inversion E2 as [E3]. clear E2.
  apply (run_unique is_decimal) in E3 as [-> E4]; try reflexivity;
    try assumption.
  inversion E4 as [E5]. clear E4.
  apply (run_unique is_decimal) in E5 as [-> E6]; try reflexivity;
    try assumption.
  inversion E6. now subst.
Qed.

(** [re.sub] at the start of a summary line replaces that line. *)
Lemma sub_aux_at_line (n : text) (prev : option char)
    (ws d p post : text) :
  at_bol prev = true ->
  forallb is_space ws = true ->
  forallb is_decimal d = true -> d <> [] ->
  forallb is_decimal p = true -> p <> [] ->
  (post = [] \/ exists t, post = NL :: t) ->
  sub_aux summary_re
    (fun _ k => group 1 k ++ n ++ str " done / 150 planned") 0 prev
    (summary_line ws d p ++ post)
  = summary_line ws n (str "150")
      ++ sub_aux summary_re
           (fun _ k => group 1 k ++ n ++ str " done / 150 planned") 0
           (prev_after prev (summary_line ws d p)) post.
Proof.
  intros B W D Dn P Pn Z.
  set (repl := fun (_ : text) (k : caps) =>
                 group 1 k ++ n ++ str " done / 150 planned").
  set (s := summary_line ws d p ++ post).
  assert (In (summary_line ws d p, post,
              [(1, str "## Progress Summary" ++ ws ++ NL :: str "- Total: ")])
            (m summary_re prev s)) as Hin.
  { apply in_m_summary_re. exists ws, d, p.
    split; [reflexivity|]. split; [reflexivity|].
    split; [reflexivity|]. auto 10. }
  destruct (m summary_re prev s) as [|[[c s1] k] tl] eqn:E;
    [destruct Hin|].
  assert (In (c, s1, k) (m summary_re prev s)) as H1
    by (rewrite E; now left).
  apply in_m_summary_re in H1
    as (ws' & d' & p' & -> & S & -> & _ & W' & D' & _ & P' & _).
  unfold s in S.
  destruct (@summary_line_unique ws d p post ws' d' p' s1)
    as (<- & <- & <- & <-); trivial.
  assert (exists x c', summary_line ws d p = x :: c') as (x & c' & C)
    by (now eexists _, _).
  assert (sub_aux summary_re repl 0 prev s
          = repl (summary_line ws d p)
              [(1, str "## Progress Summary" ++ ws ++ NL :: str "- Total: ")]
            ++ sub_aux summary_re repl (length c') (Some x) (c' ++ post))
    as R.
  { unfold s. rewrite C. cbn [app sub_aux]. unfold match_here.
    change (x :: c' ++ post) with ((x :: c') ++ post).
    rewrite <- C. fold s. rewrite E. rewrite C. reflexivity. }
  rewrite R, sub_aux_skip. rewrite C. cbn [prev_after fold_left].
  f_equal. unfold repl, summary_line, group.
  cbn [rev app find fst snd Nat.eqb]. now norm_app.
Qed.

Lemma sub_aux_hit (r : re) (repl : text -> caps -> text)
    (prev : option char) (c s1 : text) (k : caps) (tl : list hit) :
  m r prev (c ++ s1) = (c, s1, k) :: tl -> c <> [] ->
  sub_aux r repl 0 prev (c ++ s1)
  = repl c k ++ sub_aux r repl 0 (prev_after prev c) s1.
Proof.
  intros H N. destruct c as [|x c']; [congruence|].
  cbn [app sub_aux]. unfold match_here.
  change (x :: c' ++ s1) with ((x :: c') ++ s1). rewrite H.
  now rewrite sub_aux_skip.
Qed.

Lemma sub_aux_miss (r : re) (repl : text -> caps -> text)
    (prev : option char) (x : char) (t : text) :
  m r prev (x :: t) = [] ->
  sub_aux r repl 0 prev (x :: t) = x :: sub_aux r repl 0 (Some x) t.
Proof. intros H. cbn [sub_aux]. unfold match_here. now rewrite H. Qed.

(** [re.sub] in front of text that starts with two hash signs: the
    matches that start there end there. *)
Lemma sub_aux_upto (n : text) (tail : text) :
  forall pre prev,
    exists pre',
      sub_aux summary_re
        (fun _ k => group 1 k ++ n ++ str " done / 150 planned") 0 prev
        (pre ++ 35%N :: 35%N :: tail)
      = pre'
          ++ sub_aux summary_re
               (fun _ k => group 1 k ++ n ++ str " done / 150 planned") 0
               (prev_after prev pre) (35%N :: 35%N :: tail)
      /\ summary_rewrite n pre pre'.
Proof.
  set (repl := fun (_ : text) (k : caps) =>
                 group 1 k ++ n ++ str " done / 150 planned").
  induction pre as [pre IH] using (induction_ltof1 _ (@length char)).
  unfold ltof in IH. intros prev.
  destruct pre as [|x t].
  - exists []. split; [reflexivity|constructor].
  - destruct (m summary_re prev ((x :: t) ++ 35%N :: 35%N :: tail))
      as [|[[c s1] k] tl] eqn:E.
    + assert (length t < length (x :: t)) as L by (simpl; lia).
      destruct (IH t L (Some x)) as (t' & Ht & Rt).
      exists (x :: t'). split; [|now apply sr_keep].
      cbn [app] in *.
      etransitivity; [apply sub_aux_miss; exact E|].
      now rewrite Ht.
    + assert (In (c, s1, k)
                (m summary_re prev ((x :: t) ++ 35%N :: 35%N :: tail)))
        as H1 by (rewrite E; now left).
      apply in_m_summary_re in H1
        as (ws & d & p & -> & S & -> & _ & W & D & Dn & P & Pn & _).
      symmetry in S.
      destruct (@summary_line_before_heading ws d p s1 (x :: t) tail)
        as [t2 Et]; trivial; [discriminate|].
      assert (s1 = t2 ++ 35%N :: 35%N :: tail) as ->.
      { rewrite Et, <- app_assoc in S. now apply app_inv_head in S. }
      assert (length t2 < length (x :: t)) as L.
      { rewrite Et, length_app.
        destruct (@summary_line_hash ws d p W D P) as (ct & -> & _).
        cbn [length]. lia. }
      destruct (IH t2 L (prev_after prev (summary_line ws d p)))
        as (t2' & Ht & Rt).
      exists (summary_line ws n (str "150") ++ t2'). split.
      * rewrite Et in *. rewrite <- app_assoc in *.
        etransitivity; [eapply sub_aux_hit; [exact E|discriminate]|].
        rewrite <- (app_assoc (summary_line ws n (str "150"))).
        f_equal; [|rewrite prev_after_app; exact Ht].
        unfold repl, summary_line, group.
        cbn [rev app find fst snd Nat.eqb]. now norm_app.
      * rewrite Et. now apply sr_line.
Qed.

(** [update_summary_counts] rewrites a given summary line in place, with
    the count of the region of the document it was given. *)
Lemma update_summary_counts_line
    (readme region pre ws d p post : text) :
  between_markers readme = Some region ->
  readme = pre ++ summary_line ws d p ++ post ->
  at_bol (prev_after None pre) = true ->
  forallb is_space ws = true ->
  forallb is_decimal d = true -> d <> [] ->
  forallb is_decimal p = true -> p <> [] ->
  (post = [] \/ exists t, post = NL :: t) ->
  exists pre' post',
    update_summary_counts readme
    = Ok (pre'
            ++ summary_line ws (decimal (count_done_lines region))
                 (str "150")
            ++ post') /\
    summary_rewrite (decimal (count_done_lines region)) pre pre' /\
    summary_rewrite (decimal (count_done_lines region)) post post'.
Proof.
  intros R E B W D Dn P Pn Z.
  rewrite update_summary_counts_eq, extract_between, R, findall_len_done_re.
  set (n := decimal (count_done_lines region)).
  destruct (@summary_line_hash ws d p W D P) as (ct & C & _).
  unfold sub.
  destruct (sub_aux_upto n (32%N :: ct ++ post) pre None)
    as (pre' & Hs & Rp).
  change (35%N :: 35%N :: 32%N :: ct ++ post)
    with ((35%N :: 35%N :: 32%N :: ct) ++ post) in Hs.
  rewrite <- C in Hs.
  pose proof (@sub_aux_at_line n (prev_after None pre) ws d p post
                B W D Dn P Pn Z) as A.
  eexists pre', _. split.
  - rewrite E. f_equal. etransitivity; [exact Hs|]. f_equal. exact A.
  - split; [exact Rp|apply sub_summary_rewrite].
Qed.


(** ** Done lines are kept *)

Lemma starts_with_done_app (x y : text) :
  no_cross y = true -> x <> [] ->
  starts_with DONE_BOX (x ++ y) = starts_with DONE_BOX x.
Proof.
  unfold no_cross. intros H N.
  apply andb_prop in H as [H H4]. apply andb_prop in H as [H H3].
  apply andb_prop in H as [H1 H2].
  apply negb_true_iff in H1, H2, H3, H4.
  change DONE_BOX with [45; 32; 91; 120; 93]%N.
  change (str " [x]") with [32; 91; 120; 93]%N in H1.
  change (str "[x]") with [91; 120; 93]%N in H2.
  change (str "x]") with [120; 93]%N in H3.
  change (str "]") with [93]%N in H4.
  destruct x as [|a [|b [|c [|d [|e x]]]]]; [congruence|..];
    cbn [app]; cbn [starts_with]; cbn [starts_with] in H1, H2, H3, H4;
    rewrite ?H1, ?H2, ?H3, ?H4, ?andb_false_r; reflexivity.
Qed.

Lemma cnt_app (y : text) :
  no_cross y = true ->
  forall x b, cnt b (x ++ y) = cnt b x + cnt (bol_after b x) y.
Proof.
  intros H. induction x as [|c x IH]; intros b.
  - cbn [app cnt bol_after starts_with]. rewrite andb_false_r. reflexivity.
  - cbn [app cnt bol_after]. rewrite IH.
    change (c :: x ++ y) with ((c :: x) ++ y).
    rewrite starts_with_done_app by (trivial; discriminate). lia.
Qed.

Lemma cnt_bol_le (b : bool) (y : text) : cnt false y <= cnt b y.
Proof. destruct y; cbn [cnt andb]; lia. Qed.

Lemma cnt_le_true (b : bool) (y : text) : cnt b y <= cnt true y.
Proof. destruct b, y; cbn [cnt andb]; lia. Qed.

Lemma cnt_tail (y z : text) :
  forall b, cnt (bol_after b z) y <= cnt b (z ++ y).
Proof.
  induction z as [|c z IH]; intros b; [reflexivity|].
  cbn [app cnt bol_after]. specialize (IH (c =? NL)%N). lia.
Qed.

Lemma cnt_space (ws : text) :
  forallb is_space ws = true -> forall b, cnt b ws = 0.
Proof.
  induction ws as [|w ws IH]; intros H b.
  - cbn [cnt starts_with]. now rewrite andb_false_r.
  - cbn [forallb] in H. apply andb_prop in H as [Hw H].
    cbn [cnt]. rewrite IH by assumption.
    change DONE_BOX with (45 :: str " [x]")%N. cbn [starts_with].
    destruct (45 =? w)%N eqn:E.
    + apply N.eqb_eq in E. subst w. discriminate.
    + rewrite andb_false_r. reflexivity.
Qed.

(** Text that is empty or starts with a heading. *)
Lemma no_cross_heading (post : text) :
  post = [] \/ starts_with (str "## ") post = true -> no_cross post = true.
Proof.
  intros [->|H]; [reflexivity|].
  apply starts_with_iff in H as [t ->]. reflexivity.
Qed.

Lemma cnt_heading (post : text) (b : bool) :
  post = [] \/ starts_with (str "## ") post = true ->
  cnt b post = cnt true post.
Proof.
  intros [->|H]; [now destruct b|].
  apply starts_with_iff in H as [t ->]. now destruct b.
Qed.

Lemma no_cross_space (ws post : text) :
  forallb is_space ws = true ->
  post = [] \/ starts_with (str "## ") post = true ->
  no_cross (ws ++ post) = true.
Proof.
  intros W P. destruct ws as [|w ws]; [now apply no_cross_heading|].
  cbn [forallb] in W. apply andb_prop in W as [Hw W].
  unfold no_cross.
  change (str " [x]") with [32; 91; 120; 93]%N.
  change (str "[x]") with [91; 120; 93]%N.
  change (str "x]") with [120; 93]%N.
  change (str "]") with [93]%N.
  cbn [app starts_with].
  assert ((91 =? w)%N = false) as E1
    by (destruct (91 =? w)%N eqn:E; [apply N.eqb_eq in E; now subst|easy]).
  assert ((120 =? w)%N = false) as E2
    by (destruct (120 =? w)%N eqn:E; [apply N.eqb_eq in E; now subst|easy]).
  assert ((93 =? w)%N = false) as E3
    by (destruct (93 =? w)%N eqn:E; [apply N.eqb_eq in E; now subst|easy]).
  rewrite E1, E2, E3. cbn [andb negb]. rewrite !andb_true_r.
  destruct (32 =? w)%N; [|reflexivity]. cbn [andb].
  destruct ws as [|w2 ws].
  - cbn [app]. destruct P as [->|P]; [reflexivity|].
    apply starts_with_iff in P as [t ->]. reflexivity.
  - cbn [forallb] in W. apply andb_prop in W as [Hw2 _].
    cbn [app starts_with].
    destruct (91 =? w2)%N eqn:E; [|reflexivity].
    apply N.eqb_eq in E. now subst.
Qed.

(** *** [str.replace] of the placeholder *)

Lemma replace_aux_skip (old new : text) :
  forall u s,
    replace_aux old new (length u) (u ++ s) = replace_aux old new 0 s.
Proof.
  induction u as [|x u IH]; intros s; [reflexivity|].
  cbn [length app replace_aux]. apply IH.
Qed.

Lemma replace_placeholder_nil (z : text) : replace PLACEHOLDER z [] = [].
Proof. reflexivity. Qed.

Lemma replace_placeholder_hit (z s : text) :
  replace PLACEHOLDER z (PLACEHOLDER ++ s) = z ++ replace PLACEHOLDER z s.
Proof.
  change (replace PLACEHOLDER z (PLACEHOLDER ++ s))
    with (replace_aux PLACEHOLDER z 0 (PLACEHOLDER ++ s)).
  change (PLACEHOLDER ++ s) with (40%N :: str "none yet)" ++ s) at 1.
  cbn [replace_aux].
  change (40%N :: str "none yet)" ++ s) with (PLACEHOLDER ++ s).
  rewrite starts_with_app.
  change (length PLACEHOLDER - 1) with (length (str "none yet)")).
  now rewrite replace_aux_skip.
Qed.

Lemma replace_placeholder_miss (z : text) (c : char) (t : text) :
  starts_with PLACEHOLDER (c :: t) = false ->
  replace PLACEHOLDER z (c :: t) = c :: replace PLACEHOLDER z t.
Proof.
  intros H.
  change (replace PLACEHOLDER z (c :: t))
    with (replace_aux PLACEHOLDER z 0 (c :: t)).
  cbn [replace_aux]. now rewrite H.
Qed.

(** A prefix without an opening parenthesis survives the replacement. *)
Lemma starts_with_replace (z y : text) :
  forall p,
    forallb (fun c => negb (c =? 40)%N) p = true ->
    forall s,
      starts_with p (s ++ y) = true ->
      starts_with p (replace PLACEHOLDER z s ++ y) = true.
Proof.
  induction p as [|a p IH]; intros H s S; [reflexivity|].
  cbn [forallb] in H. apply andb_prop in H as [Ha H].
  destruct s as [|c t]; [exact S|].
  cbn [app starts_with] in S. apply andb_prop in S as [E S].
  apply N.eqb_eq in E. subst c.
  rewrite replace_placeholder_miss.
  - cbn [app starts_with]. rewrite N.eqb_refl. now apply IH.
  - change PLACEHOLDER with (40%N :: str "none yet)"). cbn [starts_with].
    apply negb_true_iff in Ha. rewrite N.eqb_sym, Ha. reflexivity.
Qed.

Lemma cnt_placeholder (b : bool) (w : text) :
  cnt b (PLACEHOLDER ++ w) = cnt false w.
Proof. now destruct b. Qed.

Lemma cnt_replace (z y : text) :
  forall s b,
    cnt b (s ++ y) <= cnt b (replace PLACEHOLDER z s ++ y).
Proof.
  induction s as [s IH] using (induction_ltof1 _ (@length char)).
  unfold ltof in IH. intros b.
  destruct s as [|c t]; [reflexivity|].
  destruct (starts_with PLACEHOLDER (c :: t)) eqn:E.
  - apply starts_with_iff in E as [s' E]. rewrite E.
    rewrite replace_placeholder_hit. rewrite <- !app_assoc.
    rewrite cnt_placeholder.
    assert (length s' < length (c :: t)) as L
      by (rewrite E, length_app; simpl; lia).
    pose proof (IH s' L false).
    pose proof (cnt_tail (replace PLACEHOLDER z s' ++ y) z b).
    pose proof (cnt_bol_le (bol_after b z) (replace PLACEHOLDER z s' ++ y)).
    lia.
  - rewrite replace_placeholder_miss by assumption.
    cbn [app cnt].
    assert (length t < length (c :: t)) as L by (simpl; lia).
    pose proof (IH t L (c =? NL)%N).
    destruct (b && starts_with DONE_BOX (c :: t ++ y)) eqn:S.
    + apply andb_prop in S as [-> S].
      change (c :: t ++ y) with ((c :: t) ++ y) in S.
      apply (starts_with_replace z y DONE_BOX eq_refl) in S.
      rewrite replace_placeholder_miss in S by assumption.
      cbn [app] in S. rewrite S. cbn [andb]. lia.
    + lia.
Qed.

Lemma starts_with_replace_in (z y s : text) :
  forall x p,
    forallb (fun c => negb (c =? 40)%N) p = true ->
    starts_with p (x ++ s ++ y) = true ->
    starts_with p (x ++ replace PLACEHOLDER z s ++ y) = true.
Proof.
  induction x as [|c x IH]; intros p H S.
  - cbn [app] in *. now apply starts_with_replace.
  - destruct p as [|a p]; [reflexivity|].
    cbn [forallb] in H. apply andb_prop in H as [_ H].
    cbn [app starts_with] in *. apply andb_prop in S as [-> S].
    now apply IH.
Qed.

Lemma cnt_replace_in (z y : text) (s : text) :
  forall x b,
    cnt b (x ++ s ++ y) <= cnt b (x ++ replace PLACEHOLDER z s ++ y).
Proof.
  induction x as [|c x IH]; intros b; [cbn [app]; apply cnt_replace|].
  cbn [app cnt]. specialize (IH (c =? NL)%N).
  destruct (b && starts_with DONE_BOX (c :: x ++ s ++ y)) eqn:S; [|lia].
  apply andb_prop in S as [-> S]. cbn [andb].
  change (c :: x ++ s ++ y) with ((c :: x) ++ s ++ y) in S.
  apply (starts_with_replace_in z y s (c :: x) DONE_BOX eq_refl) in S.
  cbn [app] in S. rewrite S. lia.
Qed.

(** *** [str.rstrip] *)

Lemma lstrip_split (s : text) :
  exists ws, s = ws ++ lstrip s /\ forallb is_space ws = true.
Proof.
  induction s as [|c t [ws [E W]]].
  - now exists [].
  - cbn [lstrip]. destruct (is_space c) eqn:C.
    + exists (c :: ws). cbn [app forallb]. rewrite C, W. now rewrite <- E.
    + now exists [].
Qed.

(** A text is its [rstrip] followed by whitespace. *)
Lemma rstrip_split (s : text) :
  exists ws, s = rstrip s ++ ws /\ forallb is_space ws = true.
Proof.
  destruct (lstrip_split (rev s)) as [ws [E W]].
  exists (rev ws). split.
  - unfold rstrip. rewrite <- rev_app_distr, <- E. now rewrite rev_involutive.
  - apply forallb_forall. intros x Hx. apply in_rev in Hx.
    rewrite forallb_forall in W. now apply W.
Qed.

Lemma bol_after_app (x y : text) :
  forall b, bol_after b (x ++ y) = bol_after (bol_after b x) y.
Proof. induction x as [|c x IH]; intros b; [reflexivity|apply IH]. Qed.

Lemma count_done_lines_cnt (s : text) : count_done_lines s = cnt true s.
Proof. rewrite <- findall_len_done_re. apply count_aux_done_re. Qed.

(** Stripping the whitespace at the end of [x ++ ws] and putting text
    that starts with a newline there loses no done line. *)
Lemma cnt_restart (x ws z post : text) :
  forallb is_space ws = true ->
  post = [] \/ starts_with (str "## ") post = true ->
  cnt true (x ++ ws ++ post) <= cnt true (x ++ (NL :: z ++ [NL]) ++ post).
Proof.
  intros W P.
  rewrite (cnt_app (ws ++ post)) by now apply no_cross_space.
  rewrite (cnt_app post) by now apply no_cross_heading.
  rewrite (cnt_space ws W).
  rewrite (cnt_heading _ P).
  rewrite (cnt_app ((NL :: z ++ [NL]) ++ post)) by reflexivity.
  pose proof (cnt_tail post (NL :: z ++ [NL]) (bol_after true x)) as T.
  change (NL :: z ++ [NL]) with ((NL :: z) ++ [NL]) in T at 1.
  rewrite bol_after_app in T. cbn [bol_after] in T.
  change (NL =? NL)%N with true in T. lia.
Qed.

(** *** One call with [done = false] *)

Lemma cnt_new_section_body (x body post name link path : text) :
  post = [] \/ starts_with (str "## ") post = true ->
  cnt true (x ++ body ++ post)
  <= cnt true (x ++ new_section_body body name link path false ++ post).
Proof.
  intros P. unfold new_section_body.
  destruct (contains PLACEHOLDER body).
  - apply cnt_replace_in.
  - destruct (search _ body); [reflexivity|].
    destruct (rstrip_split body) as [ws [E W]].
    rewrite E at 1.
    replace (x ++ (rstrip body ++ ws) ++ post)
      with ((x ++ rstrip body) ++ ws ++ post) by now norm_app.
    replace (x ++ (rstrip body ++ [NL] ++ entry_line name link path false
                     ++ [NL]) ++ post)
      with ((x ++ rstrip body)
              ++ (NL :: entry_line name link path false ++ [NL]) ++ post)
      by now norm_app.
    now apply cnt_restart.
Qed.

Lemma add_not_done_count (b T name link path : text) :
  exists out,
    add_problem_checkbox b T name link path false = Ok out /\
    count_done_lines b <= count_done_lines out.
Proof.
  destruct (add_problem_checkbox_eq b T name link path false)
    as [mt [S E]].
  eexists. split; [exact E|].
  rewrite !count_done_lines_cnt.
  destruct (search_section_re _ _ S)
    as (ws & body & D & G1 & G2 & _ & _ & _ & Z).
  rewrite G1, G2.
  assert (after mt = [] \/ starts_with (str "## ") (after mt) = true) as P
    by (destruct Z as [[_ Z]|Z]; auto).
  apply Nat.le_trans
    with (cnt true (before mt ++ (str "## " ++ T ++ ws) ++ body ++ after mt)).
  - rewrite <- D. destruct (search (section_re T) b) eqn:F; [reflexivity|].
    unfold upsert_category_block.
    rewrite (search_category_section _ _ F).
    destruct (rstrip_split b) as [w [Eb W]].
    rewrite Eb at 1.
    rewrite (cnt_app w)
      by (rewrite <- (app_nil_r w); apply no_cross_space; auto).
    rewrite (cnt_app (new_section T)) by reflexivity.
    rewrite (cnt_space w W). lia.
  - rewrite !(app_assoc (before mt)). now apply cnt_new_section_body.
Qed.

Lemma search_lits_contains (p : text) :
  forall s prev pre,
    search_from (lits p) prev pre s = None <-> contains p s = false.
Proof.
  induction s as [|x t IH]; intros prev pre; cbn [search_from contains];
    rewrite m_lits.
  - destruct (starts_with p []); cbn [orb]; split; congruence.
  - destruct (starts_with p (x :: t)); cbn [orb].
    + split; congruence.
    + apply IH.
Qed.

Lemma contains_suffix (a p : text) :
  forall s, contains (a ++ p) s = true -> contains p s = true.
Proof.
  assert (forall s, starts_with (a ++ p) s = true -> contains p s = true)
    as H.
  { induction a as [|c a IH]; intros s S.
    - cbn [app] in S. destruct s; cbn [contains]; now rewrite S.
    - destruct s as [|x t]; [discriminate|].
      cbn [app starts_with] in S. apply andb_prop in S as [_ S].
      cbn [contains]. rewrite (IH _ S). apply orb_true_r. }
  induction s as [|x t IH]; intros C; cbn [contains] in C;
    apply orb_prop in C as [C|C]; try discriminate; try now apply H.
  cbn [contains]. rewrite (IH C). apply orb_true_r.
Qed.

(** With [done = false], an entry that is there and no placeholder: the
    block comes back as it was. *)
Lemma add_not_done_noop (b T name link path head body : text) :
  section_of T b = Some (head, body) ->
  contains PLACEHOLDER body = false ->
  contains (str "[" ++ name ++ str "](") body = true ->
  add_problem_checkbox b T name link path false = Ok b.
Proof.
  unfold section_of. intros S C N.
  destruct (search (section_re T) b) as [mt|] eqn:F; [|discriminate].
  inversion S as [[G1 G2]]. clear S.
  unfold add_problem_checkbox. rewrite F, G1, G2.
  unfold new_section_body. rewrite C.
  destruct (search (lits (str "[" ++ name ++ str "](")) body) eqn:L.
  - f_equal. destruct (search_section_re _ _ F) as (ws & bd & D & H1 & H2 & _).
    rewrite D. rewrite <- G1, <- G2, H1, H2. now norm_app.
  - apply search_lits_contains in L. congruence.
Qed.

Lemma add_all_count (T name : text) :
  forall calls b,
    exists out,
      add_all T name calls b = Ok out /\
      count_done_lines b <= count_done_lines out.
Proof.
  induction calls as [|[link path] calls IH]; intros b.
  - exists b. now split.
  - destruct (add_not_done_count b T name link path) as (b1 & E & L).
    destruct (IH b1) as (out & E1 & L1).
    exists out. cbn [add_all]. rewrite E. cbn [bind].
    split; [exact E1|lia].
Qed.

Lemma add_all_noop (T name b head body : text) :
  section_of T b = Some (head, body) ->
  contains PLACEHOLDER body = false ->
  contains (str "[" ++ name ++ str "](") body = true ->
  forall calls, add_all T name calls b = Ok b.
Proof.
  intros S C N. induction calls as [|[link path] calls IH]; [reflexivity|].
  cbn [add_all].
  rewrite (@add_not_done_noop b T name link path head body S C N).
  exact IH.
Qed.

(** In a block whose section for the category has a done entry line for
    the name, any sequence of [add_problem_checkbox] calls for that category
    and name with [done = false] returns normally, the number of lines that
    begin with [- [x]] does not go down, and when the section has no
    placeholder the block comes back byte for byte. *)
Theorem add_problem_checkbox_keeps_done (b T name head body : text)
    (calls : list (text * text)) :
  section_of T b = Some (head, body) ->
  contains (str "- [x] [" ++ name ++ str "](") body = true ->
  exists out,
    add_all T name calls b = Ok out /\
    count_done_lines b <= count_done_lines out /\
    (contains PLACEHOLDER body = false -> out = b).
Proof.
  intros S N.
  destruct (add_all_count T name calls b) as (out & E & L).
  exists out. split; [exact E|]. split; [exact L|].
  intros C.
  assert (contains (str "[" ++ name ++ str "](") body = true) as N'
    by (apply (contains_suffix (str "- [x] ")); exact N).
  rewrite (@add_all_noop T name b head body S C N' calls) in E.
  now inversion E.
Qed.

Lemma add_problem_checkbox_keeps_done_witness :
  section_of (str "Arrays") block_two_sum_done
  = Some (str "## Arrays" ++ [NL],
          str "- [x] [Two Sum](http://x) " ++ [EM_DASH]
            ++ str " `arrays/two_sum.py`" ++ [NL; NL]) /\
  exists out,
    add_all (str "Arrays") (str "Two Sum")
      [(str "http://y", str "arrays/two_sum.py"); (str "l", str "p")]
      block_two_sum_done = Ok out /\
    count_done_lines block_two_sum_done <= count_done_lines out /\
    out = block_two_sum_done.
Proof.
  split; [vm_compute; reflexivity|].
  destruct (@add_problem_checkbox_keeps_done block_two_sum_done
              (str "Arrays") (str "Two Sum") (str "## Arrays" ++ [NL])
              (str "- [x] [Two Sum](http://x) " ++ [EM_DASH]
                 ++ str " `arrays/two_sum.py`" ++ [NL; NL])
              [(str "http://y", str "arrays/two_sum.py"); (str "l", str "p")])
    as (out & E & L & K); [vm_compute; reflexivity..|].
  exists out. split; [exact E|]. split; [exact L|].
  apply K. vm_compute; reflexivity.
Defined.

(** ** [replace_progress_block] with a block without backslashes *)

(** A new block without a backslash is put between the first pair of
    markers as it is, and the text before that pair is kept. *)
Lemma replace_progress_block_literal (readme new_block a rest r b : text) :
  no_backslash new_block = true ->
  find_first PROGRESS_START readme = Some (a, rest) ->
  find_first PROGRESS_END rest = Some (r, b) ->
  exists b',
    replace_progress_block readme new_block
    = Ok (a ++ PROGRESS_START ++ new_block ++ PROGRESS_END ++ b').
Proof.
  intros N F G. unfold replace_progress_block.
  pose proof (search_progress_re readme) as S. rewrite F, G in S.
  rewrite S. unfold sub_template.
  rewrite parse_template_literal;
    [|lia|rewrite !no_backslash_app, N; reflexivity].
  unfold sub, search in *.
  destruct (sub_aux_search progress_re
              (expand (map TLit (PROGRESS_START ++ new_block ++ PROGRESS_END)))
              _ _ _ S) as (a' & Ha & Hs).
  { cbn [whole]. discriminate. }
  cbn [before whole after groups rev app] in *. subst a'.
  eexists. rewrite Hs, expand_literal. now rewrite <- !app_assoc.
Qed.

(** Without a pair of markers the block is appended, between new markers,
    to the document without its trailing whitespace. *)
Lemma replace_progress_block_missing (readme new_block : text) :
  between_markers readme = None ->
  replace_progress_block readme new_block
  = Ok (rstrip readme ++ [NL; NL] ++ PROGRESS_START ++ new_block
          ++ PROGRESS_END ++ [NL]).
Proof.
  unfold between_markers, replace_progress_block. intros H.
  rewrite search_progress_re.
  destruct (find_first PROGRESS_START readme) as [[a rest]|]; [|reflexivity].
  destruct (find_first PROGRESS_END rest) as [[r b]|];
    [discriminate|reflexivity].
Qed.

(** ** The markers and the done lines after [update_summary_counts] *)

Lemma digit_edit_refl (s : text) : digit_edit s s.
Proof. induction s; constructor; assumption. Qed.

Lemma digit_edit_keep (a s s' : text) :
  digit_edit s s' -> digit_edit (a ++ s) (a ++ s').
Proof. intros H. induction a; [exact H|now apply de_keep]. Qed.

Lemma digits_uint (u : Decimal.uint) :
  forallb is_decimal (str (NilEmpty.string_of_uint u)) = true.
Proof. induction u; simpl; auto. Qed.

Lemma decimal_digits (n : nat) :
  forallb is_decimal (decimal n) = true /\ decimal n <> [].
Proof.
  unfold decimal, NilZero.string_of_uint. split.
  - destruct (Nat.to_uint n); try apply digits_uint.
    reflexivity.
  - destruct (Nat.to_uint n); simpl; discriminate.
Qed.

(** [str(n)] reads as [n]. *)
Lemma number_acc_uint (u : Decimal.uint) :
  forall acc,
    number_acc acc (str (NilEmpty.string_of_uint u))
    = Some (Nat.of_uint_acc u acc).
Proof.
  induction u as [|u IH|u IH|u IH|u IH|u IH|u IH|u IH|u IH|u IH|u IH];
    intros acc; [reflexivity|..];
    cbn [NilEmpty.string_of_uint Nat.of_uint_acc];
    rewrite Nat.tail_mul_spec;
    match goal with
    | |- number_acc _ (str (String ?a ?r)) = _ =>
        change (str (String a r)) with (N_of_ascii a :: str r)
    end;
    cbn [number_acc]; rewrite IH;
    match goal with
    | |- (if ?b then _ else _) = _ => change b with true
    end;
    cbn iota; f_equal; f_equal;
    match goal with
    | |- context [N.to_nat ?e] =>
        let v := eval vm_compute in (N.to_nat e) in
        change (N.to_nat e) with v
    end;
    lia.
Qed.

Lemma number_of_decimal (n : nat) : number_of (decimal n) = Some n.
Proof.
  unfold decimal, NilZero.string_of_uint.
  pose proof (Unsigned.of_to n) as E. unfold Nat.of_uint in E.
  destruct (Nat.to_uint n) as [|u|u|u|u|u|u|u|u|u|u] eqn:U;
    [cbn in E; now subst| ..];
    (etransitivity; [|apply (f_equal Some E)]);
    match goal with
    | |- number_of (str (NilEmpty.string_of_uint ?d)) = _ =>
        rewrite <- (number_acc_uint d 0)
    end; reflexivity.
Qed.

(** Rewriting summary lines only replaces runs of digits. *)
Lemma summary_rewrite_digit_edit (n s s' : text) :
  forallb is_decimal n = true -> n <> [] ->
  summary_rewrite n s s' -> digit_edit s s'.
Proof.
  intros Dn Nn H. induction H as [|c s s' H IH|ws d p s s' W D Dd P Pp H IH].
  - constructor.
  - now apply de_keep.
  - unfold summary_line. norm_app.
    apply (digit_edit_keep (str "## Progress Summary")).
    apply digit_edit_keep.
    apply (digit_edit_keep (NL :: str "- Total: ")).
    apply de_run; [exact D|exact Dd|exact Dn|exact Nn|].
    apply (digit_edit_keep (str " done / ")).
    apply de_run; [exact P|exact Pp|reflexivity|discriminate|].
    now apply (digit_edit_keep (str " planned")).
Qed.

Lemma digit_edit_starts_with (s s' : text) :
  digit_edit s s' ->
  forall p, no_digit p = true -> starts_with p s = starts_with p s'.
Proof.
  intros H. induction H as [|c s s' H IH|d d' s s' D Dn D' Dn' H IH];
    intros p N.
  - reflexivity.
  - destruct p as [|a p]; [reflexivity|].
    unfold no_digit in N. cbn [forallb] in N.
    apply andb_prop in N as [_ N]. cbn [starts_with]. now rewrite (IH p N).
  - destruct p as [|a p]; [reflexivity|].
    unfold no_digit in N. cbn [forallb] in N.
    apply andb_prop in N as [Na _]. apply negb_true_iff in Na.
    destruct d as [|x d]; [congruence|].
    destruct d' as [|x' d']; [congruence|].
    cbn [forallb] in D, D'. apply andb_prop in D as [Dx _].
    apply andb_prop in D' as [Dx' _].
    cbn [app starts_with].
    assert ((a =? x)%N = false) as ->
      by (destruct (a =? x)%N eqn:E; [apply N.eqb_eq in E|]; congruence).
    assert ((a =? x')%N = false) as ->
      by (destruct (a =? x')%N eqn:E; [apply N.eqb_eq in E|]; congruence).
    reflexivity.
Qed.

Lemma digit_edit_skipn (s s' : text) :
  digit_edit s s' ->
  forall p, no_digit p = true -> starts_with p s = true ->
            digit_edit (skipn (length p) s) (skipn (length p) s').
Proof.
  intros H. induction H as [|c s s' H IH|d d' s s' D Dn D' Dn' H IH];
    intros p N S.
  - destruct p; [constructor|discriminate].
  - destruct p as [|a p]; [now apply de_keep|].
    unfold no_digit in N. cbn [forallb] in N.
    apply andb_prop in N as [_ N]. cbn [starts_with] in S.
    apply andb_prop in S as [_ S]. cbn [length skipn]. now apply IH.
  - destruct p as [|a p]; [now apply de_run|].
    exfalso. unfold no_digit in N. cbn [forallb] in N.
    apply andb_prop in N as [Na _]. apply negb_true_iff in Na.
    destruct d as [|x d]; [congruence|].
    cbn [forallb] in D. apply andb_prop in D as [Dx _].
    cbn [app starts_with] in S. apply andb_prop in S as [E _].
    apply N.eqb_eq in E. congruence.
Qed.

Lemma find_first_digits (p d s : text) :
  no_digit p = true -> p <> [] -> forallb is_decimal d = true ->
  find_first p (d ++ s)
  = match find_first p s with
    | Some (a, b) => Some (d ++ a, b)
    | None => None
    end.
Proof.
  intros N Np D. induction d as [|x d IH].
  - cbn [app]. now destruct (find_first p s) as [[a b]|].
  - cbn [forallb] in D. apply andb_prop in D as [Dx D].
    cbn [app find_first]. rewrite (IH D).
    destruct p as [|a p]; [congruence|].
    unfold no_digit in N. cbn [forallb] in N.
    apply andb_prop in N as [Na _]. apply negb_true_iff in Na.
    cbn [starts_with].
    assert ((a =? x)%N = false) as ->
      by (destruct (a =? x)%N eqn:E; [apply N.eqb_eq in E|]; congruence).
    cbn [andb]. now destruct (find_first (a :: p) s) as [[u v]|].
Qed.

(** A marker without digits is found at corresponding places. *)
Lemma digit_edit_find_first (p : text) :
  no_digit p = true -> p <> [] ->
  forall s s',
    digit_edit s s' ->
    match find_first p s, find_first p s' with
    | Some (a, b), Some (a', b') => digit_edit a a' /\ digit_edit b b'
    | None, None => True
    | _, _ => False
    end.
Proof.
  intros N Np s s' H.
  induction H as [|c s s' H IH|d d' s s' D Dn D' Dn' H IH].
  - destruct p; [congruence|]. exact I.
  - cbn [find_first].
    rewrite <- (digit_edit_starts_with (de_keep c H) p N).
    destruct (starts_with p (c :: s)) eqn:S.
    + split; [constructor|].
      apply (digit_edit_skipn (de_keep c H) p N S).
    + destruct (find_first p s) as [[a b]|],
        (find_first p s') as [[a' b']|]; try exact IH.
      destruct IH as [Ha Hb]. split; [now apply de_keep|exact Hb].
  - rewrite !find_first_digits by assumption.
    destruct (find_first p s) as [[a b]|],
      (find_first p s') as [[a' b']|]; try exact IH.
    destruct IH as [Ha Hb]. split; [now apply de_run|exact Hb].
Qed.

Lemma cnt_digits (d s : text) :
  forallb is_decimal d = true -> d <> [] ->
  forall b, cnt b (d ++ s) = cnt false s.
Proof.
  induction d as [|x d IH]; intros D N b; [congruence|].
  cbn [forallb] in D. apply andb_prop in D as [Dx D].
  cbn [app cnt].
  assert ((x =? NL)%N = false) as ->
    by (destruct (x =? NL)%N eqn:E; [apply N.eqb_eq in E; now subst|easy]).
  assert (starts_with DONE_BOX (x :: d ++ s) = false) as ->.
  { change DONE_BOX with (45 :: str " [x]")%N. cbn [starts_with].
    destruct (45 =? x)%N eqn:E; [|reflexivity].
    apply N.eqb_eq in E. now subst. }
  rewrite andb_false_r. cbn [Nat.add].
  destruct d as [|y d]; [reflexivity|]. apply IH; [exact D|discriminate].
Qed.

(** Replacing runs of digits keeps the number of done lines. *)
Lemma digit_edit_cnt (s s' : text) :
  digit_edit s s' -> forall b, cnt b s = cnt b s'.
Proof.
  intros H. induction H as [|c s s' H IH|d d' s s' D Dn D' Dn' H IH];
    intros b.
  - reflexivity.
  - cbn [cnt]. rewrite IH.
    now rewrite (digit_edit_starts_with (de_keep c H) DONE_BOX eq_refl).
  - rewrite !cnt_digits by assumption. apply IH.
Qed.

(** After a digit edit the markers delimit a region with as many done
    lines as before. *)
Lemma digit_edit_between (s s' : text) :
  digit_edit s s' ->
  match between_markers s, between_markers s' with
  | Some r, Some r' => count_done_lines r' = count_done_lines r
  | None, None => True
  | _, _ => False
  end.
Proof.
  intros H. unfold between_markers.
  pose proof (digit_edit_find_first (p := PROGRESS_START) eq_refl
                ltac:(discriminate) H) as F.
  destruct (find_first PROGRESS_START s) as [[a rest]|],
    (find_first PROGRESS_START s') as [[a' rest']|];
    try exact F; try contradiction.
  destruct F as [_ F].
  pose proof (digit_edit_find_first (p := PROGRESS_END) eq_refl
                ltac:(discriminate) F) as G.
  destruct (find_first PROGRESS_END rest) as [[r b]|],
    (find_first PROGRESS_END rest') as [[r' b']|];
    try exact G; try contradiction.
  destruct G as [G _]. rewrite !count_done_lines_cnt.
  symmetry. now apply digit_edit_cnt.
Qed.

(** C1.  Take a document with the markers and a summary line: the heading
    [## Progress Summary] at the start of a line, whitespace, and the line
    [- Total: d done / p planned] with two numbers.  After
    [update_summary_counts] that line has, before [done], a text [n] of
    digits that reads as the number of lines that begin with [- [x]] in the
    text strictly between the markers of the updated document, which is also
    that number for the document given; the text before and after the line
    differs from the input at most in the numbers of other summary lines. *)
Theorem update_summary_counts_total
    (readme region pre ws d p post : text) :
  between_markers readme = Some region ->
  readme = pre ++ summary_line ws d p ++ post ->
  at_bol (prev_after None pre) = true ->
  forallb is_space ws = true ->
  forallb is_decimal d = true -> d <> [] ->
  forallb is_decimal p = true -> p <> [] ->
  (post = [] \/ exists t, post = NL :: t) ->
  exists out pre' post' region' n,
    update_summary_counts readme = Ok out /\
    out = pre' ++ summary_line ws n (str "150") ++ post' /\
    number_of n = Some (count_done_lines region') /\
    between_markers out = Some region' /\
    count_done_lines region' = count_done_lines region /\
    summary_rewrite n pre pre' /\
    summary_rewrite n post post'.
Proof.
  intros R E B W D Dn P Pn Z.
  destruct (@update_summary_counts_line readme region pre ws d p post
              R E B W D Dn P Pn Z) as (pre' & post' & U & Rp & Rq).
  pose proof (update_summary_counts_eq readme) as Q.
  rewrite extract_between, R, findall_len_done_re in Q.
  pose proof (sub_summary_rewrite (decimal (count_done_lines region))
                None readme) as S.
  set (out := pre' ++ summary_line ws (decimal (count_done_lines region))
                        (str "150") ++ post') in *.
  unfold sub in Q.
  set (out0 := sub_aux summary_re _ 0 None readme) in *.
  assert (out0 = out) as Eo by congruence.
  rewrite Eo in S. clear Q Eo out0.
  destruct (decimal_digits (count_done_lines region)) as [Dg Ng].
  apply (summary_rewrite_digit_edit Dg Ng) in S.
  apply digit_edit_between in S. rewrite R in S.
  destruct (between_markers out) as [region'|] eqn:G; [|contradiction].
  exists out, pre', post', region', (decimal (count_done_lines region)).
  split; [exact U|]. split; [reflexivity|].
  split; [rewrite S; apply number_of_decimal|]. auto.
Qed.

Lemma update_summary_counts_total_witness :
  (exists out pre' post' region' n,
      update_summary_counts readme_one_done = Ok out /\
      out = pre' ++ summary_line [] n (str "150") ++ post' /\
      number_of n = Some (count_done_lines region') /\
      between_markers out = Some region' /\
      count_done_lines region' = count_done_lines region_one_done /\
      summary_rewrite n [] pre' /\
      summary_rewrite n
        ([NL; NL] ++ PROGRESS_START ++ region_one_done ++ PROGRESS_END
           ++ [NL])
        post') /\
  count_done_lines region_one_done = 1 /\
  update_summary_counts readme_one_done
  = Ok (str "## Progress Summary" ++ [NL]
          ++ str "- Total: 1 done / 150 planned" ++ [NL; NL]
          ++ PROGRESS_START ++ region_one_done ++ PROGRESS_END ++ [NL]).
Proof.
  split; [|split; vm_compute; reflexivity].
  apply (@update_summary_counts_total readme_one_done region_one_done
           [] [] (str "0") (str "150")
           ([NL; NL] ++ PROGRESS_START ++ region_one_done ++ PROGRESS_END
              ++ [NL]));
    try (vm_compute; reflexivity); try discriminate.
  right. now eexists.
Defined.

(** ** Every summary line is rewritten *)

(** What [re.sub] does, step by step, with the character before: where the
    pattern does not match, a character is kept; where it does, the first
    match is replaced and the scan goes on after it. *)
Lemma sub_aux_rel_prev (r : re) (repl : text -> caps -> text)
    (P : option char -> text -> text -> Prop) :
  (forall prev, P prev [] []) ->
  (forall prev c s s',
      m r prev (c :: s) = [] -> P (Some c) s s' -> P prev (c :: s) (c :: s')) ->
  (forall prev c s1 k tl s1',
      m r prev (c ++ s1) = (c, s1, k) :: tl -> c <> [] ->
      P (prev_after prev c) s1 s1' ->
      P prev (c ++ s1) (repl c k ++ s1')) ->
  (forall prev s s1 k, ~ In ([], s1, k) (m r prev s)) ->
  forall s prev, P prev s (sub_aux r repl 0 prev s).
Proof.
  intros Pnil Pkeep Phit Hne s.
  induction s as [s IH] using (induction_ltof1 _ (@length char)).
  unfold ltof in IH. intros prev.
  assert (forall c s1 k tl, m r prev s = (c, s1, k) :: tl ->
            exists x c', c = x :: c' /\ s = x :: c' ++ s1) as Hhit.
  { intros c s1 k tl E.
    assert (In (c, s1, k) (m r prev s)) as Hin by (rewrite E; now left).
    pose proof Hin as S. apply m_sound in S.
    destruct c as [|x c]; [exfalso; eapply Hne; exact Hin|].
    now exists x, c. }
  destruct s as [|x t]; cbn [sub_aux]; unfold match_here.
  - destruct (m r prev []) as [|[[c s1] k] tl] eqn:E; [apply Pnil|].
    destruct (Hhit _ _ _ _ eq_refl) as (y & c' & _ & F). discriminate.
  - destruct (m r prev (x :: t)) as [|[[c s1] k] tl] eqn:E.
    + apply Pkeep; [exact E|]. apply IH. simpl; lia.
    + destruct (Hhit _ _ _ _ eq_refl) as (y & c' & -> & F).
      inversion F; subst y t. rewrite sub_aux_skip.
      apply (Phit prev (x :: c') s1 k tl); [exact E|discriminate|].
      apply IH. cbn [length]. rewrite length_app. lia.
Qed.

Lemma at_bol_after_summary (prev : option char) (ws d p : text) :
  at_bol (prev_after prev (summary_line ws d p)) = false.
Proof.
  assert (summary_line ws d p
          = (str "## Progress Summary" ++ ws ++ NL :: str "- Total: " ++ d
               ++ str " done / " ++ p) ++ str " planned") as ->
    by (unfold summary_line; now norm_app).
  now rewrite prev_after_app.
Qed.

(** [re.sub] with the summary pattern rewrites every summary line. *)
Lemma sub_summary_update (n : text) :
  forall s prev,
    summary_update n (at_bol prev) s
      (sub_aux summary_re
         (fun _ k => group 1 k ++ n ++ str " done / 150 planned") 0 prev s).
Proof.
  apply (@sub_aux_rel_prev summary_re
           (fun _ k => group 1 k ++ n ++ str " done / 150 planned")
           (fun prev s s' => summary_update n (at_bol prev) s s')).
  - intros prev. constructor.
  - intros prev c s s' E R. apply su_keep; [|exact R].
    intros [B (ws & d & p & rest & Es & W & D & Dn & Pd & Pn & Z)].
    assert (In (summary_line ws d p, rest,
                [(1, str "## Progress Summary" ++ ws ++ NL :: str "- Total: ")])
              (m summary_re prev (c :: s))) as Hin.
    { apply in_m_summary_re. exists ws, d, p.
      split; [reflexivity|]. split; [exact Es|]. split; [reflexivity|].
      split; [exact B|]. split; [exact W|]. split; [exact D|].
      split; [exact Dn|]. split; [exact Pd|]. split; [exact Pn|].
      destruct rest as [|x t]; [now left|right].
      cbn [at_eol] in Z. apply N.eqb_eq in Z. subst x. now exists t. }
    rewrite E in Hin. destruct Hin.
  - intros prev c s1 k tl s1' E _ R.
    assert (In (c, s1, k) (m summary_re prev (c ++ s1))) as H
      by (rewrite E; now left).
    apply in_m_summary_re in H
      as (ws & d & p & -> & _ & -> & B & W & D & Dn & Pd & Pn & Z).
    rewrite at_bol_after_summary in R. rewrite B.
    replace ((group 1
                [(1, str "## Progress Summary" ++ ws ++ NL :: str "- Total: ")]
              ++ n ++ str " done / 150 planned") ++ s1')
      with (summary_line ws n (str "150") ++ s1').
    + apply su_line; trivial.
      destruct Z as [->|[t ->]]; [reflexivity|apply N.eqb_refl].
    + unfold summary_line, group. cbn [rev app find fst snd Nat.eqb].
      now norm_app.
  - intros prev s s1 k H.
    apply in_m_summary_re in H as (ws & d & p & H & _).
    discriminate.
Qed.

Lemma summary_update_inv (n : text) (b : bool) (t t2 : text) :
  summary_update n b t t2 ->
  (t = [] /\ t2 = []) \/
  (exists c s s',
      t = c :: s /\ t2 = c :: s' /\ ~ summary_at b (c :: s) /\
      summary_update n (c =? NL)%N s s') \/
  (exists ws d p s s',
      b = true /\ t = summary_line ws d p ++ s /\
      t2 = summary_line ws n (str "150") ++ s' /\
      forallb is_space ws = true /\
      forallb is_decimal d = true /\ d <> [] /\
      forallb is_decimal p = true /\ p <> [] /\
      at_eol s = true /\
      summary_update n false s s').
Proof.
  intros H. destruct H as [bol|bol c s s' N R|ws d p s s' W D Dn P Pn Z R].
  - now left.
  - right. left. now exists c, s, s'.
  - right. right. exists ws, d, p, s, s'. auto 12.
Qed.

(** [summary_update] determines the text it describes. *)
Lemma summary_update_functional (n : text) (b : bool) (s s1 : text) :
  summary_update n b s s1 ->
  forall s2, summary_update n b s s2 -> s1 = s2.
Proof.
  intros H.
  induction H as [bol|bol c s s' N R IH|ws d p s s' W D Dn P Pn Z R IH];
    intros s2 H2; apply summary_update_inv in H2
      as [[E1 E2]|[(c2 & t & t' & E1 & E2 & N2 & R2)
                  |(ws2 & d2 & p2 & t & t' & B2 & E1 & E2 & W2 & D2 & Dn2
                    & P2 & Pn2 & Z2 & R2)]].
  - now subst.
  - discriminate.
  - discriminate.
  - discriminate.
  - injection E1 as <- <-. subst s2. f_equal. now apply IH.
  - exfalso. apply N. split; [exact B2|].
    exists ws2, d2, p2, t. auto 12.
  - discriminate.
  - exfalso. apply N2. rewrite <- E1. split; [reflexivity|].
    exists ws, d, p, s. auto 12.
  - destruct (@summary_line_unique ws d p s ws2 d2 p2 t)
      as (<- & <- & <- & <-); trivial.
    subst s2. f_equal. now apply IH.
Qed.

Lemma findall_len_done_count (readme : text) :
  findall_len done_re (extract_progress_block readme) = done_count readme.
Proof.
  rewrite findall_len_done_re, extract_between. unfold done_count.
  destruct (between_markers readme); [reflexivity|].
  vm_compute. reflexivity.
Qed.

(** C6, amended.  [update_summary_counts] never raises.  What it returns is
    the document with, in every summary line, the number before [done]
    replaced by a text of digits that reads as the count of done lines and
    the number before [planned] replaced by 150; all other text of the
    document is unchanged, and no other text than the one returned fits this
    description. *)
Theorem update_summary_counts_frame (readme : text) :
  exists out n,
    update_summary_counts readme = Ok out /\
    number_of n = Some (done_count readme) /\
    summary_update n true readme out /\
    (forall out', summary_update n true readme out' -> out' = out).
Proof.
  exists (sub summary_re
            (fun _ k =>
               group 1 k ++ decimal (done_count readme)
                 ++ str " done / 150 planned")
            readme),
    (decimal (done_count readme)).
  split.
  { rewrite update_summary_counts_eq, findall_len_done_count. reflexivity. }
  split; [apply number_of_decimal|].
  assert (summary_update (decimal (done_count readme)) true readme
            (sub summary_re
               (fun _ k =>
                  group 1 k ++ decimal (done_count readme)
                    ++ str " done / 150 planned")
               readme)) as U
    by apply (sub_summary_update (decimal (done_count readme)) readme None).
  split; [exact U|].
  intros out' H. symmetry.
  apply (summary_update_functional U H).
Qed.

(** ** Two failures of [add_problem_checkbox] *)


(** C4.  A call for the category [A] changes the body of the section of
    another category.  When the section [## A] is empty, the pattern of
    line 67 takes the whole section [## B] after it for the body of [A]
    (its whitespace part runs over the blank line and its body part cannot
    be empty), and the entry is written in place of the placeholder of [B].
    When the title is [Graph] and the block has a section [## Graphs], the
    pattern matches that heading and the entry is written there. *)
Lemma add_problem_checkbox_edits_other_section :
  section_of (str "B") block_empty_section
  = Some (str "## B" ++ [NL], str "(none yet)" ++ [NL])
  /\ add_problem_checkbox block_empty_section (str "A") (str "P") (str "l")
       (str "p") false
     = Ok (str "## A" ++ [NL; NL] ++ str "## B" ++ [NL]
             ++ entry_line (str "P") (str "l") (str "p") false ++ [NL])
  /\ section_of (str "B")
       (str "## A" ++ [NL; NL] ++ str "## B" ++ [NL]
          ++ entry_line (str "P") (str "l") (str "p") false ++ [NL])
     = Some (str "## B" ++ [NL],
             entry_line (str "P") (str "l") (str "p") false ++ [NL])
  /\ add_problem_checkbox block_graphs (str "Graph") (str "P") (str "l")
       (str "p") false
     = Ok ([NL] ++ str "## Graphs" ++ [NL]
             ++ entry_line (str "P") (str "l") (str "p") false ++ [NL; NL]).
Proof. repeat split; vm_compute; reflexivity. Qed.

(** * Further properties of the editor *)

(** ** [upsert_category_block] *)

Lemma section_re_category_re (T : text) (prev : option char) (s : text) :
  m (section_re T) prev s <> [] -> m (category_re T) prev s <> [].
Proof.
  rewrite !not_nil_in. intros [[[c s'] k] H].
  apply in_m_section_re in H as (ws & body & -> & E & -> & B & W & N & Z).
  rewrite <- !app_assoc in E.
  exists ((str "## " ++ T) ++ ws ++ body, s', [(1, body)]).
  unfold category_re. apply in_m_seq.
  exists [], s, [], ((str "## " ++ T) ++ ws ++ body), [(1, body)].
  split; [now apply in_m_bol|]. split; [|now split].
  apply in_m_seq.
  exists (str "## " ++ T), (ws ++ body ++ s'), [], (ws ++ body), [(1, body)].
  split; [apply in_m_lits; now rewrite <- !app_assoc|].
  split; [|now split].
  apply in_m_seq. exists ws, (body ++ s'), [], body, [(1, body)].
  split; [apply in_m_rep; repeat split; trivial; lia|].
  split; [|now split].
  apply in_m_seq. exists body, s', [(1, body)], [], [].
  split.
  { apply in_m_grp. exists []. split; [|reflexivity].
    apply in_m_rep. split; [reflexivity|]. split; [apply forallb_any|].
    split; [|reflexivity]. destruct body; [congruence|simpl; lia]. }
  split; [|split; [now rewrite app_nil_r|reflexivity]].
  apply section_end_iff. split; [reflexivity|]. split; [reflexivity|].
  split; [reflexivity|].
  rewrite <- !prev_after_app. cbn [app]. now rewrite <- !app_assoc in *.
Qed.

Lemma search_section_category (T b : text) :
  search (category_re T) b = None -> search (section_re T) b = None.
Proof.
  intros H. destruct (search (section_re T) b) as [mt|] eqn:E;
    [|reflexivity].
  exfalso. apply search_from_some in E as (a & tl & H1 & H2 & H3 & _).
  apply (@search_found (category_re T) b a (whole mt ++ after mt) H1);
    [|exact H].
  apply section_re_category_re. rewrite H3. discriminate.
Qed.

(** What [upsert_category_block] returns has, at the start of a line, the
    heading of the title with something after it; and it is the block it
    was given, up to the whitespace at its end, with at most more text
    after it. *)
Theorem upsert_category_block_ensures (b T : text) :
  (exists pre post,
      upsert_category_block b T = pre ++ (str "## " ++ T) ++ post /\
      at_bol (prev_after None pre) = true /\
      post <> []) /\
  (exists more, upsert_category_block b T = rstrip b ++ more).
Proof.
  unfold upsert_category_block.
  destruct (search (category_re T) b) as [mc|] eqn:C.
  - split.
    + destruct (search (section_re T) b) as [mt|] eqn:S.
      * destruct (search_section_re _ _ S)
          as (ws & body & D & _ & _ & B & _ & N & _).
        exists (before mt), (ws ++ body ++ after mt).
        split; [rewrite D at 1; now rewrite <- !app_assoc|].
        split; [exact B|]. destruct ws, body; try discriminate. congruence.
      * apply search_category_section in S. congruence.
    + destruct (rstrip_split b) as [ws [E _]]. now exists ws.
  - split.
    + exists (rstrip b ++ [NL; NL]), ([NL] ++ PLACEHOLDER ++ [NL; NL]).
      split; [unfold new_section; now rewrite <- !app_assoc|].
      split; [now rewrite prev_after_app|discriminate].
    + now exists (new_section T).
Qed.

(** Calling [upsert_category_block] a second time changes nothing. *)
Theorem upsert_category_block_idempotent (b T : text) :
  upsert_category_block (upsert_category_block b T) T
  = upsert_category_block b T.
Proof.
  assert (search (category_re T) (upsert_category_block b T) <> None) as H.
  { unfold upsert_category_block.
    destruct (search (category_re T) b) as [mc|] eqn:C; [congruence|].
    intros S. apply search_section_category in S.
    now apply search_new_section in S. }
  unfold upsert_category_block at 1.
  destruct (search (category_re T) (upsert_category_block b T));
    [reflexivity|congruence].
Qed.

(** ** [update_summary_counts] without a summary line *)

Lemma sub_aux_no_match (r : re) (repl : text -> caps -> text) :
  forall s prev pre,
    search_from r prev pre s = None -> sub_aux r repl 0 prev s = s.
Proof.
  induction s as [|x t IH]; intros prev pre H; cbn [search_from] in H;
    cbn [sub_aux]; unfold match_here.
  - destruct (m r prev []) as [|[[c s'] k] tl]; [reflexivity|discriminate].
  - destruct (m r prev (x :: t)) as [|[[c s'] k] tl]; [|discriminate].
    f_equal. eapply IH. exact H.
Qed.

(** When the pattern of the summary line matches nowhere, the document is
    returned as it is: no summary is made up. *)
Theorem update_summary_counts_no_summary (readme : text) :
  search summary_re readme = None ->
  update_summary_counts readme = Ok readme.
Proof.
  intros H. rewrite update_summary_counts_eq. f_equal.
  unfold sub. eapply sub_aux_no_match. exact H.
Qed.

Lemma update_summary_counts_no_summary_witness :
  update_summary_counts (str "# Notes" ++ [NL]) = Ok (str "# Notes" ++ [NL]).
Proof.
  apply update_summary_counts_no_summary. vm_compute; reflexivity.
Defined.

(** ** [replace_progress_block] and [extract_progress_block] together *)

Lemma find_first_unfold (p s : text) :
  find_first p s
  = if starts_with p s then Some ([], skipn (length p) s)
    else match s with
         | [] => None
         | c :: t =>
             match find_first p t with
             | Some (a, b) => Some (c :: a, b)
             | None => None
             end
         end.
Proof. now destruct s. Qed.

Lemma starts_with_app_long (p x r : text) :
  length p <= length x -> starts_with p (x ++ r) = starts_with p x.
Proof.
  revert x; induction p as [|a p IH]; intros x L; [reflexivity|].
  destruct x as [|c x]; [simpl in L; lia|].
  cbn [app starts_with]. rewrite IH; [reflexivity|simpl in L; lia].
Qed.

(** Where the first occurrence of [p] is does not depend on the text after
    it. *)
Lemma find_first_tail_indep (p r r' : text) :
  forall a,
    find_first p (a ++ p ++ r) = Some (a, r) ->
    find_first p (a ++ p ++ r') = Some (a, r').
Proof.
  induction a as [|c a IH]; intros H.
  - cbn [app]. rewrite find_first_unfold, starts_with_app.
    now rewrite skipn_length_app.
  - assert (forall x, starts_with p ((c :: a) ++ p ++ x)
                      = starts_with p ((c :: a) ++ p)) as S.
    { intros x. rewrite app_assoc. apply starts_with_app_long.
      rewrite length_app. lia. }
    rewrite find_first_unfold, S in H. rewrite find_first_unfold, S.
    destruct (starts_with p ((c :: a) ++ p)); [discriminate|].
    cbn [app] in *.
    destruct (find_first p (a ++ p ++ r)) as [[u v]|] eqn:F; [|discriminate].
    inversion H; subst. now rewrite (IH eq_refl).
Qed.

(** What [replace_progress_block] stores, [extract_progress_block] reads
    back: for a document with a pair of markers and a new block that has
    neither a backslash nor an end marker in it. *)
Theorem extract_after_replace (readme new_block : text) :
  between_markers readme <> None ->
  no_backslash new_block = true ->
  find_first PROGRESS_END (new_block ++ PROGRESS_END) = Some (new_block, []) ->
  exists out,
    replace_progress_block readme new_block = Ok out /\
    extract_progress_block out = new_block.
Proof.
  unfold between_markers. intros M N E.
  destruct (find_first PROGRESS_START readme) as [[a rest]|] eqn:F;
    [|congruence].
  destruct (find_first PROGRESS_END rest) as [[r b]|] eqn:G; [|congruence].
  destruct (@replace_progress_block_literal readme new_block a rest r b
              N F G) as [b' R].
  eexists. split; [exact R|].
  rewrite extract_between. unfold between_markers.
  pose proof (find_first_some _ _ F) as [Er _]. rewrite Er in F.
  rewrite (@find_first_tail_indep PROGRESS_START rest
             (new_block ++ PROGRESS_END ++ b') a F).
  rewrite <- (app_nil_r (new_block ++ PROGRESS_END)) in E.
  rewrite <- app_assoc in E.
  now rewrite (@find_first_tail_indep PROGRESS_END [] b' new_block E).
Qed.

Lemma extract_after_replace_witness :
  exists out,
    replace_progress_block readme_one_done block_arrays = Ok out /\
    extract_progress_block out = block_arrays.
Proof.
  apply extract_after_replace; [|vm_compute; reflexivity..].
  vm_compute. discriminate.
Defined.

(** Putting back the block that was taken out changes nothing, for a
    document with one pair of markers and no backslash between them. *)
Theorem replace_extracted (readme a rest r b : text) :
  find_first PROGRESS_START readme = Some (a, rest) ->
  find_first PROGRESS_END rest = Some (r, b) ->
  between_markers b = None ->
  no_backslash r = true ->
  replace_progress_block readme (extract_progress_block readme) = Ok readme.
Proof.
  intros F G B N.
  assert (extract_progress_block readme = r) as ->
    by (rewrite extract_between; unfold between_markers; now rewrite F, G).
  unfold replace_progress_block.
  pose proof (search_progress_re readme) as S. rewrite F, G in S.
  rewrite S. unfold sub_template.
  rewrite parse_template_literal;
    [|lia|rewrite !no_backslash_app, N; reflexivity].
  unfold sub, search in *.
  destruct (sub_aux_search progress_re
              (expand (map TLit (PROGRESS_START ++ r ++ PROGRESS_END)))
              _ _ _ S) as (a' & Ha & Hs).
  { cbn [whole]. discriminate. }
  cbn [before whole after groups rev app] in *. subst a'.
  rewrite Hs, expand_literal. f_equal.
  rewrite (@sub_aux_no_match progress_re _ b _ []).
  - apply find_first_some in F as [-> _].
    apply find_first_some in G as [-> _]. now rewrite <- !app_assoc.
  - rewrite search_from_progress_re. unfold between_markers in B.
    destruct (find_first PROGRESS_START b) as [[u v]|]; [|reflexivity].
    destruct (find_first PROGRESS_END v) as [[x y]|];
      [discriminate|reflexivity].
Qed.

Lemma replace_extracted_witness :
  replace_progress_block readme_one_done
    (extract_progress_block readme_one_done)
  = Ok readme_one_done.
Proof.
  apply (@replace_extracted readme_one_done
           (str "## Progress Summary" ++ [NL]
              ++ str "- Total: 0 done / 150 planned" ++ [NL; NL])
           (region_one_done ++ PROGRESS_END ++ [NL])
           region_one_done [NL]); vm_compute; reflexivity.
Defined.

(** A document without a pair of markers: the block that
    [extract_progress_block] hands out already has the markers in it, so
    putting it back appends a region with every marker twice. *)
Theorem replace_extracted_no_markers (readme : text) :
  between_markers readme = None ->
  replace_progress_block readme (extract_progress_block readme)
  = Ok (rstrip readme ++ [NL; NL]
          ++ PROGRESS_START ++ PROGRESS_START ++ [NL]
          ++ str "## Arrays" ++ [NL] ++ str "(none yet)" ++ [NL; NL]
          ++ PROGRESS_END ++ PROGRESS_END ++ [NL]).
Proof.
  intros H. rewrite extract_between, H.
  rewrite (@replace_progress_block_missing readme default_block H).
  unfold default_block. now rewrite <- !app_assoc.
Qed.

Lemma replace_extracted_no_markers_witness :
  replace_progress_block (str "# Notes" ++ [NL])
    (extract_progress_block (str "# Notes" ++ [NL]))
  = Ok (rstrip (str "# Notes" ++ [NL]) ++ [NL; NL]
          ++ PROGRESS_START ++ PROGRESS_START ++ [NL]
          ++ str "## Arrays" ++ [NL] ++ str "(none yet)" ++ [NL; NL]
          ++ PROGRESS_END ++ PROGRESS_END ++ [NL]).
Proof.
  apply replace_extracted_no_markers. vm_compute; reflexivity.
Defined.

Lemma starts_with_before_nl (p : text) :
  forallb (not_char NL) p = true ->
  forall x y, starts_with p (x ++ NL :: y) = starts_with p x.
Proof.
  induction p as [|a p IH]; intros H x y; [reflexivity|].
  cbn [forallb] in H. apply andb_prop in H as [Ha H].
  destruct x as [|c x].
  - cbn [app starts_with]. unfold not_char in Ha.
    apply negb_true_iff in Ha. rewrite N.eqb_sym in Ha.
    now rewrite Ha.
  - cbn [app starts_with]. now rewrite IH.
Qed.

(** A marker that is not in [x] is first found in [x ++ NL :: y] where it
    is first found in [y]. *)
Lemma find_first_past_nl (p : text) :
  forallb (not_char NL) p = true -> p <> [] ->
  forall x y,
    find_first p x = None ->
    find_first p (x ++ NL :: y)
    = match find_first p y with
      | Some (u, v) => Some (x ++ NL :: u, v)
      | None => None
      end.
Proof.
  intros H N. induction x as [|c x IH]; intros y F.
  - cbn [app]. rewrite find_first_unfold.
    pose proof (starts_with_before_nl p H [] y) as S. cbn [app] in S.
    rewrite S. destruct p; [congruence|]. reflexivity.
  - rewrite find_first_unfold in F.
    destruct (starts_with p (c :: x)) eqn:S; [discriminate|].
    destruct (find_first p x) as [[u v]|] eqn:G; [discriminate|].
    cbn [app]. rewrite find_first_unfold.
    change (c :: x ++ NL :: y) with ((c :: x) ++ NL :: y).
    rewrite (starts_with_before_nl p H), S. cbn [app].
    rewrite (IH y eq_refl).
    now destruct (find_first p y) as [[u v]|].
Qed.

Lemma find_first_none_prefix (p x y : text) :
  find_first p (x ++ y) = None -> find_first p x = None.
Proof.
  intros H. destruct (find_first p x) as [[u v]|] eqn:F; [|reflexivity].
  apply find_first_some in F as [F _].
  exfalso. apply (find_first_none _ H u (v ++ y)).
  rewrite F. now rewrite <- !app_assoc.
Qed.



(** ** Ticking checkboxes *)

Lemma replace_hit (old new s : text) :
  old <> [] -> replace old new (old ++ s) = new ++ replace old new s.
Proof.
  intros N. destruct old as [|a old]; [congruence|].
  unfold replace. cbn [app replace_aux].
  change (a :: old ++ s) with ((a :: old) ++ s).
  rewrite starts_with_app.
  replace (length (a :: old) - 1) with (length old) by (simpl; lia).
  now rewrite replace_aux_skip.
Qed.

Lemma replace_miss (old new : text) (c : char) (t : text) :
  old <> [] -> starts_with old (c :: t) = false ->
  replace old new (c :: t) = c :: replace old new t.
Proof.
  intros N H. destruct old as [|a old]; [congruence|].
  unfold replace. cbn [replace_aux]. now rewrite H.
Qed.

Lemma tick_edit_refl (s : text) : tick_edit s s.
Proof. induction s; constructor; assumption. Qed.

Lemma tick_edit_app (a a' b b' : text) :
  tick_edit a a' -> tick_edit b b' -> tick_edit (a ++ b) (a' ++ b').
Proof.
  intros H K. induction H.
  - exact K.
  - cbn [app]. now apply te_keep.
  - rewrite <- !app_assoc. now apply te_tick.
Qed.

(** [m.group(0).replace("[ ]", "[x]")] only ticks checkboxes. *)
Lemma replace_tick_edit (s : text) :
  tick_edit s (replace (str "[ ]") (str "[x]") s).
Proof.
  induction s as [s IH] using (induction_ltof1 _ (@length char)).
  unfold ltof in IH.
  destruct s as [|c t]; [constructor|].
  destruct (starts_with (str "[ ]") (c :: t)) eqn:E.
  - apply starts_with_iff in E as [s' E]. rewrite E.
    rewrite replace_hit by discriminate.
    apply te_tick, IH. rewrite E, length_app. simpl. lia.
  - rewrite replace_miss by (trivial; discriminate).
    apply te_keep, IH. simpl. lia.
Qed.

Lemma entry_re_nonempty (name : text) (prev : option char)
    (s s1 : text) (k : caps) :
  ~ In ([], s1, k) (m (entry_re name) prev s).
Proof.
  unfold entry_re. intros H.
  apply in_m_seq in H as (x1 & x2 & x3 & x4 & x5 & B & H & E & _).
  apply in_m_bol in B as (-> & -> & -> & _).
  apply in_m_seq in H as (y1 & y2 & y3 & y4 & y5 & L & _ & -> & _).
  apply in_m_lits in L as (-> & _). discriminate.
Qed.

(** The rewriting of line 88 only ticks checkboxes. *)
Lemma sub_entry_tick_edit (name : text) (prev : option char) (s : text) :
  tick_edit s
    (sub_aux (entry_re name)
       (fun m0 _ => replace (str "[ ]") (str "[x]") m0) 0 prev s).
Proof.
  revert s prev. apply sub_aux_rel.
  - constructor.
  - intros c s s'. apply te_keep.
  - intros prev s c s1 k s1' _ R.
    apply tick_edit_app; [apply replace_tick_edit|exact R].
  - intros prev s s1 k. apply entry_re_nonempty.
Qed.

Lemma tick_safe_tail (a : char) (q : text) :
  tick_safe (a :: q) = true -> tick_safe q = true.
Proof.
  unfold tick_safe. rewrite !negb_true_iff. cbn [app contains].
  intros H. now apply orb_false_elim in H as [_ H].
Qed.

(** An occurrence of a safe text at the front survives the ticking. *)
Lemma tick_edit_starts_with (s s' : text) :
  tick_edit s s' ->
  forall q, tick_safe q = true ->
            starts_with q s = true -> starts_with q s' = true.
Proof.
  intros H. induction H as [|c s s' H IH|s s' H IH]; intros q Q S.
  - exact S.
  - destruct q as [|a q]; [reflexivity|].
    cbn [starts_with] in *. apply andb_prop in S as [-> S].
    apply (IH q (tick_safe_tail _ _ Q) S).
  - change (str "[ ]") with [91; 32; 93]%N in S.
    change (str "[x]") with [91; 120; 93]%N.
    destruct q as [|a [|b [|c q]]]; cbn [app starts_with] in *.
    + reflexivity.
    + exact S.
    + exfalso. apply andb_prop in S as [Ea S].
      apply andb_prop in S as [Eb _].
      apply N.eqb_eq in Ea, Eb. subst. discriminate.
    + exfalso. apply andb_prop in S as [Ea S].
      apply andb_prop in S as [Eb S]. apply andb_prop in S as [Ec _].
      apply N.eqb_eq in Ea, Eb, Ec. subst.
      unfold tick_safe in Q. apply negb_true_iff in Q.
      change (str "[ ]") with [91; 32; 93]%N in Q.
      cbn [app contains starts_with] in Q.
      rewrite !N.eqb_refl in Q. discriminate.
Qed.

(** Ticking checkboxes never takes a done line away. *)
Lemma cnt_tick (s s' : text) :
  tick_edit s s' -> forall b, cnt b s <= cnt b s'.
Proof.
  intros H. induction H as [|c s s' H IH|s s' H IH]; intros b.
  - reflexivity.
  - cbn [cnt]. specialize (IH (c =? NL)%N).
    destruct (b && starts_with DONE_BOX (c :: s)) eqn:E; [|lia].
    apply andb_prop in E as [-> E]. cbn [andb].
    rewrite (tick_edit_starts_with (te_keep c H) DONE_BOX eq_refl E). lia.
  - specialize (IH false). destruct b; exact IH.
Qed.

(** One call, whatever [done] is: the done lines stay. *)
Lemma cnt_section_body (x body post name link path : text) (done : bool) :
  post = [] \/ starts_with (str "## ") post = true ->
  cnt true (x ++ body ++ post)
  <= cnt true (x ++ new_section_body body name link path done ++ post).
Proof.
  intros P. destruct done; [|now apply cnt_new_section_body].
  unfold new_section_body.
  destruct (contains PLACEHOLDER body).
  - apply cnt_replace_in.
  - destruct (search _ body).
    + apply cnt_tick. apply tick_edit_app; [apply tick_edit_refl|].
      apply tick_edit_app; [apply sub_entry_tick_edit|apply tick_edit_refl].
    + destruct (rstrip_split body) as [ws [E W]].
      rewrite E at 1.
      replace (x ++ (rstrip body ++ ws) ++ post)
        with ((x ++ rstrip body) ++ ws ++ post) by now norm_app.
      replace (x ++ (rstrip body ++ [NL] ++ entry_line name link path true
                       ++ [NL]) ++ post)
        with ((x ++ rstrip body)
                ++ (NL :: entry_line name link path true ++ [NL]) ++ post)
        by now norm_app.
      now apply cnt_restart.
Qed.

(** [add_problem_checkbox] never raises and never takes a done line away,
    whatever its arguments are: the block it returns has at least as many
    lines that begin with [- [x]] as the block it was given. *)
Theorem add_problem_checkbox_never_unticks (b T name link path : text)
    (done : bool) :
  exists out,
    add_problem_checkbox b T name link path done = Ok out /\
    count_done_lines b <= count_done_lines out.
Proof.
  destruct (add_problem_checkbox_eq b T name link path done)
    as [mt [S E]].
  eexists. split; [exact E|].
  rewrite !count_done_lines_cnt.
  destruct (search_section_re _ _ S)
    as (ws & body & D & G1 & G2 & _ & _ & _ & Z).
  rewrite G1, G2.
  assert (after mt = [] \/ starts_with (str "## ") (after mt) = true) as P
    by (destruct Z as [[_ Z]|Z]; auto).
  apply Nat.le_trans
    with (cnt true (before mt ++ (str "## " ++ T ++ ws) ++ body ++ after mt)).
  - rewrite <- D. destruct (search (section_re T) b) eqn:F; [reflexivity|].
    unfold upsert_category_block.
    rewrite (search_category_section _ _ F).
    destruct (rstrip_split b) as [w [Eb W]].
    rewrite Eb at 1.
    rewrite (cnt_app w)
      by (rewrite <- (app_nil_r w); apply no_cross_space; auto).
    rewrite (cnt_app (new_section T)) by reflexivity.
    rewrite (cnt_space w W). lia.
  - rewrite !(app_assoc (before mt)). now apply cnt_section_body.
Qed.

(** A problem that the section already lists, in a section without the
    placeholder: [add_problem_checkbox] adds no second line and ignores the
    link and the path it is given.  The block it returns is the one it got
    with, at most, some empty checkboxes ticked; with [done = false] it is
    the same block. *)
Theorem add_problem_checkbox_listed (b T name link path head body : text)
    (done : bool) :
  section_of T b = Some (head, body) ->
  contains PLACEHOLDER body = false ->
  contains (str "[" ++ name ++ str "](") body = true ->
  exists out,
    add_problem_checkbox b T name link path done = Ok out /\
    tick_edit b out /\
    (done = false -> out = b).
Proof.
  unfold section_of. intros S C N.
  destruct (search (section_re T) b) as [mt|] eqn:F; [|discriminate].
  inversion S as [[G1 G2]]. clear S.
  unfold add_problem_checkbox. rewrite F, G1, G2.
  unfold new_section_body. rewrite C.
  destruct (search_section_re _ _ F) as (ws & bd & D & H1 & H2 & _).
  assert (b = before mt ++ head ++ body ++ after mt) as Eb.
  { rewrite D at 1. rewrite <- G1, <- G2, H1, H2. now norm_app. }
  destruct (search (lits (str "[" ++ name ++ str "](")) body) eqn:L.
  - eexists. split; [reflexivity|]. destruct done.
    + split; [|discriminate]. rewrite Eb at 1.
      apply tick_edit_app; [apply tick_edit_refl|].
      apply tick_edit_app; [apply tick_edit_refl|].
      apply tick_edit_app; [apply sub_entry_tick_edit|apply tick_edit_refl].
    + rewrite <- Eb. split; [apply tick_edit_refl|reflexivity].
  - apply search_lits_contains in L. congruence.
Qed.

Lemma add_problem_checkbox_listed_witness :
  exists out,
    add_problem_checkbox block_heap (str "Heap") (str "Heap")
      (str "http://other") (str "elsewhere.py") true = Ok out /\
    tick_edit block_heap out /\
    (true = false -> out = block_heap).
Proof.
  apply (@add_problem_checkbox_listed block_heap (str "Heap") (str "Heap")
           (str "http://other") (str "elsewhere.py")
           (str "## Heap" ++ [NL])
           (str "- [ ] [Heap](http://w/Heap_(ds)) " ++ [EM_DASH]
              ++ str " `heap/heap.py`" ++ [NL; NL]) true);
    vm_compute; reflexivity.
Defined.

(** [main] calls [upsert_category_block] before [add_problem_checkbox]
    (line 173); the call adds nothing, since [add_problem_checkbox] makes
    the section itself when its pattern does not find one. *)
Theorem add_problem_checkbox_after_upsert (b T name link path : text)
    (done : bool) :
  add_problem_checkbox (upsert_category_block b T) T name link path done
  = add_problem_checkbox b T name link path done.
Proof.
  destruct (search (category_re T) b) as [mc|] eqn:C.
  - unfold upsert_category_block. now rewrite C.
  - pose proof (search_section_category _ _ C) as F.
    unfold add_problem_checkbox at 2. rewrite F.
    unfold upsert_category_block at 1. rewrite C.
    unfold add_problem_checkbox, upsert_category_block. rewrite C.
    destruct (search (section_re T) (rstrip b ++ new_section T)) as [mt|] eqn:E.
    + reflexivity.
    + now apply search_new_section in E.
Qed.

(** ** The entry is there afterwards *)

Lemma starts_with_app_l (p : text) :
  forall s t, starts_with p s = true -> starts_with p (s ++ t) = true.
Proof.
  induction p as [|a p IH]; intros s t H; [reflexivity|].
  destruct s as [|c s]; [discriminate|].
  cbn [app starts_with] in *. apply andb_prop in H as [-> H].
  now apply IH.
Qed.

Lemma contains_app_l (p t : text) :
  forall s, contains p s = true -> contains p (s ++ t) = true.
Proof.
  induction s as [|c s IH]; intros H.
  - cbn [contains] in H. rewrite orb_false_r in H.
    apply (starts_with_app_l p [] t) in H. cbn [app] in H.
    destruct t; cbn [app contains]; now rewrite H.
  - cbn [contains] in H. cbn [app contains].
    apply orb_prop in H as [H|H].
    + apply (starts_with_app_l p (c :: s) t) in H. cbn [app] in H.
      now rewrite H.
    + rewrite (IH H). apply orb_true_r.
Qed.

Lemma contains_app_r (p s : text) :
  forall a, contains p s = true -> contains p (a ++ s) = true.
Proof.
  induction a as [|c a IH]; intros H; [exact H|].
  cbn [app contains]. rewrite (IH H). apply orb_true_r.
Qed.

Lemma contains_mid (q a c : text) : contains q (a ++ q ++ c) = true.
Proof.
  apply contains_app_r.
  destruct (q ++ c) eqn:E; cbn [contains]; rewrite <- E;
    now rewrite starts_with_app.
Qed.

Lemma contains_replace_placeholder (q z : text) :
  contains q z = true ->
  forall s, contains PLACEHOLDER s = true ->
            contains q (replace PLACEHOLDER z s) = true.
Proof.
  intros Z. induction s as [|c t IH]; intros C.
  - vm_compute in C. discriminate.
  - destruct (starts_with PLACEHOLDER (c :: t)) eqn:E.
    + apply starts_with_iff in E as [s' E]. rewrite E.
      rewrite replace_placeholder_hit. now apply contains_app_l.
    + rewrite replace_placeholder_miss by assumption.
      cbn [contains] in C. rewrite E in C. cbn [orb] in C.
      cbn [contains]. rewrite (IH C). apply orb_true_r.
Qed.

Lemma entry_line_contains (name link path : text) (done : bool) :
  contains (str "[" ++ name ++ str "](") (entry_line name link path done)
  = true.
Proof.
  assert (entry_line name link path done
          = (str "- " ++ (if done then str "[x]" else str "[ ]") ++ str " ")
              ++ (str "[" ++ name ++ str "](")
              ++ link ++ str ") " ++ EM_DASH :: str " `" ++ path ++ str "`")
    as ->.
  { unfold entry_line. destruct done; norm_app; reflexivity. }
  apply contains_mid.
Qed.

(** A text that ends with [](] and holds no [[ ]] is safe. *)
Lemma tick_safe_paren (a : text) :
  contains (str "[ ]") (a ++ str "](") = false ->
  tick_safe (a ++ str "](") = true.
Proof.
  unfold tick_safe. rewrite negb_true_iff.
  change (str "[ ]") with [91; 32; 93]%N.
  change (str "](") with [93; 40]%N. change (str "]") with [93]%N.
  induction a as [|c a IH]; intros H; [reflexivity|].
  cbn [app contains] in H. apply orb_false_elim in H as [H1 H2].
  cbn [app contains]. rewrite (IH H2), orb_false_r.
  destruct a as [|d [|e a]]; cbn [app starts_with] in *.
  - change (32 =? 93)%N with false. cbn [andb]. apply andb_false_r.
  - change (93 =? 93)%N with true. change (93 =? 40)%N with false.
    change (93 =? 93)%N with true in H1. cbn [andb] in *.
    destruct (91 =? c)%N, (32 =? d)%N; try reflexivity; discriminate.
  - exact H1.
Qed.

(** An occurrence of a safe text that starts with an opening bracket
    survives the ticking. *)
Lemma tick_edit_contains (s s' : text) :
  tick_edit s s' ->
  forall q, tick_safe (91%N :: q) = true ->
            contains (91%N :: q) s = true -> contains (91%N :: q) s' = true.
Proof.
  intros H. induction H as [|c s s' H IH|s s' H IH]; intros q Q C.
  - discriminate.
  - cbn [contains] in C |- *. apply orb_prop in C as [C|C].
    + rewrite (tick_edit_starts_with (te_keep c H) (91%N :: q) Q C).
      reflexivity.
    + rewrite (IH q Q C). apply orb_true_r.
  - pose proof (tick_edit_starts_with (te_tick H) (91%N :: q) Q) as K.
    change (str "[ ]") with [91; 32; 93]%N in C, K.
    change (str "[x]") with [91; 120; 93]%N in K |- *.
    cbn [app] in K. cbn [app contains] in C |- *.
    apply orb_prop in C as [C|C]; [now rewrite (K C)|].
    cbn [starts_with] in C.
    change (91 =? 32)%N with false in C. change (91 =? 93)%N with false in C.
    cbn [andb orb] in C.
    rewrite (IH q Q C). now rewrite !orb_true_r.
Qed.

(** After [add_problem_checkbox] the block holds [[name](]: the problem is
    listed.  When [done] is set, the text [[name](] must hold no [[ ]], which
    line 90 would rewrite inside the name. *)
Theorem add_problem_checkbox_records (b T name link path : text)
    (done : bool) :
  (done = true ->
   contains (str "[ ]") (str "[" ++ name ++ str "](") = false) ->
  exists out,
    add_problem_checkbox b T name link path done = Ok out /\
    contains (str "[" ++ name ++ str "](") out = true.
Proof.
  intros Hs.
  destruct (add_problem_checkbox_eq b T name link path done)
    as [mt [S E]].
  eexists. split; [exact E|].
  apply contains_app_r, contains_app_r, contains_app_l.
  unfold new_section_body.
  destruct (contains PLACEHOLDER (group 2 (groups mt))) eqn:C.
  - apply contains_replace_placeholder;
      [apply entry_line_contains|exact C].
  - destruct (search (lits (str "[" ++ name ++ str "]("))
                (group 2 (groups mt))) eqn:L.
    + assert (contains (str "[" ++ name ++ str "](") (group 2 (groups mt))
              = true) as N.
      { destruct (contains (str "[" ++ name ++ str "](")
                    (group 2 (groups mt))) eqn:X; [reflexivity|].
        apply (search_lits_contains (str "[" ++ name ++ str "](")
                 (group 2 (groups mt)) None []) in X.
        unfold search in L. congruence. }
      destruct done; [|exact N].
      apply (@tick_edit_contains _ _
               (sub_entry_tick_edit name None (group 2 (groups mt)))
               (name ++ str "](")); [|exact N].
      apply (tick_safe_paren (91%N :: name)). apply Hs. reflexivity.
    + apply contains_app_r. apply (contains_app_r _ _ [NL]).
      apply contains_app_l. apply entry_line_contains.
Qed.

Lemma add_problem_checkbox_records_witness :
  exists out,
    add_problem_checkbox block_arrays (str "Arrays") (str "Two Sum")
      (str "http://x") (str "arrays/two_sum.py") true = Ok out /\
    contains (str "[" ++ str "Two Sum" ++ str "](") out = true.
Proof.
  apply (@add_problem_checkbox_records block_arrays (str "Arrays")
           (str "Two Sum") (str "http://x") (str "arrays/two_sum.py") true).
  intros _. vm_compute. reflexivity.
Defined.

(** ** The README update of [main] on text without backslashes *)

Lemma no_backslash_tick (s s' : text) :
  tick_edit s s' -> no_backslash s = true -> no_backslash s' = true.
Proof.
  intros H. induction H as [|c s s' H IH|s s' H IH]; intros N.
  - reflexivity.
  - change (c :: s) with ([c] ++ s) in N. change (c :: s') with ([c] ++ s').
    rewrite no_backslash_app in *. apply andb_prop in N as [-> N].
    now apply IH.
  - rewrite no_backslash_app in *. apply andb_prop in N as [_ N].
    rewrite (IH N). reflexivity.
Qed.

Lemma no_backslash_replace (z : text) :
  no_backslash z = true ->
  forall s, no_backslash s = true ->
            no_backslash (replace PLACEHOLDER z s) = true.
Proof.
  intros Z s. induction s as [s IH] using (induction_ltof1 _ (@length char)).
  unfold ltof in IH. intros N.
  destruct s as [|c t]; [reflexivity|].
  destruct (starts_with PLACEHOLDER (c :: t)) eqn:E.
  - apply starts_with_iff in E as [s' E]. rewrite E in N |- *.
    rewrite replace_placeholder_hit.
    rewrite no_backslash_app in *. apply andb_prop in N as [_ N].
    rewrite Z. apply IH; [|exact N].
    rewrite E, length_app. simpl. lia.
  - rewrite replace_placeholder_miss by assumption.
    change (c :: t) with ([c] ++ t) in N.
    change (c :: replace PLACEHOLDER z t)
      with ([c] ++ replace PLACEHOLDER z t).
    rewrite no_backslash_app in *. apply andb_prop in N as [-> N].
    apply IH; [simpl; lia|exact N].
Qed.

Lemma no_backslash_rstrip (s : text) :
  no_backslash s = true -> no_backslash (rstrip s) = true.
Proof.
  intros N. destruct (rstrip_split s) as [ws [E _]].
  rewrite E, no_backslash_app in N. now apply andb_prop in N as [N _].
Qed.

Lemma no_backslash_entry_line (name link path : text) (done : bool) :
  no_backslash name = true -> no_backslash link = true ->
  no_backslash path = true ->
  no_backslash (entry_line name link path done) = true.
Proof.
  intros A B C. unfold entry_line.
  change (EM_DASH :: str " `" ++ path ++ str "`")
    with ((EM_DASH :: str " `") ++ path ++ str "`").
  rewrite !no_backslash_app, A, B, C. now destruct done.
Qed.

Lemma no_backslash_section_body (body name link path : text) (done : bool) :
  no_backslash body = true -> no_backslash name = true ->
  no_backslash link = true -> no_backslash path = true ->
  no_backslash (new_section_body body name link path done) = true.
Proof.
  intros Hb A B C. unfold new_section_body.
  pose proof (@no_backslash_entry_line name link path done A B C) as L.
  destruct (contains PLACEHOLDER body).
  - now apply no_backslash_replace.
  - destruct (search _ body).
    + destruct done; [|exact Hb].
      apply (@no_backslash_tick _ _ (sub_entry_tick_edit name None body) Hb).
    + rewrite !no_backslash_app, L, (@no_backslash_rstrip _ Hb). reflexivity.
Qed.

Lemma add_problem_checkbox_no_backslash (b T name link path : text)
    (done : bool) :
  no_backslash b = true -> no_backslash T = true ->
  no_backslash name = true -> no_backslash link = true ->
  no_backslash path = true ->
  exists out,
    add_problem_checkbox b T name link path done = Ok out /\
    no_backslash out = true.
Proof.
  intros Hb Ht A B C.
  destruct (add_problem_checkbox_eq b T name link path done)
    as [mt [S E]].
  eexists. split; [exact E|].
  destruct (search_section_re _ _ S) as (ws & body & D & G1 & G2 & _).
  assert (no_backslash (before mt ++ (str "## " ++ T ++ ws) ++ body
                          ++ after mt) = true) as N.
  { rewrite <- D. destruct (search (section_re T) b); [exact Hb|].
    unfold upsert_category_block.
    destruct (search (category_re T) b); [exact Hb|].
    unfold new_section.
    rewrite !no_backslash_app, (@no_backslash_rstrip _ Hb), Ht.
    reflexivity. }
  rewrite G1, G2.
  rewrite !no_backslash_app in N |- *.
  apply andb_prop in N as [N1 N]. apply andb_prop in N as [N2 N].
  apply andb_prop in N as [N3 N4].
  rewrite N1, N2, N4, (@no_backslash_section_body _ name link path done N3 A B C).
  reflexivity.
Qed.

Lemma replace_progress_block_ok (readme new_block : text) :
  no_backslash new_block = true ->
  exists out, replace_progress_block readme new_block = Ok out.
Proof.
  intros N. unfold replace_progress_block.
  destruct (search progress_re readme); [|eexists; reflexivity].
  unfold sub_template.
  rewrite parse_template_literal;
    [|lia|rewrite !no_backslash_app, N; reflexivity].
  eexists. reflexivity.
Qed.

(** The README update of [main] (lines 169 to 183) returns normally when
    the text between the markers of the README, the category title, the
    problem name, the link and the path hold no backslash. *)
Theorem update_readme_ok (readme T name link path : text) (done : bool) :
  no_backslash (extract_progress_block readme) = true ->
  no_backslash T = true -> no_backslash name = true ->
  no_backslash link = true -> no_backslash path = true ->
  exists out, update_readme readme T name link path done = Ok out.
Proof.
  intros Hr Ht A B C. unfold update_readme.
  assert (no_backslash
            (upsert_category_block (extract_progress_block readme) T) = true)
    as Hu.
  { unfold upsert_category_block.
    destruct (search (category_re T) _); [exact Hr|].
    unfold new_section.
    rewrite !no_backslash_app, (@no_backslash_rstrip _ Hr), Ht.
    reflexivity. }
  destruct (@add_problem_checkbox_no_backslash _ T name link path done Hu Ht A B C)
    as (pb & E & N).
  rewrite E. cbn [bind].
  destruct (@replace_progress_block_ok readme pb N) as [r R].
  rewrite R. cbn [bind]. rewrite update_summary_counts_eq.
  eexists. reflexivity.
Qed.

Lemma update_readme_ok_witness :
  exists out,
    update_readme default_readme (str "Arrays") (str "Two Sum")
      (str "http://x") (str "arrays/two_sum.py") true = Ok out.
Proof.
  apply (@update_readme_ok default_readme (str "Arrays") (str "Two Sum")
           (str "http://x") (str "arrays/two_sum.py") true);
    vm_compute; reflexivity.
Defined.

(** ** [slugify] *)

(** [str.replace] of one character. *)
Lemma replace_single (a : char) (new s : text) :
  replace [a] new s
  = flat_map (fun c => if (a =? c)%N then new else [c]) s.
Proof.
  unfold replace. induction s as [|c t IH]; [reflexivity|].
  cbn [replace_aux starts_with length Nat.sub flat_map].
  destruct (a =? c)%N; cbn [andb]; now rewrite IH.
Qed.

Lemma without_app (x : char) (a b : text) :
  without x (a ++ b) = without x a && without x b.
Proof. apply forallb_app. Qed.

(** The replaced character is gone, unless the new text brings it. *)
Lemma replace_single_without (a : char) (new s : text) :
  without a new = true -> without a (replace [a] new s) = true.
Proof.
  intros N. rewrite replace_single.
  induction s as [|c t IH]; [reflexivity|].
  cbn [flat_map]. rewrite without_app, IH, andb_true_r.
  destruct (a =? c)%N eqn:E; [exact N|].
  unfold without. cbn [forallb]. now rewrite N.eqb_sym, E.
Qed.

(** A character that is neither in the text nor in the new text is not in
    the result. *)
Lemma replace_single_keeps (a x : char) (new s : text) :
  without x new = true -> without x s = true ->
  without x (replace [a] new s) = true.
Proof.
  intros N. rewrite replace_single.
  induction s as [|c t IH]; intros H; [reflexivity|].
  unfold without in H. cbn [forallb] in H. apply andb_prop in H as [Hc H].
  cbn [flat_map]. rewrite without_app, (IH H), andb_true_r.
  destruct (a =? c)%N; [exact N|].
  unfold without. cbn [forallb]. now rewrite Hc.
Qed.

(** The name that [slugify] makes holds no space, no hyphen and no
    apostrophe, whatever the name it is given and whatever the lower-casing
    does. *)
Theorem slugify_charset (lower : text -> text) (name : text) :
  without 32%N (slugify lower name) = true /\
  without 45%N (slugify lower name) = true /\
  without 39%N (slugify lower name) = true.
Proof.
  unfold slugify.
  change (str "'") with [39%N]. change (str "-") with [45%N].
  change (str " ") with [32%N]. change (str "_") with [95%N].
  set (s0 := lower (strip name)).
  assert (without 32%N (replace [32%N] [95%N] s0) = true) as A
    by now apply replace_single_without.
  assert (without 32%N (replace [45%N] [95%N] (replace [32%N] [95%N] s0))
          = true) as A' by now apply replace_single_keeps.
  assert (without 45%N (replace [45%N] [95%N] (replace [32%N] [95%N] s0))
          = true) as B by now apply replace_single_without.
  split; [|split].
  - now apply replace_single_keeps.
  - now apply replace_single_keeps.
  - now apply replace_single_without.
Qed.

(** ** Ticking an entry line *)

(** What the pattern of line 89 matches: a not-done entry line for the name
    with a link without closing parenthesis and a path without backquote,
    both not empty, from the start to the end of a line. *)
Lemma in_m_entry_re (name : text) (prev : option char) (s c s' : text)
    (k : caps) :
  In (c, s', k) (m (entry_re name) prev s) <->
  exists l p,
    c = str "- [ ]" ++ entry_tail name l p /\
    s = c ++ s' /\
    k = [] /\
    at_bol prev = true /\
    forallb (not_char 41%N) l = true /\ l <> [] /\
    forallb (not_char 96%N) p = true /\ p <> [] /\
    at_eol s' = true.
Proof.
  unfold entry_re, entry_tail. rewrite in_m_seq. split.
  - intros (x1 & x2 & x3 & x4 & x5 & B & H & -> & ->).
    apply in_m_bol in B as (-> & -> & -> & B).
    apply in_m_seq in H as (h1 & h2 & h3 & h4 & h5 & L1 & H & -> & ->).
    apply in_m_lits in L1 as (-> & L1 & ->).
    apply in_m_seq in H as (l & i2 & i3 & i4 & i5 & L & H & -> & ->).
    apply in_m_rep in L as (W1 & W2 & W3 & ->).
    apply in_m_seq in H as (j1 & j2 & j3 & j4 & j5 & L2 & H & -> & ->).
    apply in_m_lits in L2 as (-> & L2 & ->).
    apply in_m_seq in H as (p & n2 & n3 & n4 & n5 & P & H & -> & ->).
    apply in_m_rep in P as (P1 & P2 & P3 & ->).
    apply in_m_seq in H as (o1 & o2 & o3 & o4 & o5 & L4 & E & -> & ->).
    apply in_m_lits in L4 as (-> & L4 & ->).
    apply in_m_eol in E as (-> & -> & -> & E).
    exists l, p. subst. norm_app. rewrite !app_nil_r.
    repeat (split; [solve [trivial]|]).
    split; [destruct l; [simpl in W3; lia|discriminate]|].
    split; [assumption|].
    split; [destruct p; [simpl in P3; lia|discriminate]|].
    destruct E as [->|[t ->]]; reflexivity.
  - intros (l & p & -> & E & -> & B & W & Wn & P & Pn & Z).
    revert E. norm_app. intros E.
    exists [], s, [],
      (str "- [ ] [" ++ name ++ str "](" ++ l ++ str ") " ++ EM_DASH
         :: str " `" ++ p ++ str "`"), [].
    split; [now apply in_m_bol|]. split; [|split; [now norm_app|reflexivity]].
    apply in_m_seq.
    exists (str "- [ ] [" ++ name ++ str "]("),
      (l ++ str ") " ++ EM_DASH :: str " `" ++ p ++ str "`" ++ s'), [],
      (l ++ str ") " ++ EM_DASH :: str " `" ++ p ++ str "`"), [].
    split; [apply in_m_lits; repeat split; rewrite E; now norm_app|].
    split; [|split; [now norm_app|reflexivity]].
    apply in_m_seq.
    exists l, (str ") " ++ EM_DASH :: str " `" ++ p ++ str "`" ++ s'), [],
      (str ") " ++ EM_DASH :: str " `" ++ p ++ str "`"), [].
    split.
    { apply in_m_rep. repeat split; trivial.
      destruct l; [congruence|simpl; lia]. }
    split; [|now split].
    apply in_m_seq.
    exists (str ") " ++ EM_DASH :: str " `"), (p ++ str "`" ++ s'), [],
      (p ++ str "`"), [].
    split; [apply in_m_lits; repeat split|]. split; [|now split].
    apply in_m_seq.
    exists p, (str "`" ++ s'), [], (str "`"), [].
    split.
    { apply in_m_rep. repeat split; trivial.
      destruct p; [congruence|simpl; lia]. }
    split; [|now split].
    apply in_m_seq. exists (str "`"), s', [], [], [].
    split; [apply in_m_lits; repeat split|].
    split; [|now split].
    apply in_m_eol. repeat split.
    destruct s' as [|x t]; [now left|right].
    cbn [at_eol] in Z. apply N.eqb_eq in Z. subst x. now exists t.
Qed.

(** The link, the path and the rest are determined by the text. *)
Lemma entry_tail_unique (name l p s l' p' s' : text) :
  forallb (not_char 41%N) l = true -> forallb (not_char 41%N) l' = true ->
  forallb (not_char 96%N) p = true -> forallb (not_char 96%N) p' = true ->
  entry_tail name l p ++ s = entry_tail name l' p' ++ s' ->
  l = l' /\ p = p' /\ s = s'.
Proof.
  intros L L' P P' E. unfold entry_tail in E. revert E. norm_app. intros E.
  apply app_inv_head in E. apply app_inv_head in E. apply app_inv_head in E.
  change (str ") ") with [41; 32]%N in E. cbn [app] in E.
  apply (run_unique (not_char 41%N)) in E as [-> E]; try reflexivity;
    try assumption.
  injection E as E.
  apply (run_unique (not_char 96%N)) in E as [-> E]; try reflexivity;
    try assumption.
  injection E as E. now subst.
Qed.

Lemma replace_absent (old new : text) :
  old <> [] -> forall s, contains old s = false -> replace old new s = s.
Proof.
  intros N. induction s as [|c t IH]; intros C.
  - destruct old; [congruence|reflexivity].
  - cbn [contains] in C. apply orb_false_elim in C as [C1 C2].
    rewrite replace_miss by assumption. now rewrite IH.
Qed.

(** Line 90 on an entry line with no other [[ ]] than its checkbox. *)
Lemma tick_entry_line (name l p : text) :
  contains (str "[ ]") (entry_tail name l p) = false ->
  replace (str "[ ]") (str "[x]") (entry_line name l p false)
  = entry_line name l p true.
Proof.
  intros C.
  change (entry_line name l p false)
    with (45%N :: 32%N :: str "[ ]" ++ entry_tail name l p).
  change (entry_line name l p true)
    with (45%N :: 32%N :: str "[x]" ++ entry_tail name l p).
  rewrite replace_miss by (trivial; discriminate).
  rewrite replace_miss by (trivial; discriminate).
  rewrite replace_hit by discriminate.
  now rewrite replace_absent by (trivial; discriminate).
Qed.

(** [re.sub] at the start of a not-done entry line replaces that line. *)
Lemma sub_aux_at_entry (name : text) (repl : text -> caps -> text)
    (prev : option char) (l p post : text) :
  at_bol prev = true ->
  forallb (not_char 41%N) l = true -> l <> [] ->
  forallb (not_char 96%N) p = true -> p <> [] ->
  at_eol post = true ->
  sub_aux (entry_re name) repl 0 prev (entry_line name l p false ++ post)
  = repl (entry_line name l p false) []
      ++ sub_aux (entry_re name) repl 0
           (prev_after prev (entry_line name l p false)) post.
Proof.
  intros B L Ln P Pn Z.
  change (entry_line name l p false)
    with (str "- [ ]" ++ entry_tail name l p).
  set (c0 := str "- [ ]" ++ entry_tail name l p).
  assert (In (c0, post, []) (m (entry_re name) prev (c0 ++ post))) as Hin.
  { apply in_m_entry_re. exists l, p. auto 10. }
  destruct (m (entry_re name) prev (c0 ++ post)) as [|[[c s1] k] tl] eqn:E;
    [destruct Hin|].
  assert (In (c, s1, k) (m (entry_re name) prev (c0 ++ post))) as H1
    by (rewrite E; now left).
  apply in_m_entry_re in H1
    as (l' & p' & -> & S & -> & _ & L' & _ & P' & _ & _).
  unfold c0 in S. rewrite <- !app_assoc in S. apply app_inv_head in S.
  destruct (@entry_tail_unique name l p post l' p' s1) as (<- & <- & <-);
    trivial.
  apply sub_aux_hit with (tl := tl); [exact E|discriminate].
Qed.

(** [re.sub] in front of the first mention of the name: no entry line for
    the name starts there. *)
Lemma sub_aux_before_entry (name : text) (repl : text -> caps -> text)
    (tail : text) :
  forall pre prev,
    (forall a' b',
        pre ++ tail = a' ++ (str "[" ++ name ++ str "](") ++ b' ->
        length pre + 6 <= length a') ->
    sub_aux (entry_re name) repl 0 prev (pre ++ tail)
    = pre ++ sub_aux (entry_re name) repl 0 (prev_after prev pre) tail.
Proof.
  induction pre as [|x pre IH]; intros prev F; [reflexivity|].
  cbn [app]. rewrite sub_aux_miss.
  - f_equal. apply IH. intros a' b' E.
    specialize (F (x :: a') b'). cbn [app length] in F.
    rewrite E in F. specialize (F eq_refl). lia.
  - destruct (m (entry_re name) prev (x :: pre ++ tail))
      as [|[[c s1] k] tl] eqn:E; [reflexivity|].
    exfalso.
    assert (In (c, s1, k) (m (entry_re name) prev (x :: pre ++ tail))) as H
      by (rewrite E; now left).
    apply in_m_entry_re in H as (l & p & -> & S & _).
    assert (length (x :: pre) + 6 <= length (str "- [ ] ")) as K.
    { apply F with (b' := l ++ str ") " ++ EM_DASH :: str " `" ++ p
                            ++ str "`" ++ s1).
      change ((x :: pre) ++ tail) with (x :: pre ++ tail). rewrite S.
      unfold entry_tail. norm_app. reflexivity. }
    simpl in K. lia.
Qed.

(** With [done = true], when the first mention of the problem in its
    section is a not-done entry line as [add_problem_checkbox] writes it
    (a link without closing parenthesis, a path without backquote, both not
    empty, and no other [[ ]] in the line), that line becomes the done entry
    line.  The text before it stays, the link and the path of the call are
    not used, and the text after the line changes at most by ticked
    checkboxes. *)
Theorem add_problem_checkbox_ticks
    (b T name link path head pre link0 path0 post : text) :
  section_of T b
  = Some (head, pre ++ entry_line name link0 path0 false ++ post) ->
  contains PLACEHOLDER (pre ++ entry_line name link0 path0 false ++ post)
  = false ->
  find_first (str "[" ++ name ++ str "](")
    (pre ++ entry_line name link0 path0 false ++ post)
  = Some (pre ++ str "- [ ] ",
          link0 ++ str ") " ++ EM_DASH :: str " `" ++ path0 ++ str "`"
            ++ post) ->
  at_bol (prev_after None pre) = true ->
  at_eol post = true ->
  link0 <> [] -> forallb (not_char 41%N) link0 = true ->
  path0 <> [] -> forallb (not_char 96%N) path0 = true ->
  contains (str "[ ]") (entry_tail name link0 path0) = false ->
  exists x y post',
    b = x ++ head ++ pre ++ entry_line name link0 path0 false ++ post ++ y /\
    add_problem_checkbox b T name link path true
    = Ok (x ++ head ++ pre ++ entry_line name link0 path0 true
            ++ post' ++ y) /\
    tick_edit post post'.
Proof.
  set (body := pre ++ entry_line name link0 path0 false ++ post).
  intros S C F B Z Ln L Pn P K.
  unfold section_of in S.
  destruct (search (section_re T) b) as [mt|] eqn:Fs; [|discriminate].
  assert (group 1 (groups mt) = head) as G1 by congruence.
  assert (group 2 (groups mt) = body) as G2 by congruence.
  clear S.
  unfold add_problem_checkbox. rewrite Fs, G1, G2.
  unfold new_section_body. rewrite C.
  pose proof (find_first_some _ _ F) as [Eb Fm].
  destruct (search (lits (str "[" ++ name ++ str "](")) body) eqn:Lq.
  - exists (before mt), (after mt),
      (sub_aux (entry_re name)
         (fun m0 _ => replace (str "[ ]") (str "[x]") m0) 0
         (prev_after None (pre ++ entry_line name link0 path0 false)) post).
    split.
    { destruct (search_section_re _ _ Fs)
        as (ws & bd & D & H1 & H2 & _).
      assert (head = str "## " ++ T ++ ws) as -> by congruence.
      assert (bd = body) as -> by congruence.
      rewrite D at 1. unfold body. now norm_app. }
    split; [|apply sub_entry_tick_edit].
    do 3 f_equal. unfold sub, body.
    rewrite sub_aux_before_entry.
    + rewrite sub_aux_at_entry by assumption.
      rewrite tick_entry_line by assumption.
      rewrite prev_after_app. now norm_app.
    + intros a' b' E. specialize (Fm a' b' E).
      rewrite length_app in Fm. simpl in Fm. lia.
  - exfalso. unfold search in Lq. apply search_lits_contains in Lq.
    rewrite Eb in Lq. now rewrite contains_mid in Lq.
Qed.

Lemma add_problem_checkbox_ticks_witness :
  exists x y post',
    block_two_entries
    = x ++ (str "## Arrays" ++ [NL])
        ++ (entry_line (str "3Sum") (str "http://y") (str "arrays/3sum.py")
              true ++ [NL])
        ++ entry_line (str "Two Sum") (str "http://x")
             (str "arrays/two_sum.py") false
        ++ [NL; NL] ++ y /\
    add_problem_checkbox block_two_entries (str "Arrays") (str "Two Sum")
      (str "http://other") (str "elsewhere.py") true
    = Ok (x ++ (str "## Arrays" ++ [NL])
            ++ (entry_line (str "3Sum") (str "http://y")
                  (str "arrays/3sum.py") true ++ [NL])
            ++ entry_line (str "Two Sum") (str "http://x")
                 (str "arrays/two_sum.py") true
            ++ post' ++ y) /\
    tick_edit [NL; NL] post'.
Proof.
  apply (@add_problem_checkbox_ticks block_two_entries (str "Arrays")
           (str "Two Sum") (str "http://other") (str "elsewhere.py")
           (str "## Arrays" ++ [NL])
           (entry_line (str "3Sum") (str "http://y") (str "arrays/3sum.py")
              true ++ [NL])
           (str "http://x") (str "arrays/two_sum.py") [NL; NL]);
    first [vm_compute; reflexivity | vm_compute; discriminate].
Defined.

(** ** What [replace_progress_block] leaves alone, and what it does not *)

(** In a document with one pair of markers, a block without a backslash
    replaces the text between the markers and nothing else: the text before
    the start marker, the markers and the text after the end marker stay. *)
Theorem replace_progress_block_frame (readme new_block a rest r b : text) :
  find_first PROGRESS_START readme = Some (a, rest) ->
  find_first PROGRESS_END rest = Some (r, b) ->
  between_markers b = None ->
  no_backslash new_block = true ->
  replace_progress_block readme new_block
  = Ok (a ++ PROGRESS_START ++ new_block ++ PROGRESS_END ++ b).
Proof.
  intros F G B N. unfold replace_progress_block.
  pose proof (search_progress_re readme) as S. rewrite F, G in S.
  rewrite S. unfold sub_template.
  rewrite parse_template_literal;
    [|lia|rewrite !no_backslash_app, N; reflexivity].
  unfold sub, search in *.
  destruct (sub_aux_search progress_re
              (expand (map TLit (PROGRESS_START ++ new_block
                                   ++ PROGRESS_END)))
              _ _ _ S) as (a' & Ha & Hs).
  { cbn [whole]. discriminate. }
  cbn [before whole after groups rev app] in *. subst a'.
  rewrite Hs, expand_literal. f_equal.
  rewrite (@sub_aux_no_match progress_re _ b _ []).
  - now rewrite <- !app_assoc.
  - rewrite search_from_progress_re. unfold between_markers in B.
    destruct (find_first PROGRESS_START b) as [[u v]|]; [|reflexivity].
    destruct (find_first PROGRESS_END v) as [[x y]|];
      [discriminate|reflexivity].
Qed.

Lemma replace_progress_block_frame_witness :
  replace_progress_block readme_one_done block_arrays
  = Ok ((str "## Progress Summary" ++ [NL]
           ++ str "- Total: 0 done / 150 planned" ++ [NL; NL])
          ++ PROGRESS_START ++ block_arrays ++ PROGRESS_END ++ [NL]).
Proof.
  apply (@replace_progress_block_frame readme_one_done block_arrays
           (str "## Progress Summary" ++ [NL]
              ++ str "- Total: 0 done / 150 planned" ++ [NL; NL])
           (region_one_done ++ PROGRESS_END ++ [NL])
           region_one_done [NL]); vm_compute; reflexivity.
Defined.

(** The marker pattern has no anchor: what it matches does not depend on
    the character before. *)
Lemma sub_aux_progress_prev (repl : text -> caps -> text) :
  forall s n prev prev',
    sub_aux progress_re repl n prev s = sub_aux progress_re repl n prev' s.
Proof.
  induction s as [|x t IH]; intros n prev prev'.
  - destruct n; cbn [sub_aux]; [|reflexivity].
    unfold match_here. now rewrite (m_progress_re prev), (m_progress_re prev').
  - destruct n; cbn [sub_aux]; [|reflexivity].
    unfold match_here.
    now rewrite (m_progress_re prev), (m_progress_re prev').
Qed.

(** [re.sub] rewrites every marked region, not only the first: the text
    after the first region is treated as a document of its own when it has
    a pair of markers too. *)
Theorem replace_progress_block_every_region
    (readme new_block a rest r b : text) :
  find_first PROGRESS_START readme = Some (a, rest) ->
  find_first PROGRESS_END rest = Some (r, b) ->
  between_markers b <> None ->
  no_backslash new_block = true ->
  exists b',
    replace_progress_block b new_block = Ok b' /\
    replace_progress_block readme new_block
    = Ok (a ++ PROGRESS_START ++ new_block ++ PROGRESS_END ++ b').
Proof.
  intros F G B N.
  assert (search progress_re b <> None) as Sb.
  { rewrite search_progress_re. unfold between_markers in B.
    destruct (find_first PROGRESS_START b) as [[u v]|]; [|congruence].
    destruct (find_first PROGRESS_END v) as [[x y]|]; congruence. }
  unfold replace_progress_block.
  pose proof (search_progress_re readme) as S. rewrite F, G in S.
  rewrite S. destruct (search progress_re b) as [mb|]; [|congruence].
  unfold sub_template.
  rewrite parse_template_literal;
    [|lia|rewrite !no_backslash_app, N; reflexivity].
  eexists. split; [reflexivity|].
  unfold sub, search in *.
  destruct (sub_aux_search progress_re
              (expand (map TLit (PROGRESS_START ++ new_block
                                   ++ PROGRESS_END)))
              _ _ _ S) as (a' & Ha & Hs).
  { cbn [whole]. discriminate. }
  cbn [before whole after groups rev app] in *. subst a'.
  rewrite Hs, expand_literal. f_equal.
  rewrite (sub_aux_progress_prev _ b 0 _ None).
  now rewrite <- !app_assoc.
Qed.

Lemma replace_progress_block_every_region_witness :
  exists b',
    replace_progress_block
      ([NL] ++ PROGRESS_START ++ str "two" ++ PROGRESS_END ++ [NL])
      (str "new") = Ok b' /\
    replace_progress_block readme_two_regions (str "new")
    = Ok ([] ++ PROGRESS_START ++ str "new" ++ PROGRESS_END ++ b').
Proof.
  apply (@replace_progress_block_every_region readme_two_regions (str "new")
           [] (str "one" ++ PROGRESS_END ++ [NL] ++ PROGRESS_START
                 ++ str "two" ++ PROGRESS_END ++ [NL])
           (str "one")
           ([NL] ++ PROGRESS_START ++ str "two" ++ PROGRESS_END ++ [NL]));
    first [vm_compute; reflexivity | vm_compute; discriminate].
Defined.

(** ** A problem of a new category *)

Lemma starts_with_contains (p s : text) :
  starts_with p s = true -> contains p s = true.
Proof. intros H. destruct s; cbn [contains]; now rewrite H. Qed.

(** The section pattern matches at the heading that
    [upsert_category_block] writes. *)
Lemma m_new_section (T : text) (prev : option char) :
  at_bol prev = true ->
  m (section_re T) prev (str "## " ++ T ++ [NL] ++ PLACEHOLDER ++ [NL; NL])
  <> [].
Proof.
  intros B. apply not_nil_in.
  exists ((str "## " ++ T ++ []) ++ [NL] ++ PLACEHOLDER ++ [NL; NL],
          [], [(1, str "## " ++ T ++ []); (2, [NL] ++ PLACEHOLDER ++ [NL; NL])]).
  apply in_m_section_re. exists [], ([NL] ++ PLACEHOLDER ++ [NL; NL]).
  split; [reflexivity|].
  split; [now rewrite !app_nil_r, <- !app_assoc|].
  split; [reflexivity|]. split; [exact B|]. split; [reflexivity|].
  split; [discriminate|now right].
Qed.

(** Where the new heading is, when the block has no such heading text. *)
Lemma find_first_new_section (b T : text) :
  find_first (str "## " ++ T) b = None ->
  forallb (not_char NL) T = true ->
  find_first (str "## " ++ T) (rstrip b ++ new_section T)
  = Some (rstrip b ++ [NL; NL], [NL] ++ PLACEHOLDER ++ [NL; NL]).
Proof.
  intros F N.
  assert (forallb (not_char NL) (str "## " ++ T) = true) as NP
    by (rewrite forallb_app, N; reflexivity).
  assert (str "## " ++ T <> []) as NE by discriminate.
  destruct (rstrip_split b) as [ws [R _]]. rewrite R in F.
  apply find_first_none_prefix in F.
  unfold new_section.
  change (rstrip b ++ [NL; NL] ++ str "## " ++ T ++ [NL] ++ PLACEHOLDER
            ++ [NL; NL])
    with (rstrip b ++ NL :: [NL] ++ str "## " ++ T ++ [NL] ++ PLACEHOLDER
            ++ [NL; NL]).
  rewrite (@find_first_past_nl (str "## " ++ T) NP NE (rstrip b) _ F).
  pose proof (@find_first_past_nl (str "## " ++ T) NP NE []
                (str "## " ++ T ++ [NL] ++ PLACEHOLDER ++ [NL; NL])
                eq_refl) as P2.
  cbn [app] in P2. cbn [app]. rewrite P2. clear P2.
  pose proof (find_first_unfold (str "## " ++ T)
                ((str "## " ++ T) ++ [NL] ++ PLACEHOLDER ++ [NL; NL])) as U.
  rewrite starts_with_app, skipn_length_app in U.
  rewrite <- app_assoc in U. cbn [app] in U. rewrite U.
  reflexivity.
Qed.

(** A problem of a category whose heading text [## title] occurs nowhere
    in the block, for a title without newline: [add_problem_checkbox]
    appends, after the block without its trailing whitespace and a blank
    line, the heading, the entry line and a blank line. *)
Theorem add_problem_checkbox_new_category (b T name link path : text)
    (done : bool) :
  find_first (str "## " ++ T) b = None ->
  forallb (not_char NL) T = true ->
  add_problem_checkbox b T name link path done
  = Ok (rstrip b ++ [NL; NL] ++ str "## " ++ T ++ [NL]
          ++ entry_line name link path done ++ [NL; NL]).
Proof.
  intros F N.
  assert (search (section_re T) b = None) as S0.
  { destruct (search (section_re T) b) as [m0|] eqn:S0; [|reflexivity].
    destruct (search_section_re _ _ S0) as (ws & body & D & _).
    exfalso.
    apply (find_first_none _ F (before m0) (ws ++ body ++ after m0)).
    rewrite D at 1. now rewrite <- !app_assoc. }
  destruct (add_problem_checkbox_eq b T name link path done)
    as [mt [S E]].
  rewrite S0 in S. unfold upsert_category_block in S.
  rewrite (search_category_section _ _ S0) in S.
  rewrite E. clear E. f_equal.
  pose proof (@find_first_new_section b T F N) as FF.
  apply find_first_some in FF as [_ Fm].
  destruct (search_section_re _ _ S)
    as (ws & body & D & G1 & G2 & _ & W & Bn & Z).
  unfold search in S.
  apply search_from_some in S as (a & tl & H1 & H2 & H3 & H4).
  cbn [rev app] in H2. subst a.
  assert (length (rstrip b ++ [NL; NL]) <= length (before mt)) as Le.
  { apply (Fm (before mt) (ws ++ body ++ after mt)).
    rewrite D at 1. now rewrite <- !app_assoc. }
  assert (rstrip b ++ new_section T
          = (rstrip b ++ [NL; NL])
              ++ str "## " ++ T ++ [NL] ++ PLACEHOLDER ++ [NL; NL]) as X
    by (unfold new_section; now rewrite <- !app_assoc).
  rewrite X in H1.
  destruct (app_eq_app_le _ _ _ _ H1 Le) as (d & Hb & Hd).
  destruct d as [|x d].
  - rewrite app_nil_r in Hb. cbn [app] in Hd.
    rewrite G1, G2, Hb.
    assert (str "## " ++ T ++ [NL] ++ PLACEHOLDER ++ [NL; NL]
            = str "## " ++ T ++ ws ++ body ++ after mt) as Ht.
    { apply (app_inv_head (before mt)). rewrite Hb at 1.
      rewrite <- X, D. now rewrite <- !app_assoc. }
    apply app_inv_head in Ht. apply app_inv_head in Ht.
    assert (after mt = []) as A.
    { destruct Z as [[_ Z]|Z]; [|exact Z]. exfalso.
      apply starts_with_contains in Z.
      apply (contains_app_r _ _ (ws ++ body)) in Z.
      rewrite <- app_assoc, <- Ht in Z. vm_compute in Z. discriminate. }
    rewrite A, app_nil_r in *.
    destruct ws as [|w ws].
    + cbn [app] in Ht. rewrite <- Ht. unfold new_section_body.
      change (contains PLACEHOLDER ([NL] ++ PLACEHOLDER ++ [NL; NL]))
        with true. cbn iota.
      change ([NL] ++ PLACEHOLDER ++ [NL; NL])
        with (NL :: PLACEHOLDER ++ [NL; NL]).
      rewrite replace_placeholder_miss by reflexivity.
      rewrite replace_placeholder_hit.
      change (replace PLACEHOLDER (entry_line name link path done) [NL; NL])
        with [NL; NL].
      now norm_app.
    + cbn [app] in Ht. injection Ht as Hw Ht. subst w.
      destruct ws as [|w2 ws].
      * change (PLACEHOLDER ++ [NL; NL] = body) in Ht.
        rewrite <- Ht. unfold new_section_body.
        change (contains PLACEHOLDER (PLACEHOLDER ++ [NL; NL])) with true.
        cbn iota. rewrite replace_placeholder_hit.
        change (replace PLACEHOLDER (entry_line name link path done)
                  [NL; NL]) with [NL; NL].
        now norm_app.
      * exfalso. cbn [app] in Ht. injection Ht as Hw _. subst w2.
        cbn [forallb] in W. apply andb_prop in W as [_ W].
        apply andb_prop in W as [W _]. vm_compute in W. discriminate.
  - exfalso. apply (@m_new_section T (prev_after None (rstrip b ++ [NL; NL]))).
    + now rewrite prev_after_app.
    + rewrite Hd. apply (H4 (rstrip b ++ [NL; NL]) (x :: d) Hb).
      discriminate.
Qed.

Lemma add_problem_checkbox_new_category_witness :
  add_problem_checkbox block_arrays (str "Stack") (str "Min Stack")
    (str "http://x") (str "stack/min_stack.py") true
  = Ok (rstrip block_arrays ++ [NL; NL] ++ str "## " ++ str "Stack" ++ [NL]
          ++ entry_line (str "Min Stack") (str "http://x")
               (str "stack/min_stack.py") true
          ++ [NL; NL]).
Proof.
  apply add_problem_checkbox_new_category; vm_compute; reflexivity.
Defined.

(** ** The block that is taken out *)

(** The text that [extract_progress_block] takes from between a pair of
    markers holds no end marker: the region ends at the first one. *)
Theorem extract_progress_block_no_end (readme : text) :
  between_markers readme <> None ->
  find_first PROGRESS_END (extract_progress_block readme) = None.
Proof.
  rewrite extract_between. unfold between_markers. intros M.
  destruct (find_first PROGRESS_START readme) as [[a rest]|]; [|congruence].
  destruct (find_first PROGRESS_END rest) as [[r b]|] eqn:G; [|congruence].
  destruct (find_first PROGRESS_END r) as [[u v]|] eqn:F; [|reflexivity].
  exfalso. apply find_first_some in F as [F _].
  apply find_first_some in G as [G Gm].
  assert (length r <= length u) as L.
  { apply (Gm u (v ++ PROGRESS_END ++ b)). rewrite G at 1. rewrite F at 1.
    now rewrite <- !app_assoc. }
  rewrite F in L. rewrite !length_app in L.
  change (length PROGRESS_END) with 21 in L. lia.
Qed.

Lemma extract_progress_block_no_end_witness :
  find_first PROGRESS_END (extract_progress_block readme_one_done) = None.
Proof.
  apply extract_progress_block_no_end. vm_compute. discriminate.
Defined.
